(** * Block-sparse matmul scheduling: load balancing, look-up tables,
      gradient dispatch, launches and input validation

    Shallow embedding of [python/triton/ops/blocksparse/matmul.py].
    Integer tensors are lists of [Z]. On layouts of 0s and 1s the values
    are counts of blocks and sums of them, far below the int64 range; the
    64-bit wrap-around is not written out, and a property that holds only
    inside that range states the bound. The cast of the look-up table to
    int32 is written out.
    Python exceptions are the [Raise] branch of a small error monad;
    in-place tensor writes are list updates with Python's index rules
    written out; uninitialised memory is a parameter. Of the Triton
    kernels only the addressing of the look-up table is modelled.

    The file has three parts: the program, the vocabulary of the
    properties, and the properties with their proofs. *)

(** * The program *)

From Stdlib Require Import ZArith Lia Bool String Ascii.
From stdpp Require Import base list sorting gmap strings.

Local Open Scope Z_scope.

(** ** Exceptions and the error monad *)

Inductive device := cpu | cuda (ordinal : nat).

Inductive dtype := float16 | float32 | float64 | int32 | int64.

(** The text of each [ValueError] the module raises, with the values its
    f-string interpolates kept as fields; the last one is numpy's, for a
    reshape that does not fit. *)
Inductive message :=
  | msg_device_mismatch (dev_a dev_b : device)
  | msg_only_gpu
  | msg_dtype_mismatch (dt_a dt_b : dtype)
  | msg_dense_inner (name : string) (expected dim got : Z)
  | msg_sparse_shape (expected : list Z) (name : string) (got : list Z)
  | msg_more_than_4_dims
  | msg_inner_mismatch (Ka Kb : Z)
  | msg_reduction_16
  | msg_cannot_reshape (size : Z).

Inductive exn :=
  | RuntimeError
  | IndexError
  | KeyError
  | AssertionError
  | AttributeError
  | NotImplementedError
  | ZeroDivisionError
  | UnboundLocalError
  | ValueError (m : message).

Inductive res (A : Type) :=
  | Ok (a : A)
  | Raise (e : exn).
Arguments Ok {A} a.
Arguments Raise {A} e.

Definition bind {A B} (c : res A) (k : A -> res B) : res B :=
  match c with
  | Ok a => k a
  | Raise e => Raise e
  end.

Declare Scope res_scope.
Delimit Scope res_scope with res.
Notation "'do' x <- c ; k" := (bind c (fun x => k))
  (at level 10, x pattern, c at level 100, k at level 200) : res_scope.
Local Open Scope res_scope.

(** ** Integer tensors of rank one *)

Definition b2z (b : bool) : Z := if b then 1 else 0.

(** [t.sum()] *)
Definition tsum (t : list Z) : Z := foldr Z.add 0 t.

(** [t.max()] and [t.min()]: an empty tensor has no maximum, torch raises. *)
Definition tmax (t : list Z) : res Z :=
  match t with
  | [] => Raise RuntimeError
  | x :: xs => Ok (foldl Z.max x xs)
  end.

Definition tmin (t : list Z) : res Z :=
  match t with
  | [] => Raise RuntimeError
  | x :: xs => Ok (foldl Z.min x xs)
  end.

(** [t // k] and [t % k] on an integer tensor; a zero divisor raises.
    Python rounds the quotient down and gives the remainder the sign of the
    divisor, as [Z.div] and [Z.modulo] do. *)
Definition tfloordiv (t : list Z) (k : Z) : res (list Z) :=
  if k =? 0 then Raise RuntimeError else Ok (map (fun x => x / k) t).

Definition tmod (t : list Z) (k : Z) : res (list Z) :=
  if k =? 0 then Raise RuntimeError else Ok (map (fun x => x mod k) t).

(** [triton.cdiv] *)
Definition cdiv (x y : Z) : Z := (x + y - 1) / y.

(** [torch.empty(n)]: the buffer is not initialised; [mem] stands for
    whatever the allocator hands out. A negative size raises. *)
Definition torch_empty (mem : nat -> Z) (n : Z) : res (list Z) :=
  if n <? 0 then Raise RuntimeError
  else Ok (map mem (seq 0 (Z.to_nat n))).

(** The uninitialised memory a call sees: allocation number, then cell. *)
Definition heap := nat -> nat -> Z.

Definition zeros_like (t : list Z) : list Z := replicate (length t) 0.

(** Python's slice bound: a negative bound counts from the end, and both
    ends are clamped into [0, n]. *)
Definition slice_bound (n : nat) (i : Z) : nat :=
  if i <? 0 then Z.to_nat (Z.max (i + Z.of_nat n) 0)
  else Z.to_nat (Z.min i (Z.of_nat n)).

(** [t[a:b] = v] *)
Definition slice_assign (t : list Z) (a b v : Z) : list Z :=
  let lo := slice_bound (length t) a in
  let hi := slice_bound (length t) b in
  take lo t ++ replicate (hi - lo) v ++ drop (Nat.max lo hi) t.

(** Python's item index: a negative index counts from the end, anything
    still outside the tensor raises [IndexError]. *)
Definition item_index (n : nat) (i : Z) : res nat :=
  let k := if i <? 0 then i + Z.of_nat n else i in
  if (0 <=? k) && (k <? Z.of_nat n) then Ok (Z.to_nat k) else Raise IndexError.

(** [t[i] = v] *)
Definition item_set (t : list Z) (i v : Z) : res (list Z) :=
  do k <- item_index (length t) i;
  Ok (<[k := v]> t).

(** [t[i] += v] *)
Definition item_add (t : list Z) (i v : Z) : res (list Z) :=
  do k <- item_index (length t) i;
  Ok (<[k := default 0 (t !! k) + v]> t).

(** [torch.cumsum(t, dim=0)] *)
Fixpoint cumsum_from (acc : Z) (t : list Z) : list Z :=
  match t with
  | [] => []
  | x :: xs => (acc + x) :: cumsum_from (acc + x) xs
  end.

Definition cumsum (t : list Z) : list Z := cumsum_from 0 t.

(** ** [_matmul.load_balance] *)

Record lb_state := {
  st_segments : list Z;
  st_column : list Z;
  st_lockid : list Z;
  st_maxid : list Z;
  st_nlocks : Z;
  st_current : Z;
  st_col_idx : Z
}.

(** One iteration of the loop over the columns: [size_i], [d] and [r] are
    [sizes[i]], [div[i]] and [rem[i]]. *)
Definition lb_body (seg_max seg_min : Z) (size_i d r : Z) (st : lb_state)
  : res lb_state :=
  let current := st_current st in
  let col_idx := st_col_idx st in
  let isempty := size_i <? seg_min in
  let last := current + d + b2z (seg_min <=? r) + b2z isempty in
  let column := slice_assign (st_column st) current last col_idx in
  let locked := (1 <? d) || ((d =? 1) && (seg_min <=? r)) in
  let nlocks := if locked then st_nlocks st + 1 else st_nlocks st in
  let lockid :=
    if locked then slice_assign (st_lockid st) current last nlocks
    else st_lockid st in
  let maxid :=
    if locked then slice_assign (st_maxid st) current last (last - current)
    else st_maxid st in
  let segments := slice_assign (st_segments st) current (current + d) seg_max in
  do segments <-
    (if (r <? seg_min) && negb isempty
     then item_add segments (current + d - 1) r
     else Ok segments);
  do segments <-
    (if (seg_min <=? r) || isempty
     then item_set segments (current + d) r
     else Ok segments);
  Ok {| st_segments := segments; st_column := column; st_lockid := lockid;
        st_maxid := maxid; st_nlocks := nlocks; st_current := last;
        st_col_idx := col_idx + 1 |}.

(** [for i in range(len(sizes))], over the rows [(sizes[i], div[i], rem[i])]. *)
Fixpoint lb_loop (seg_max seg_min : Z) (cols : list (Z * (Z * Z)))
  (st : lb_state) : res lb_state :=
  match cols with
  | [] => Ok st
  | (size_i, (d, r)) :: cols' =>
      do st' <- lb_body seg_max seg_min size_i d r st;
      lb_loop seg_max seg_min cols' st'
  end.

Record balanced := {
  segments : list Z;
  column : list Z;
  lockid : list Z;
  maxid : list Z;
  offsets : list Z
}.

(** [offsets = zeros_like(segments); offsets[1:] = cumsum(segments[:-1])].
    The sums are taken in [Z]: they are those of [torch.cumsum] as long as
    they stay inside the 64-bit range, which they do for reduction lengths
    whose total does. *)
Definition lb_offsets (segs : list Z) : list Z :=
  match segs with
  | [] => []
  | _ :: _ => 0 :: cumsum (removelast segs)
  end.

Definition load_balance (mem : heap) (sizes : list Z) : res balanced :=
  do max_size <- tmax sizes;
  do min_size <- tmin (filter (fun s => s <> 0) sizes);
  let seg_max := max_size in
  let seg_min := Z.max (cdiv seg_max 4) 4 in
  do div <- tfloordiv sizes seg_max;
  do rem <- tmod sizes seg_max;
  let packs :=
    map (fun '(s, (d, r)) => d + b2z (s <? seg_min) + b2z (seg_min <=? r))
        (zip sizes (zip div rem)) in
  let width := tsum packs in
  do segs <- torch_empty (mem 0%nat) width;
  do cols <- torch_empty (mem 1%nat) width;
  let st0 := {| st_segments := segs; st_column := cols;
                st_lockid := zeros_like segs; st_maxid := zeros_like segs;
                st_nlocks := 0; st_current := 0; st_col_idx := 0 |} in
  do st <- lb_loop seg_max seg_min (zip sizes (zip div rem)) st0;
  Ok {| segments := st_segments st; column := st_column st;
        lockid := st_lockid st; maxid := st_maxid st;
        offsets := lb_offsets (st_segments st) |}.

(** ** Layout tensors and the load-balancing loop of [_matmul.make_dxx_lut] *)

(** A contiguous integer tensor: its shape and its cells in row-major
    order. *)
Record tensor := {
  shape : list nat;
  data : list Z
}.

(** [layout[z, h, w]] of a rank-3 tensor. *)
Definition at3 (layout : tensor) (z h w : nat) : Z :=
  match shape layout with
  | [_; nh; nw] => default 0 (data layout !! ((z * nh + h) * nw + w)%nat)
  | _ => 0
  end.

(** [torch.sum(layout[z, :, :], 1)]: one sum per row. *)
Definition sum_axis1 (layout : tensor) (z : nat) : list Z :=
  match shape layout with
  | [_; nh; nw] =>
      map (fun h => tsum (map (fun w => at3 layout z h w) (seq 0 nw))) (seq 0 nh)
  | _ => []
  end.

(** [torch.sum(layout[z, :, :], 0)]: one sum per column. *)
Definition sum_axis0 (layout : tensor) (z : nat) : list Z :=
  match shape layout with
  | [_; nh; nw] =>
      map (fun w => tsum (map (fun h => at3 layout z h w) (seq 0 nh))) (seq 0 nw)
  | _ => []
  end.

(** [layout[z, :, :].sum()] *)
Definition slice_total (layout : tensor) (z : nat) : Z := tsum (sum_axis1 layout z).

Record dxx_state := {
  dxx_segments : list Z;
  dxx_column : list Z;
  dxx_depth : list Z;
  dxx_lockid : list Z;
  dxx_maxid : list Z;
  dxx_offsets : list Z;
  current_offset : Z;
  current_maxid : Z
}.

(** [z_lockid[z_lockid > 0] += current_maxid] *)
Definition shift_locks (current_maxid : Z) (z_lockid : list Z) : list Z :=
  map (fun l => if 0 <? l then l + current_maxid else l) z_lockid.

(** The body of [for z in range(layout.size(0))]; [mem] is the
    uninitialised memory the call of [load_balance] sees. *)
Definition dxx_slice (mem : heap) (layout : tensor) (trans : bool) (z : nat)
  (st : dxx_state) : res dxx_state :=
  let sizes := if trans then sum_axis1 layout z else sum_axis0 layout z in
  do lb <- load_balance mem sizes;
  let z_depth := map (fun _ => Z.of_nat z) (segments lb) in
  let z_lockid := shift_locks (current_maxid st) (lockid lb) in
  do new_maxid <- tmax z_lockid;
  Ok {| dxx_segments := dxx_segments st ++ segments lb;
        dxx_column := dxx_column st ++ column lb;
        dxx_depth := dxx_depth st ++ z_depth;
        dxx_maxid := dxx_maxid st ++ maxid lb;
        dxx_offsets := dxx_offsets st ++ map (Z.add (current_offset st)) (offsets lb);
        dxx_lockid := dxx_lockid st ++ z_lockid;
        current_offset := current_offset st + slice_total layout z;
        current_maxid := new_maxid |}.

Fixpoint dxx_loop (mem : nat -> heap) (layout : tensor) (trans : bool)
  (zs : list nat) (st : dxx_state) : res dxx_state :=
  match zs with
  | [] => Ok st
  | z :: zs' =>
      do st' <- dxx_slice (mem z) layout trans z st;
      dxx_loop mem layout trans zs' st'
  end.

(** The first part of [make_dxx_lut], up to the end of the loop over the
    depth slices. The header of the LUT is built from these vectors; its
    depth and lock id fields are [dxx_depth] and [dxx_lockid] as they
    stand. Indexing [layout[z, :, :]] needs a rank-3 layout. *)
Definition make_dxx_lut_balance (mem : nat -> heap) (layout : tensor)
  (trans : bool) : res dxx_state :=
  match shape layout with
  | [nz; _; _] =>
      dxx_loop mem layout trans (seq 0 nz)
        {| dxx_segments := []; dxx_column := []; dxx_depth := [];
           dxx_lockid := []; dxx_maxid := []; dxx_offsets := [];
           current_offset := 0; current_maxid := 0 |}
  | _ => Raise IndexError
  end.

(** [num_locks = max(1, lockid.max())] *)
Definition num_locks (st : dxx_state) : res Z :=
  do m <- tmax (dxx_lockid st);
  Ok (Z.max 1 m).





Definition zero_heaps : nat -> heap := fun _ _ _ => 0.

(** ** [_matmul.get_locks] *)

Global Instance device_eq_dec : EqDecision device.
Proof. solve_decision. Defined.

Global Instance device_countable : Countable device :=
  inj_countable'
    (fun d => match d with cpu => None | cuda n => Some n end)
    (fun o => match o with None => cpu | Some n => cuda n end)
    (fun d => match d with cpu => eq_refl | cuda _ => eq_refl end).

(** A tensor object on the heap: [buf_id] is its identity, [cells] its
    contents. *)
Record buffer := {
  buf_id : nat;
  cells : list Z
}.

(** The class attribute [_matmul.locks] and the allocator's next fresh
    object identity. *)
Record lock_store := {
  locks : gmap device buffer;
  next_id : nat
}.

(** [torch.zeros(size, dtype=torch.int32, device=dev)] stored at
    [locks[dev]]; a negative size raises before anything is stored. *)
Definition store_zeros (size : Z) (dev : device) (st : lock_store)
  : res (buffer * lock_store) :=
  if size <? 0 then Raise RuntimeError
  else
    let buf := {| buf_id := next_id st; cells := replicate (Z.to_nat size) 0 |} in
    Ok (buf, {| locks := <[dev := buf]> (locks st); next_id := S (next_id st) |}).

Definition get_locks (size : Z) (dev : device) (st : lock_store)
  : res (buffer * lock_store) :=
  match locks st !! dev with
  | None => store_zeros size dev st
  | Some buf =>
      if Z.of_nat (length (cells buf)) <? size then store_zeros size dev st
      else Ok (buf, st)
  end.

(** The store after one call; a call that raises leaves it as it was. *)
Definition after_call (st : lock_store) (call : Z * device) : lock_store :=
  match get_locks call.1 call.2 st with
  | Ok (_, st') => st'
  | Raise _ => st
  end.

(** The store after a sequence of calls. *)
Definition after_calls (st : lock_store) (calls : list (Z * device)) : lock_store :=
  foldl after_call st calls.

(** The size of the buffer stored for [dev], if there is one. *)
Definition locks_size (st : lock_store) (dev : device) : option nat :=
  (fun buf => length (cells buf)) <$> locks st !! dev.

(** ** [_matmul.fn] and [_matmul.backward] *)

(** The three launchers [fn] dispatches to. *)
Inductive matmul_fn := sdd_matmul_fn | dsd_matmul_fn | dds_matmul_fn.

Definition fn : gmap string matmul_fn :=
  <["sdd" := sdd_matmul_fn]> (<["dsd" := dsd_matmul_fn]> (<["dds" := dds_matmul_fn]> ∅)).

(** The tensors [backward] passes on: the two saved operands and the
    incoming gradient. *)
Inductive grad_operand := saved_a | saved_b | grad_dc.

(** The look-up table, lock count, width and packs passed on: those saved
    for the gradient of [a] or of [b]. *)
Inductive saved_lut := da_tables | db_tables.

(** One call [fn[mode](a, b, trans_a, trans_b, trans_c, spdims, block, lut,
    num_locks, width, packs)]. *)
Record launch := {
  launch_fn : matmul_fn;
  launch_a : grad_operand;
  launch_b : grad_operand;
  launch_trans_a : bool;
  launch_trans_b : bool;
  launch_trans_c : bool;
  launch_spdims : list nat;
  launch_block : Z;
  launch_tables : saved_lut
}.

Record context := {
  ctx_mode : string;
  ctx_spdims : list nat;
  ctx_block : Z;
  ctx_trans_a : bool;
  ctx_trans_b : bool;
  needs_input_grad : bool * bool
}.

(** [s[i]] on a Python string. *)
Definition str_item (s : string) (i : nat) : res ascii :=
  match String.get i s with
  | Some c => Ok c
  | None => Raise IndexError
  end.

(** [s[i] + s[j] + s[k]] *)
Definition str_items (s : string) (i j k : nat) : res string :=
  do ci <- str_item s i;
  do cj <- str_item s j;
  do ck <- str_item s k;
  Ok (String ci (String cj (String ck EmptyString))).

(** [fn[mode]] *)
Definition fn_item (mode : string) : res matmul_fn :=
  match fn !! mode with
  | Some f => Ok f
  | None => Raise KeyError
  end.

(** [backward] as the pair [(da, db)] of the launches it makes; [None]
    where no gradient is asked for. *)
Definition backward (ctx : context) : res (option launch * option launch) :=
  let mode := ctx_mode ctx in
  do da <-
    (if (needs_input_grad ctx).1 then
       do mode_da <- str_items mode 1 0 2;
       do f <- fn_item mode_da;
       Ok (Some {| launch_fn := f; launch_a := grad_dc; launch_b := saved_b;
                   launch_trans_a := false;
                   launch_trans_b := negb (ctx_trans_b ctx);
                   launch_trans_c := ctx_trans_a ctx;
                   launch_spdims := ctx_spdims ctx;
                   launch_block := ctx_block ctx;
                   launch_tables := da_tables |})
     else Ok None);
  do db <-
    (if (needs_input_grad ctx).2 then
       do mode_db <- str_items mode 2 1 0;
       do f <- fn_item mode_db;
       Ok (Some {| launch_fn := f; launch_a := saved_a; launch_b := grad_dc;
                   launch_trans_a := negb (ctx_trans_a ctx);
                   launch_trans_b := false;
                   launch_trans_c := ctx_trans_b ctx;
                   launch_spdims := ctx_spdims ctx;
                   launch_block := ctx_block ctx;
                   launch_tables := db_tables |})
     else Ok None);
  Ok (da, db).

Definition supported_modes : list string := ["sdd"; "dsd"; "dds"]%string.

(** ** The scheduler object: [matmul.__init__], [matmul._validate_inputs]
       and the shape constraints of [sdd_matmul] *)

(** [t[i]] on a tuple. *)
Definition tuple_item {A} (t : list A) (i : Z) : res A :=
  do k <- item_index (length t) i;
  match t !! k with
  | Some x => Ok x
  | None => Raise IndexError
  end.

(** [t[i:]] on a tuple. *)
Definition tuple_from {A} (t : list A) (i : Z) : list A :=
  drop (slice_bound (length t) i) t.

(** The attributes [__init__] sets; the three optional ones exist only in
    the dense-output modes. *)
Record matmul := {
  self_block : Z;
  self_mode : string;
  self_trans_a : bool;
  self_trans_b : bool;
  self_dense_inner_dim : option Z;
  self_dense_inner_size : option Z;
  self_sparse_shape : option (list Z);
  self_layout : tensor;
  self_spdims : list nat
}.

(** [-((sparse_inner % 2) + 1)]: the other one of the dimensions -1, -2. *)
Definition other_inner (sparse_inner : Z) : Z := - ((sparse_inner mod 2) + 1).

Definition matmul_init (layout : tensor) (block : Z) (mode : string)
  (trans_a trans_b : bool) : res matmul :=
  if negb (bool_decide (mode ∈ supported_modes)) then Raise NotImplementedError
  else
    let layout_dim := length (shape layout) in
    if negb (bool_decide (layout_dim ∈ [2; 3]%nat)) then Raise AssertionError
    else
      do attrs <-
        (if negb (bool_decide (mode = "sdd"%string)) then
           let '(trans_dense, trans_sparse, sparse_inner) :=
             if bool_decide (mode = "dsd"%string)
             then (trans_b, trans_a, -1) else (trans_a, trans_b, -2) in
           let dense_inner_dim :=
             if negb trans_dense then other_inner sparse_inner else sparse_inner in
           let sparse_inner :=
             if negb trans_sparse then sparse_inner else other_inner sparse_inner in
           do inner <- tuple_item (shape layout) sparse_inner;
           Ok (Some dense_inner_dim, Some (Z.of_nat inner * block),
               Some [tsum (data layout); block; block])
         else Ok (None, None, None));
      let layout :=
        if bool_decide (layout_dim = 2%nat)
        then {| shape := 1%nat :: shape layout; data := data layout |}
        else layout in
      Ok {| self_block := block; self_mode := mode;
            self_trans_a := trans_a; self_trans_b := trans_b;
            self_dense_inner_dim := attrs.1.1;
            self_dense_inner_size := attrs.1.2;
            self_sparse_shape := attrs.2;
            self_layout := layout; self_spdims := shape layout |}.

(** What validation reads of an operand. *)
Record operand := {
  op_shape : list Z;
  op_device : device;
  op_dtype : dtype
}.

Global Instance dtype_eq_dec : EqDecision dtype.
Proof. solve_decision. Defined.

Definition is_cuda (x : operand) : bool :=
  match op_device x with
  | cuda _ => true
  | cpu => false
  end.

Definition ndim (x : operand) : nat := length (op_shape x).

(** [x.half()] *)
Definition half (x : operand) : operand :=
  {| op_shape := op_shape x; op_device := op_device x; op_dtype := float16 |}.

(** An attribute that [__init__] may not have set. *)
Definition attribute {A} (o : option A) : res A :=
  match o with
  | Some x => Ok x
  | None => Raise AttributeError
  end.

Definition add_extra_dims (x : operand) : res operand :=
  let dims_needed := 4 - Z.of_nat (ndim x) in
  if 0 <? dims_needed then
    Ok {| op_shape := replicate (Z.to_nat dims_needed) 1 ++ op_shape x;
          op_device := op_device x; op_dtype := op_dtype x |}
  else if dims_needed <? 0 then Raise (ValueError msg_more_than_4_dims)
  else Ok x.

(** The shape checks of [_validate_inputs], the block under
    [if mode != 'sdd']. *)
Definition check_shapes (self : matmul) (a b : operand) : res unit :=
  if negb (bool_decide (self_mode self = "sdd"%string)) then
    let '(dense, dense_name, sparse, sparse_name) :=
      if bool_decide (self_mode self = "dds"%string)
      then (a, "A"%string, b, "B"%string)
      else (b, "B"%string, a, "A"%string) in
    do dense_inner_dim <- attribute (self_dense_inner_dim self);
    do dense_inner <- tuple_item (op_shape dense) dense_inner_dim;
    do dense_inner_size <- attribute (self_dense_inner_size self);
    if negb (dense_inner =? dense_inner_size) then
      Raise (ValueError (msg_dense_inner dense_name dense_inner_size
                           (dense_inner_dim mod Z.of_nat (ndim dense))
                           dense_inner))
    else
      do sparse_shape <- attribute (self_sparse_shape self);
      if negb (bool_decide
                 (tuple_from (op_shape sparse) (- Z.of_nat (length sparse_shape))
                  = sparse_shape))
      then Raise (ValueError (msg_sparse_shape sparse_shape sparse_name
                                (op_shape sparse)))
      else Ok tt
  else Ok tt.

(** [autocast] is [torch.is_autocast_enabled()]. *)
Definition validate_inputs (self : matmul) (autocast : bool) (a b : operand)
  : res (operand * operand) :=
  if negb (bool_decide (op_device a = op_device b))
  then Raise (ValueError (msg_device_mismatch (op_device a) (op_device b)))
  else if negb (is_cuda a) then Raise (ValueError msg_only_gpu)
  else
    do ab <-
      (if autocast then Ok (half a, half b)
       else if negb (bool_decide (op_dtype a = op_dtype b))
            then Raise (ValueError (msg_dtype_mismatch (op_dtype a) (op_dtype b)))
            else Ok (a, b));
    let '(a, b) := ab in
    do _ <- check_shapes self a b;
    do a <- add_extra_dims a;
    do b <- add_extra_dims b;
    Ok (a, b).

(** [sdd_matmul] up to the allocation of the output: the shape constraints
    and the shape of [c], as [torch.zeros] gives it for sizes that are not
    negative. The kernel launches that fill [c], and the strides they look
    up on operands of rank 4, are not modelled. *)
Definition sdd_matmul (a b : operand) (trans_a trans_b trans_c : bool)
  (block : Z) (widths packs : list Z) : res operand :=
  let '(a, b, trans_a, trans_b) :=
    if trans_c then (b, a, negb trans_b, negb trans_a)
    else (a, b, trans_a, trans_b) in
  let a_dim := if trans_a then -2 else -1 in
  let b_dim := if trans_b then -1 else -2 in
  do Ka <- tuple_item (op_shape a) a_dim;
  do Kb <- tuple_item (op_shape b) b_dim;
  if negb (Ka =? Kb) then Raise (ValueError (msg_inner_mismatch Ka Kb))
  else if negb (Ka mod 16 =? 0) then Raise (ValueError msg_reduction_16)
  else
    let n_blocks :=
      tsum (zip_with (fun width pack => width * pack * pack) widths packs) in
    do batch <- tuple_item (op_shape a) 0;
    Ok {| op_shape := [batch; n_blocks; block; block];
          op_device := op_device a; op_dtype := op_dtype a |}.

(** * Vocabulary of the properties *)

(** ** What [load_balance] computes on reduction lengths

    With [seg_max = max(sizes)] a column is either shorter than [seg_max]
    (quotient 0, the remainder is the column) or equal to it (quotient 1,
    remainder 0). [column_plan] lists the segment sizes the loop body
    writes for one column in these cases. *)

Definition column_plan (seg_max seg_min s : Z) : list Z :=
  if s <? seg_max then [s]
  else if s <? seg_min then [seg_max; 0]
  else [seg_max].

Fixpoint column_ids (seg_max seg_min : Z) (i : Z) (sizes : list Z) : list Z :=
  match sizes with
  | [] => []
  | s :: ss =>
      replicate (length (column_plan seg_max seg_min s)) i
      ++ column_ids seg_max seg_min (i + 1) ss
  end.

Definition all_plans (seg_max seg_min : Z) (sizes : list Z) : list Z :=
  concat (map (column_plan seg_max seg_min) sizes).

(** ** The result of [load_balance] in closed form *)

(** [M] is the largest entry of [sizes]. *)
Definition is_max (M : Z) (sizes : list Z) : Prop :=
  M ∈ sizes /\ Forall (fun s => s <= M) sizes.

(** [seg_min] as the source computes it from [seg_max]. *)
Definition seg_min_of (seg_max : Z) : Z := Z.max (cdiv seg_max 4) 4.

Definition planned (seg_max : Z) (sizes : list Z) : balanced :=
  let segs := all_plans seg_max (seg_min_of seg_max) sizes in
  {| segments := segs;
     column := column_ids seg_max (seg_min_of seg_max) 0 sizes;
     lockid := replicate (length segs) 0;
     maxid := replicate (length segs) 0;
     offsets := lb_offsets segs |}.

(** ** Segments by owning column *)

(** One row per scheduled segment: owning column, then size and lock id. *)
Definition rows (r : balanced) : list (Z * (Z * Z)) :=
  zip (column r) (zip (segments r) (lockid r)).

(** Size and lock id of the segments that column [i] owns, in order. *)
Definition column_rows (r : balanced) (i : Z) : list (Z * Z) :=
  map snd (filter (fun row => row.1 = i) (rows r)).

Definition count_nonzero (sizes : list Z) : nat :=
  length (filter (fun s => s <> 0) sizes).

Definition count_zero (sizes : list Z) : nat :=
  length (filter (fun s => s = 0) sizes).

(** The rows the plans of [sizes] amount to, columns numbered from [j]. *)
Fixpoint plan_rows (seg_max seg_min : Z) (j : Z) (sizes : list Z)
  : list (Z * (Z * Z)) :=
  match sizes with
  | [] => []
  | s :: ss =>
      map (fun x => (j, (x, 0))) (column_plan seg_max seg_min s)
      ++ plan_rows seg_max seg_min (j + 1) ss
  end.

(** ** Errors, operands and example inputs *)

(** The errors that count as configuration errors and as shape errors. *)
Definition configuration_error (e : exn) : Prop :=
  e = NotImplementedError \/ e = AssertionError.

Definition shape_error (e : exn) : Prop :=
  match e with
  | ValueError (msg_dense_inner _ _ _ _)
  | ValueError (msg_sparse_shape _ _ _)
  | ValueError (msg_inner_mismatch _ _)
  | ValueError msg_reduction_16 => True
  | _ => False
  end.

(** The device and dtype checks that come before the shape checks let the
    operands through. *)
Definition guards_pass (autocast : bool) (a b : operand) : Prop :=
  op_device a = op_device b /\ is_cuda a = true
  /\ (autocast = true \/ op_dtype a = op_dtype b).

(** The dense and the sparse operand of a dense-output mode, with the
    names the messages use. *)
Definition dense_of (mode : string) (a b : operand) : operand * string :=
  if bool_decide (mode = "dds"%string) then (a, "A"%string) else (b, "B"%string).

Definition sparse_of (mode : string) (a b : operand) : operand * string :=
  if bool_decide (mode = "dds"%string) then (b, "B"%string) else (a, "A"%string).

(** The layout dimension along which the sparse operand is reduced. *)
Definition sparse_inner_of (mode : string) (trans_a trans_b : bool) : Z :=
  if bool_decide (mode = "dsd"%string)
  then (if trans_a then -2 else -1)
  else (if trans_b then -1 else -2).

(** The dimension of the dense operand that is reduced. *)
Definition dense_inner_of (mode : string) (trans_a trans_b : bool) : Z :=
  if bool_decide (mode = "dsd"%string)
  then (if trans_b then -1 else -2)
  else (if trans_a then -2 else -1).

(** The layout of the spec's scenarios: 2 x 2 blocks, the diagonal
    populated. *)
Definition diagonal_layout : tensor :=
  {| shape := [2; 2]%nat; data := [1; 0; 0; 1] |}.

(** A layout of two depth slices, each a 2 x 2 grid of blocks. *)
Definition two_slices : tensor :=
  {| shape := [2; 2; 2]%nat; data := [1; 0; 0; 1; 1; 1; 0; 1] |}.



(** The contract of [sizes]: reduction lengths, that is counts of populated
    blocks, are not negative. *)
Definition reduction_lengths (sizes : list Z) : Prop :=
  Forall (fun s => 0 <= s) sizes.

(** [sizes] has at least one nonzero entry. *)
Definition has_nonzero (sizes : list Z) : Prop :=
  Exists (fun s => s <> 0) sizes.

(** The allocator contents used when a result is computed outright. *)
Definition zero_heap : heap := fun _ _ => 0.

(** A column's rows say that it was split and locked: more than one
    segment, all carrying one shared nonzero lock id. *)
Definition split_and_locked (col : list (Z * Z)) : Prop :=
  (1 < length col)%nat /\ exists l, l <> 0 /\ Forall (fun row => row.2 = l) col.

(** A column's rows say that it is one segment with lock id 0. *)
Definition single_unlocked (col : list (Z * Z)) : Prop :=
  exists x, col = [(x, 0)].

(** The five output vectors have one common length [n]. *)
Definition common_length (r : balanced) (n : nat) : Prop :=
  length (segments r) = n /\ length (column r) = n /\ length (lockid r) = n
  /\ length (maxid r) = n /\ length (offsets r) = n.

(** ** Prefix sums *)

(** The exclusive prefix sums of [t]: entry [k] is the sum of the first [k]
    entries of [t]. *)
Definition prefix_sums (t : list Z) : list Z :=
  map (fun k => tsum (take k t)) (seq 0 (length t)).

(** ** Reduction lengths of a depth slice *)

(** The vector [make_dxx_lut] hands to [load_balance] for slice [z]. *)
Definition slice_sizes (layout : tensor) (trans : bool) (z : nat) : list Z :=
  if trans then sum_axis1 layout z else sum_axis0 layout z.

(** The six vectors of the schedule have one common length [n]. *)
Definition dxx_common_length (st : dxx_state) (n : nat) : Prop :=
  length (dxx_segments st) = n /\ length (dxx_column st) = n
  /\ length (dxx_depth st) = n /\ length (dxx_lockid st) = n
  /\ length (dxx_maxid st) = n /\ length (dxx_offsets st) = n.

(** A layout with an empty second depth slice. *)
Definition empty_slice_layout : tensor :=
  {| shape := [2; 2; 2]%nat; data := [1; 0; 0; 1; 0; 0; 0; 0] |}.

(** * More of the program *)

(** ** [range] and the launch grids of [sdd_matmul] *)

(** [range(start, stop, step)] for a positive step: its length is
    [(stop - start + step - 1) // step] when that is positive, else 0. *)
Definition py_range (start stop step : Z) : list Z :=
  map (fun k => start + k * step) (seqZ 0 ((stop - start + step - 1) / step)).

Definition max_grid : Z := 65535.

(** The launches of [_sdd_kernel] for one group of super-blocks: for every
    [off_grid] the pair of [grid_offset] and [grid]. [batch] is
    [c.shape[0]]. *)
Definition sdd_launches (width batch : Z) : list (Z * list Z) :=
  map (fun off_grid => (off_grid, [1; Z.min max_grid (width - off_grid); batch]))
      (py_range 0 width max_grid).

(** [pid1 = tl.program_id(1) + grid_offset] over the programs of one
    launch: the super-blocks that launch computes. *)
Definition launch_superblocks (launch : Z * list Z) : list Z :=
  map (fun program_id => program_id + launch.1)
      (seqZ 0 (default 0 (launch.2 !! 1%nat))).

(** ** [dsd_matmul] and [dds_matmul], up to the kernel launch *)

(** [x.size(i)] and [x.stride(i)] exist for the same [i]. *)
Definition size (x : operand) (i : Z) : res Z := tuple_item (op_shape x) i.

Definition has_stride (x : operand) (i : Z) : res unit :=
  do _ <- tuple_item (op_shape x) i; Ok tt.

(** The output [c] that [dsd_matmul] allocates and the grid it launches
    [_dsd_kernel] on; [TILE_N] is 128. The strides it passes exist only
    for operands of rank 4. *)
Definition dsd_matmul (a b : operand) (trans_a trans_b trans_c : bool)
  (spdims : list nat) (block : Z) (width : Z) : res (operand * list Z) :=
  do rows <- tuple_item spdims (if trans_a then 2 else 1);
  let AS1 := block * Z.of_nat rows in
  do BS0 <- size b 0;
  do BS1 <- size b 1;
  do BS3 <- size b (if trans_b then 2 else 3);
  let CS0 := BS0 in
  let CS1 := BS1 in
  let CS2 := if trans_c then BS3 else AS1 in
  let CS3 := if trans_c then AS1 else BS3 in
  let c := {| op_shape := [CS0; CS1; CS2; CS3]; op_device := op_device a;
              op_dtype := op_dtype a |} in
  do _ <- has_stride a 0;
  do _ <- has_stride a (if trans_a then 3 else 2);
  do _ <- has_stride a (if trans_a then 2 else 3);
  do _ <- has_stride b 0;
  do _ <- has_stride b 1;
  do _ <- has_stride b (if trans_b then 3 else 2);
  do _ <- has_stride b (if trans_b then 2 else 3);
  Ok (c, [width; cdiv BS3 128; BS0]).

(** The same for [dds_matmul]; [TILE_M] is 128. *)
Definition dds_matmul (a b : operand) (trans_a trans_b trans_c : bool)
  (spdims : list nat) (block : Z) (width : Z) : res (operand * list Z) :=
  do AS0 <- size a 0;
  do AS1 <- size a 1;
  do AS2 <- size a (if trans_a then 3 else 2);
  do cols <- tuple_item spdims (if trans_b then 1 else 2);
  let BS2 := block * Z.of_nat cols in
  let CS0 := AS0 in
  let CS1 := AS1 in
  let CS2 := if trans_c then BS2 else AS2 in
  let CS3 := if trans_c then AS2 else BS2 in
  let c := {| op_shape := [CS0; CS1; CS2; CS3]; op_device := op_device a;
              op_dtype := op_dtype a |} in
  do _ <- has_stride a 0;
  do _ <- has_stride a 1;
  do _ <- has_stride a (if trans_a then 3 else 2);
  do _ <- has_stride a (if trans_a then 2 else 3);
  do _ <- has_stride b 0;
  do _ <- has_stride b 1;
  do _ <- has_stride b (if trans_b then 3 else 2);
  do _ <- has_stride b (if trans_b then 2 else 3);
  Ok (c, [width; cdiv AS2 128; AS0]).

(** ** The end of [matmul.__call__] *)

(** [c.squeeze(0)]: a leading dimension of size 1 is removed, any other
    shape is left as it is. *)
Definition squeeze0 (c : operand) : operand :=
  match op_shape c with
  | d :: rest =>
      if d =? 1
      then {| op_shape := rest; op_device := op_device c; op_dtype := op_dtype c |}
      else c
  | [] => c
  end.

(** [for _ in range(dims_to_trim): c = c.squeeze(0)] *)
Definition trim_leading (dims_to_trim : Z) (c : operand) : operand :=
  Nat.iter (Z.to_nat dims_to_trim) squeeze0 c.

(** [original_dims] and the trimming of the result [c]. *)
Definition trim_result (a b c : operand) : operand :=
  let original_dims := Nat.max (ndim a) (ndim b) in
  trim_leading (Z.of_nat (ndim c) - Z.of_nat original_dims) c.

(** [x] padded with leading singleton dimensions to rank 4. *)
Definition padded (x : operand) : operand :=
  {| op_shape := replicate (4 - ndim x) 1 ++ op_shape x;
     op_device := op_device x; op_dtype := op_dtype x |}.

(** The operand as validation goes on with it: cast to float16 under
    autocast. *)
Definition cast (autocast : bool) (x : operand) : operand :=
  if autocast then half x else x.

(** Example operands on one GPU: a block-sparse operand with two blocks
    of 16 x 16, and dense matrices. *)
Definition sparse_2_blocks : operand :=
  {| op_shape := [2; 16; 16]; op_device := cuda 0; op_dtype := float16 |}.

Definition dense_32_64 : operand :=
  {| op_shape := [32; 64]; op_device := cuda 0; op_dtype := float16 |}.

Definition dense_64_32 : operand :=
  {| op_shape := [64; 32]; op_device := cuda 0; op_dtype := float16 |}.

(** The scheduler [__init__] builds from [diagonal_layout] with blocks of
    16, in a given mode and without transposition. *)
Definition diagonal_scheduler (mode : string) : matmul :=
  {| self_block := 16; self_mode := mode; self_trans_a := false;
     self_trans_b := false;
     self_dense_inner_dim :=
       if bool_decide (mode = "sdd"%string) then None
       else Some (dense_inner_of mode false false);
     self_dense_inner_size :=
       if bool_decide (mode = "sdd"%string) then None else Some 32;
     self_sparse_shape :=
       if bool_decide (mode = "sdd"%string) then None else Some [2; 16; 16];
     self_layout := {| shape := [1; 2; 2]%nat; data := [1; 0; 0; 1] |};
     self_spdims := [1; 2; 2]%nat |}.

(** [n_blocks] of [sdd_matmul]: the block slots of all groups of
    super-blocks. *)
Definition n_blocks_of (widths packs : list Z) : Z :=
  tsum (zip_with (fun width pack => width * pack * pack) widths packs).

(** ** The calls of [matmul.make_lut] *)

Global Instance dtype_countable : Countable dtype :=
  inj_countable'
    (fun t => match t with
              | float16 => 0 | float32 => 1 | float64 => 2
              | int32 => 3 | int64 => 4
              end%nat)
    (fun n => match n with
              | 0 => float16 | 1 => float32 | 2 => float64 | 3 => int32
              | _ => int64
              end%nat)
    (fun t => match t with
              | float16 | float32 | float64 | int32 | int64 => eq_refl
              end).

(** The two table builders [make_lut] calls, with the arguments of the
    call. *)
Inductive lut_call :=
  | call_sdd_lut (layout : tensor) (block : Z) (dev : device)
  | call_make_dxx_lut (layout : tensor) (block : Z) (step : positive)
                      (trans : bool) (dev : device).

(** One [if mode == 'sdd' ... elif 'dsd' ... elif 'dds'] chain; with any
    other mode the name it assigns stays unbound. *)
Definition lut_branch (mode : string) (on_sdd on_dsd on_dds : lut_call)
  : option lut_call :=
  if bool_decide (mode = "sdd"%string) then Some on_sdd
  else if bool_decide (mode = "dsd"%string) then Some on_dsd
  else if bool_decide (mode = "dds"%string) then Some on_dds
  else None.

(** The calls that build the tables of the output and of the two
    gradients. *)
Record lut_entry := {
  c_table : lut_call;
  da_table : lut_call;
  db_table : lut_call
}.

(** [make_lut] past the cache look-up: the call each of the three chains
    selects. Selecting is a comparison of [self.mode] only, so the calls
    are picked here and run, in the order of the chains, by [make_lut]
    below. *)
Definition build_luts (self : matmul) (dev : device) : option lut_entry :=
  let layout := self_layout self in
  let block := self_block self in
  let step := 16%positive in
  let dxx := call_make_dxx_lut layout block step in
  let sdd := call_sdd_lut layout block dev in
  match
    lut_branch (self_mode self) sdd
      (dxx (negb (self_trans_a self)) dev) (dxx (self_trans_b self) dev),
    lut_branch (self_mode self) (dxx true dev) sdd
      (dxx (negb (self_trans_b self)) dev),
    lut_branch (self_mode self) (dxx false dev)
      (dxx (self_trans_a self) dev) sdd
  with
  | Some c, Some da, Some db =>
      Some {| c_table := c; da_table := da; db_table := db |}
  | _, _, _ => None
  end.

(** A scheduler over the layout and blocks of [self], in another mode and
    with other transposition flags. *)
Definition rotated (self : matmul) (mode : string) (trans_a trans_b : bool)
  : matmul :=
  {| self_block := self_block self; self_mode := mode;
     self_trans_a := trans_a; self_trans_b := trans_b;
     self_dense_inner_dim := self_dense_inner_dim self;
     self_dense_inner_size := self_dense_inner_size self;
     self_sparse_shape := self_sparse_shape self;
     self_layout := self_layout self; self_spdims := self_spdims self |}.

(** The context [forward] saves for a scheduler. *)
Definition context_of (self : matmul) (needs : bool * bool) : context :=
  {| ctx_mode := self_mode self; ctx_spdims := self_spdims self;
     ctx_block := self_block self; ctx_trans_a := self_trans_a self;
     ctx_trans_b := self_trans_b self; needs_input_grad := needs |}.

(** ** The rest of [_matmul.make_dxx_lut]: the look-up table *)

(** The cells of a rank-3 tensor in storage order, and in the order of
    [layout.transpose(1, 2)]: within a slice by rows, respectively by
    columns. Each cell is named by its indices in the tensor enumerated. *)
Definition cells_by_rows (nz nh nw : nat) : list (nat * nat * nat) :=
  z ← seq 0 nz; h ← seq 0 nh; w ← seq 0 nw; [(z, h, w)].

Definition cells_by_columns (nz nh nw : nat) : list (nat * nat * nat) :=
  z ← seq 0 nz; w ← seq 0 nw; h ← seq 0 nh; [(z, w, h)].

(** [layout.nonzero(as_tuple=False)] *)
Definition nonzero (layout : tensor) : list (nat * nat * nat) :=
  match shape layout with
  | [nz; nh; nw] =>
      filter (fun '(z, h, w) => at3 layout z h w <> 0) (cells_by_rows nz nh nw)
  | _ => []
  end.

(** [layout.transpose(1, 2).nonzero(as_tuple=False)] *)
Definition nonzero_transposed (layout : tensor) : list (nat * nat * nat) :=
  match shape layout with
  | [nz; nh; nw] =>
      filter (fun '(z, w, h) => at3 layout z h w <> 0) (cells_by_columns nz nh nw)
  | _ => []
  end.

(** [x = idx.clone(); x[1:] -= idx[:-1]] *)
Definition deltas (idx : list Z) : list Z :=
  zip_with Z.sub idx (0 :: idx).

(** [x.view(-1, 1).repeat(1, div)]: one row of [div] copies per entry; an
    empty tensor gives a matrix without rows. A negative repeat is
    refused. *)
Definition view_repeat (x : list Z) (div : Z) : res (list (list Z)) :=
  if div <? 0 then Raise RuntimeError
  else Ok (map (fun v => replicate (Z.to_nat div) v) x).

(** [x[:, 1:] = v] *)
Definition fill_tails (v : Z) (x : list (list Z)) : list (list Z) :=
  map (fun row => match row with
                  | [] => []
                  | first :: rest => first :: map (fun _ => v) rest
                  end) x.

(** [row[0] = f(row[0])]; a row without columns has no entry 0. *)
Definition on_first (f : Z -> Z) (row : list Z) : res (list Z) :=
  match row with
  | [] => Raise IndexError
  | first :: rest => Ok (f first :: rest)
  end.

(** [x[:, 0] -= v], row by row. *)
Fixpoint sub_firsts (v : Z) (x : list (list Z)) : res (list (list Z)) :=
  match x with
  | [] => Ok []
  | row :: rows =>
      do row' <- on_first (fun first => first - v) row;
      do rows' <- sub_firsts v rows;
      Ok (row' :: rows')
  end.

(** [x[:, 0] -= v] on a matrix of [ncols] columns: column 0 has to exist,
    also when the matrix has no rows. *)
Definition sub_first_column (ncols v : Z) (x : list (list Z))
  : res (list (list Z)) :=
  if ncols =? 0 then Raise IndexError else sub_firsts v x.

(** [t[mask]] for a boolean mask of the length of [t]. *)
Definition masked (t : list Z) (mask : list bool) : list Z :=
  map fst (filter (fun p => p.2 = true) (zip t mask)).

(** [t[sel]] for an index tensor [sel]. *)
Fixpoint gather (t : list Z) (sel : list Z) : res (list Z) :=
  match sel with
  | [] => Ok []
  | i :: sel' =>
      do v <- tuple_item t i;
      do vs <- gather t sel';
      Ok (v :: vs)
  end.

(** [x[sel, 0] = vals], one row after the other. *)
Fixpoint scatter_firsts (x : list (list Z)) (sel vals : list Z)
  : res (list (list Z)) :=
  match sel, vals with
  | i :: sel', v :: vals' =>
      do k <- item_index (length x) i;
      do row' <- on_first (fun _ => v) (default [] (x !! k));
      scatter_firsts (<[k := row']> x) sel' vals'
  | _, _ => Ok x
  end.

(** The number of positive cells of slice [z] that come before cell
    [(h, w)] in storage order: the value, less 1, that
    [layoutw[layoutw > 0] = 1 + torch.arange(msum)] gives that cell. *)
Definition block_rank (layout : tensor) (z h w : nat) : Z :=
  match shape layout with
  | [_; nh; nw] =>
      Z.of_nat (length (filter (fun '(h', w') => 0 < at3 layout z h' w')
                          (take (h * nw + w)%nat
                             (h' ← seq 0 nh; w' ← seq 0 nw; [(h', w')]))))
  | _ => 0
  end.

(** The positive cells of slice [z], by columns. *)
Definition positive_by_columns (layout : tensor) (z : nat) : list (nat * nat) :=
  match shape layout with
  | [_; nh; nw] =>
      filter (fun '(h, w) => 0 < at3 layout z h w)
             (w ← seq 0 nw; h ← seq 0 nh; [(h, w)])
  | _ => []
  end.

(** The loop that builds [widx] when [trans] is false. The masked
    assignment needs as many positive cells as [msum] counts. *)
Fixpoint widx_loop (layout : tensor) (zs : list nat) (widx : list Z)
  (current_offset : Z) : res (list Z) :=
  match zs with
  | [] => Ok widx
  | z :: zs' =>
      let msum := slice_total layout z in
      let positive := positive_by_columns layout z in
      if negb (Z.of_nat (length positive) =? msum) then Raise RuntimeError
      else
        widx_loop layout zs'
          (widx ++ map (fun '(h, w) => current_offset + (block_rank layout z h w + 1) - 1)
                       positive)
          (current_offset + msum)
  end.

(** [torch.stack((x, y), dim=1).view(-1)] for vectors: they have to have
    one length, and are interleaved. *)
Definition stack_pairs (x y : list Z) : res (list Z) :=
  if negb (length x =? length y)%nat then Raise RuntimeError
  else Ok (concat (zip_with (fun u v => [u; v]) x y)).

(** [t.type(torch.int32)] on 64-bit integers keeps the low 32 bits. *)
Definition wrap32 (v : Z) : Z := (v + 2 ^ 31) mod 2 ^ 32 - 2 ^ 31.

(** The six columns of the header, row by row:
    [torch.stack((offsets, segments, column, depth, lockid, maxid),
    dim=1).view(-1)]. The vectors have one length. *)
Fixpoint stack_header (offsets segments column depth lockid maxid : list Z)
  : list Z :=
  match offsets, segments, column, depth, lockid, maxid with
  | o :: os, s :: ss, c :: cs, d :: ds, l :: ls, m :: ms =>
      [o; s; c; d; l; m] ++ stack_header os ss cs ds ls ms
  | _, _, _, _, _, _ => []
  end.

(** [make_dxx_lut]: the table, [num_locks] and [width]; the fourth result
    is [None]. It starts with the loop over the depth slices,
    [make_dxx_lut_balance]. [step] is a positive int ([make_lut] passes
    16) and [transform] the hook applied to the dense offsets of the blocks
    (the identity by default). The layout is an int64 tensor on the CPU;
    the device the table is moved to is left out. *)
Definition make_dxx_lut (mem : nat -> heap) (layout : tensor) (block : Z)
  (step : positive) (trans : bool) (transform : list Z -> list Z)
  : res (list Z * Z * Z) :=
  let step := Z.pos step in
  do st <- make_dxx_lut_balance mem layout trans;
  let segments := map (fun s => s * step) (dxx_segments st) in
  (* pointer increments *)
  let nnz := if trans then nonzero layout else nonzero_transposed layout in
  let num_blocks := Z.of_nat (length nnz) in
  let offsets := map (fun o => Z.min o (num_blocks - 1)) (dxx_offsets st) in
  let idx := transform (map (fun cell => Z.of_nat cell.2 * block) nnz) in
  let xincs := deltas idx in
  (* divide block into multiple steps *)
  let div := block / step in
  do xincs <- view_repeat xincs div;
  let xincs := fill_tails step xincs in
  do xincs <- sub_first_column div ((div - 1) * step) xincs;
  (* first increment for each reduction is actually the offset *)
  let starts := masked offsets (map (fun s => 0 <? s) segments) in
  do first_x <- gather idx starts;
  do xincs <- scatter_firsts xincs starts first_x;
  let xincs := concat xincs in
  (* block-mode input increments *)
  do widx <-
    (if trans then Ok (seqZ 0 num_blocks)
     else match shape layout with
          | nz :: _ => widx_loop layout (seq 0 nz) [] 0
          | [] => Raise IndexError
          end);
  let wincs := deltas (map (fun i => i * block * block) widx) in
  do wincs <- view_repeat wincs div;
  do wincs <-
    (if trans
     then sub_first_column div ((div - 1) * step) (fill_tails step wincs)
     else sub_first_column div ((div - 1) * step * block)
            (fill_tails (step * block) wincs));
  do first_w <- gather widx starts;
  do wincs <- scatter_firsts wincs starts first_w;
  let wincs := concat wincs in
  (* adjust offset and segment size *)
  let offsets := map (fun o => o * (2 * div)) offsets in
  let segments := map (fun s => s * div) segments in
  (* create header *)
  let width := Z.of_nat (length (dxx_column st)) in
  let offsets := map (fun o => o + 6 * width) offsets in
  let header :=
    stack_header offsets segments (dxx_column st) (dxx_depth st)
                 (dxx_lockid st) (dxx_maxid st) in
  do incs <- stack_pairs xincs wincs;
  let incs := incs ++ [0; 0] in
  (* create lut *)
  let lut := map wrap32 (header ++ incs) in
  (* create locks *)
  do lockmax <- tmax (dxx_lockid st);
  Ok (lut, Z.max 1 lockmax, width).

(** ** [sdd_lut] and [matmul.make_lut] *)

(** [x // y] on Python ints. *)
Definition floordiv (x y : Z) : res Z :=
  if y =? 0 then Raise ZeroDivisionError else Ok (x / y).

(** What a builder returns: [luts, None, widths, packs] from [sdd_lut],
    each table of [luts] by its entries in storage order (its shape is
    [(-1, 4)]); [lut, num_locks, width, None] from [make_dxx_lut]. As in
    [make_dxx_lut], the device the tables are moved to is left out. *)
Inductive tables :=
  | sdd_tables (luts : list (list Z)) (widths packs : list Z)
  | dxx_tables (lut : list Z) (num_locks width : Z).

(** The twelve values [make_lut] stores under a key, four per builder. *)
Record cached_tables := {
  c_lut : tables;
  da_lut : tables;
  db_lut : tables
}.

Section Tables.

(** [libtriton.superblock], the compiled routine that groups the blocks
    of a layout into super-blocks. It is handed the int32 cells of the
    layout, the three sizes and the starting width; each pair it returns
    is a super-block size and an integer array, given by its entries. *)
Variable superblock :
  list Z -> nat -> nat -> nat -> Z -> res (list (Z * list Z)).

(** The loop of [sdd_lut] over the groups of super-blocks.
    [nnz.reshape(-1, 4)] needs a number of entries that 4 divides. *)
Fixpoint sdd_lut_loop (superblocks : list (Z * list Z))
  (luts : list (list Z)) (widths packs : list Z)
  : res (list (list Z) * list Z * list Z) :=
  match superblocks with
  | [] => Ok (luts, widths, packs)
  | (size, nnz) :: superblocks' =>
      let entries := Z.of_nat (length nnz) in
      if negb (entries mod 4 =? 0)
      then Raise (ValueError (msg_cannot_reshape entries))
      else
        do width <- floordiv (entries / 4) (size * size);
        sdd_lut_loop superblocks' (luts ++ [map wrap32 nnz])
                     (widths ++ [width]) (packs ++ [size])
  end.

Definition sdd_lut (layout : tensor) (block : Z) : res tables :=
  do start_width <- floordiv 128 block;
  let layout32 := map wrap32 (data layout) in
  do size0 <- tuple_item (shape layout) 0;
  do size1 <- tuple_item (shape layout) 1;
  do size2 <- tuple_item (shape layout) 2;
  do superblocks <- superblock layout32 size0 size1 size2 start_width;
  do built <- sdd_lut_loop superblocks [] [] [];
  Ok (sdd_tables built.1.1 built.1.2 built.2).

(** One call of a builder; [mem] is the uninitialised memory the call
    finds, and [transform] is left at its default. *)
Definition run_call (mem : nat -> heap) (call : lut_call) : res tables :=
  match call with
  | call_sdd_lut layout block dev => sdd_lut layout block
  | call_make_dxx_lut layout block step trans dev =>
      do built <- make_dxx_lut mem layout block step trans (fun idx => idx);
      Ok (dxx_tables built.1.1 built.1.2 built.2)
  end.

(** [make_lut]: the result of the call, a returned entry or an exception,
    and the dictionary [self.lut_cache] as the call leaves it. The three
    builders run in the order C, DA, DB, and an exception of one of them
    ends the call before anything is stored. With a mode other than the
    three the chains assign nothing and the store at the end finds
    [c_lut] unbound. [mem k] is the uninitialised memory builder [k]
    finds. *)
Definition make_lut (mem : nat -> nat -> heap) (self : matmul)
  (lut_cache : gmap (dtype * device) cached_tables)
  (dt : dtype) (dev : device)
  : res cached_tables * gmap (dtype * device) cached_tables :=
  let key := (dt, dev) in
  match lut_cache !! key with
  | Some entry => (Ok entry, lut_cache)
  | None =>
      match build_luts self dev with
      | None => (Raise UnboundLocalError, lut_cache)
      | Some calls =>
          let built :=
            do c <- run_call (mem 0%nat) (c_table calls);
            do da <- run_call (mem 1%nat) (da_table calls);
            do db <- run_call (mem 2%nat) (db_table calls);
            Ok {| c_lut := c; da_lut := da; db_lut := db |} in
          match built with
          | Ok entry => (Ok entry, <[key := entry]> lut_cache)
          | Raise e => (Raise e, lut_cache)
          end
      end
  end.

End Tables.

(** A scheduler over a layout with an empty depth slice, and one with
    blocks smaller than the step of the tables. *)
Definition empty_slice_scheduler : matmul :=
  {| self_block := 16; self_mode := "dsd"; self_trans_a := false;
     self_trans_b := false; self_dense_inner_dim := Some (-2);
     self_dense_inner_size := Some 32;
     self_sparse_shape := Some [2; 16; 16];
     self_layout := empty_slice_layout; self_spdims := [2; 2; 2]%nat |}.

Definition small_block_scheduler : matmul :=
  {| self_block := 8; self_mode := "dsd"; self_trans_a := false;
     self_trans_b := false; self_dense_inner_dim := Some (-2);
     self_dense_inner_size := Some 16;
     self_sparse_shape := Some [2; 8; 8];
     self_layout := {| shape := [1; 2; 2]%nat; data := [1; 0; 0; 1] |};
     self_spdims := [1; 2; 2]%nat |}.

(** A [superblock] that finds no group. *)
Definition no_superblocks
  : list Z -> nat -> nat -> nat -> Z -> res (list (Z * list Z)) :=
  fun _ _ _ _ _ => Ok [].

(** ** What a task of [_dsd_kernel] or [_dds_kernel] reads of the table *)

(** The number of iterations of [for k in range(AS1, 0, -TILE_K)], with
    [TILE_K] 16. *)
Definition kernel_steps (AS1 : Z) : Z := Z.max 0 ((AS1 + 15) / 16).

(** The positions of the table that task [pid0] loads: the four header
    fields it uses, the two entries at [pinc], and two more entries after
    each [pinc += 2]. A position outside the table stands for a load from
    foreign memory; the header fields are read as 0 there. *)
Definition task_reads (lut : list Z) (pid0 : Z) : list Z :=
  let header := pid0 * 6 in
  let offset := default 0 (lut !! Z.to_nat header) in
  let AS1 := default 0 (lut !! Z.to_nat (header + 1)) in
  [header; header + 1; header + 2; header + 3]
  ++ (j ← seqZ 0 (kernel_steps AS1 + 1); [offset + 2 * j + 1; offset + 2 * j]).

(** A layout of two depth slices with blocks of 32 and steps of 16. *)
Definition two_slices_lut : list Z :=
  [42; 32; 0; 0; 0; 0;  46; 0; 0; 0; 0; 0;  46; 32; 1; 0; 0; 0;
   50; 0; 1; 0; 0; 0;  50; 32; 0; 1; 0; 0;  54; 64; 1; 1; 0; 0;
   58; 0; 1; 1; 0; 0;
   0; 0; 16; 512; 32; 1; 16; 512; 0; 2; 16; 512; 0; 3; 16; 512;
   16; 512; 16; 512;  0; 0].

(** ** Vocabulary of the look-up table *)

(** A layout of 0s and 1s, as [make_dxx_lut] expects it. *)
Definition binary (layout : tensor) : Prop :=
  Forall (fun v => v = 0 \/ v = 1) (data layout).

(** A matrix of [n] rows of [d] columns. *)
Definition rectangular (n d : nat) (x : list (list Z)) : Prop :=
  length x = n /\ Forall (fun row => length row = d) x.

(** The layout has a depth slice, and every depth slice has a populated
    block. *)
Definition populated (layout : tensor) (trans : bool) : Prop :=
  match shape layout with
  | [nz; _; _] =>
      (0 < nz)%nat
      /\ forall z, (z < nz)%nat -> has_nonzero (slice_sizes layout trans z)
  | _ => False
  end.

(** The blocks in the order [make_dxx_lut] stores their increments. *)
Definition blocks_of (layout : tensor) (trans : bool) : list (nat * nat * nat) :=
  if trans then nonzero layout else nonzero_transposed layout.

(** The flattened matrix of increments built from the positions [t] of
    the blocks and their differences [dl], in rows of [d] entries: row [j]
    starts with the position of block [j] when a segment starts there, and
    with the difference to block [j - 1], less [subv], otherwise; its other
    entries are [tailv]. *)
Definition increments (d : nat) (t dl : list Z) (tailv subv : Z)
  (sel flat : list Z) : Prop :=
  forall (j : nat) (delta : Z),
    dl !! j = Some delta ->
    exists a,
      flat !! (j * d)%nat = Some a
      /\ (forall u, (1 <= u < d)%nat -> flat !! (j * d + u)%nat = Some tailv)
      /\ ((t !! j = Some a
           /\ exists i, i ∈ sel /\ item_index (length t) i = Ok j)
          \/ (a = delta - subv
              /\ forall i, i ∈ sel -> item_index (length t) i <> Ok j)).

(** A pointer that starts at [start] and is advanced by [inc m] at the end
    of iteration [m], counted from 1: its value after [i] iterations. *)
Fixpoint walk (start : Z) (inc : nat -> Z) (i : nat) : Z :=
  match i with
  | O => start
  | S i' => walk start inc i' + inc i
  end.

(** The position along the reduced dimension of the dense operand, in
    units of its stride, at which a task of [_dsd_kernel] or [_dds_kernel]
    loads after [i] iterations of its inner loop: the start loaded from
    [pinc] and the increments loaded after each [pinc += 2]. *)
Definition dense_position (lut : list Z) (pinc : Z) (i : nat) : Z :=
  walk (default 0 (lut !! Z.to_nat pinc))
       (fun m => default 0 (lut !! Z.to_nat (pinc + 2 * Z.of_nat m))) i.

(** The same for the sparse operand, in elements: the block index loaded
    from [pinc + 1], times [BLOCK * BLOCK], and the increments loaded from
    [pinc + 1] after each [pinc += 2]. *)
Definition sparse_position (lut : list Z) (block : Z) (pinc : Z) (i : nat) : Z :=
  walk (default 0 (lut !! Z.to_nat (pinc + 1)) * block * block)
       (fun m => default 0 (lut !! Z.to_nat (pinc + 2 * Z.of_nat m + 1))) i.

(** The number of blocks stored in the depth slices before slice [z]. *)
Definition blocks_before (layout : tensor) (z : nat) : Z :=
  tsum (map (slice_total layout) (seq 0 z)).

(** A layout of one depth slice whose blocks are stored in another order
    than they are reduced. *)
Definition corner_layout : tensor :=
  {| shape := [1; 2; 2]%nat; data := [1; 1; 1; 0] |}.

(** The schedule of [two_slices] when [trans] is false. *)
Definition two_slices_schedule : dxx_state :=
  {| dxx_segments := [1; 0; 1; 0; 1; 2; 0];
     dxx_column := [0; 0; 1; 1; 0; 1; 1];
     dxx_depth := [0; 0; 0; 0; 1; 1; 1];
     dxx_lockid := [0; 0; 0; 0; 0; 0; 0];
     dxx_maxid := [0; 0; 0; 0; 0; 0; 0];
     dxx_offsets := [0; 1; 1; 2; 2; 3; 5];
     current_offset := 5; current_maxid := 0 |}.

(** The segments that are not empty belong to a column of a depth slice
    before slice [a]: each has the length of its column and starts after
    the blocks of the slices and of the columns before it. *)
Definition spans (layout : tensor) (trans : bool) (a : nat) (st : dxx_state)
  : Prop :=
  forall (k : nat) (seg off col dep : Z),
    dxx_segments st !! k = Some seg -> dxx_offsets st !! k = Some off ->
    dxx_column st !! k = Some col -> dxx_depth st !! k = Some dep ->
    0 < seg ->
    exists z c : nat,
      (z < a)%nat /\ dep = Z.of_nat z /\ col = Z.of_nat c
      /\ slice_sizes layout trans z !! c = Some seg
      /\ off = blocks_before layout z
               + tsum (take c (slice_sizes layout trans z)).

(** * Properties *)

(** ** Facts about the tensor primitives *)

Section Primitives.

Implicit Types t done rest : list Z.

Lemma slice_bound_in (n k : nat) :
    (k <= n)%nat -> slice_bound n (Z.of_nat k) = k.
  Proof.
    intros Hk. unfold slice_bound.
    destruct (Z.ltb_spec (Z.of_nat k) 0); lia.
  Qed.

  (** Filling [k] cells that start where [done] ends. *)
Lemma slice_assign_app done rest (k : nat) (v : Z) :
    (k <= length rest)%nat ->
    slice_assign (done ++ rest) (Z.of_nat (length done))
                 (Z.of_nat (length done) + Z.of_nat k) v
    = done ++ replicate k v ++ drop k rest.
  Proof.
    intros Hk. unfold slice_assign. rewrite length_app.
    rewrite slice_bound_in by lia.
    replace (Z.of_nat (length done) + Z.of_nat k)
      with (Z.of_nat (length done + k)) by lia.
    rewrite slice_bound_in by lia.
    rewrite take_app_length.
    replace (length done + k - length done)%nat with k by lia.
    replace (Nat.max (length done) (length done + k))
      with (length done + k)%nat by lia.
    by rewrite drop_app_add.
  Qed.

Lemma item_index_in (n k : nat) :
    (k < n)%nat -> item_index n (Z.of_nat k) = Ok k.
  Proof.
    intros Hk. unfold item_index.
    destruct (Z.ltb_spec (Z.of_nat k) 0); [lia|].
    destruct (Z.leb_spec 0 (Z.of_nat k)); [|lia].
    destruct (Z.ltb_spec (Z.of_nat k) (Z.of_nat n)); [|lia].
    simpl. by rewrite Nat2Z.id.
  Qed.

Lemma item_set_app done rest (j : nat) (v : Z) :
    (j < length rest)%nat ->
    item_set (done ++ rest) (Z.of_nat (length done) + Z.of_nat j) v
    = Ok (done ++ <[j := v]> rest).
  Proof.
    intros Hj. unfold item_set.
    replace (Z.of_nat (length done) + Z.of_nat j)
      with (Z.of_nat (length done + j)) by lia.
    rewrite item_index_in by (rewrite length_app; lia).
    simpl. by rewrite insert_app_r.
  Qed.

Lemma item_add_app done rest (j : nat) (x v : Z) :
    rest !! j = Some x ->
    item_add (done ++ rest) (Z.of_nat (length done) + Z.of_nat j) v
    = Ok (done ++ <[j := x + v]> rest).
  Proof.
    intros Hj. unfold item_add.
    pose proof (lookup_lt_Some _ _ _ Hj) as Hlt.
    replace (Z.of_nat (length done) + Z.of_nat j)
      with (Z.of_nat (length done + j)) by lia.
    rewrite item_index_in by (rewrite length_app; lia).
    simpl. rewrite lookup_app_r by lia.
    replace (length done + j - length done)%nat with j by lia.
    rewrite Hj. simpl. by rewrite insert_app_r.
  Qed.

  (** The same facts with the index given up to equality, the form the
      loop body needs. *)
Lemma slice_assign_at done rest (a b : Z) (k : nat) (v : Z) :
    a = Z.of_nat (length done) -> b = a + Z.of_nat k ->
    (k <= length rest)%nat ->
    slice_assign (done ++ rest) a b v = done ++ replicate k v ++ drop k rest.
  Proof. intros -> -> Hk. by apply slice_assign_app. Qed.

Lemma item_set_at done rest (i : Z) (j : nat) (v : Z) :
    i = Z.of_nat (length done) + Z.of_nat j -> (j < length rest)%nat ->
    item_set (done ++ rest) i v = Ok (done ++ <[j := v]> rest).
  Proof. intros -> Hj. by apply item_set_app. Qed.

Lemma item_add_at done rest (i : Z) (j : nat) (x v : Z) :
    i = Z.of_nat (length done) + Z.of_nat j -> rest !! j = Some x ->
    item_add (done ++ rest) i v = Ok (done ++ <[j := x + v]> rest).
  Proof. intros -> Hj. by apply item_add_app. Qed.

Lemma tsum_app t1 t2 : tsum (t1 ++ t2) = tsum t1 + tsum t2.
  Proof. unfold tsum. induction t1 as [|x t1 IH]; simpl; lia. Qed.

Lemma foldl_max_ge (xs : list Z) (a : Z) :
    a <= foldl Z.max a xs /\ Forall (fun x => x <= foldl Z.max a xs) xs.
  Proof.
    revert a. induction xs as [|x xs IH]; intros a; simpl.
    - split; [lia | constructor].
    - destruct (IH (Z.max a x)) as [H1 H2]. split; [lia|].
      constructor; [lia | exact H2].
  Qed.

Lemma foldl_max_elem (xs : list Z) (a : Z) :
    foldl Z.max a xs = a \/ foldl Z.max a xs ∈ xs.
  Proof.
    revert a. induction xs as [|x xs IH]; intros a; simpl; [by left|].
    destruct (IH (Z.max a x)) as [H | H].
    - rewrite H. destruct (Z.max_spec a x) as [[_ ->] | [_ ->]].
      + right. apply list_elem_of_here.
      + by left.
    - right. by apply list_elem_of_further.
  Qed.

End Primitives.

Section LoadBalance.

Variables seg_max seg_min : Z.
Hypothesis seg_max_pos : 0 < seg_max.
Hypothesis seg_min_ge : 4 <= seg_min.

Local Abbreviation plan := (column_plan seg_max seg_min).

Lemma quotient_cases s :
    0 <= s <= seg_max ->
    (s < seg_max /\ s / seg_max = 0 /\ s mod seg_max = s)
    \/ (s = seg_max /\ s / seg_max = 1 /\ s mod seg_max = 0).
  Proof.
    intros Hs. destruct (Z.eq_dec s seg_max) as [-> | Hne].
    - right. rewrite Z.div_same, Z.mod_same by lia. done.
    - left. rewrite Z.div_small, Z.mod_small by lia. lia.
  Qed.

Lemma plan_length s :
    0 <= s <= seg_max ->
    s / seg_max + b2z (s <? seg_min) + b2z (seg_min <=? s mod seg_max)
    = Z.of_nat (length (plan s)).
  Proof.
    intros Hs. unfold column_plan.
    destruct (quotient_cases s Hs) as [(Hlt & -> & ->) | (-> & -> & ->)].
    - destruct (Z.ltb_spec s seg_max); [|lia].
      destruct (Z.ltb_spec s seg_min), (Z.leb_spec seg_min s); simpl; lia.
    - destruct (Z.ltb_spec seg_max seg_max); [lia|].
      destruct (Z.leb_spec seg_min 0); [lia|].
      destruct (Z.ltb_spec seg_max seg_min); simpl; lia.
  Qed.

Lemma plan_length_bounds s : (1 <= length (plan s) <= 2)%nat.
  Proof.
    unfold column_plan.
    destruct (s <? seg_max); [simpl; lia|].
    destruct (s <? seg_min); simpl; lia.
  Qed.

Lemma plan_sum s : 0 <= s <= seg_max -> tsum (plan s) = s.
  Proof.
    intros Hs. unfold column_plan.
    destruct (Z.ltb_spec s seg_max); [simpl; lia|].
    destruct (s <? seg_min); simpl; lia.
  Qed.

Lemma plan_le s x : 0 <= s <= seg_max -> x ∈ plan s -> 0 <= x <= seg_max.
  Proof.
    intros Hs. unfold column_plan.
    destruct (Z.ltb_spec s seg_max).
    - intros ->%list_elem_of_singleton. lia.
    - destruct (s <? seg_min).
      + rewrite !elem_of_cons, elem_of_nil. intros [-> | [-> | []]]; lia.
      + intros ->%list_elem_of_singleton. lia.
  Qed.

  (** The loop body on a state whose first [length ds] cells are final:
      it writes the plan of the column behind them and touches nothing
      else. *)
Lemma lb_body_plan s ds dc rs rc lk mx nl ci :
    0 <= s <= seg_max ->
    (length (plan s) <= length rs)%nat ->
    (length (plan s) <= length rc)%nat ->
    length dc = length ds ->
    lb_body seg_max seg_min s (s / seg_max) (s mod seg_max)
      {| st_segments := ds ++ rs; st_column := dc ++ rc; st_lockid := lk;
         st_maxid := mx; st_nlocks := nl;
         st_current := Z.of_nat (length ds); st_col_idx := ci |}
    = Ok {| st_segments := (ds ++ plan s) ++ drop (length (plan s)) rs;
            st_column := (dc ++ replicate (length (plan s)) ci)
                         ++ drop (length (plan s)) rc;
            st_lockid := lk; st_maxid := mx; st_nlocks := nl;
            st_current := Z.of_nat (length (ds ++ plan s));
            st_col_idx := ci + 1 |}.
  Proof.
    intros Hs Hrs Hrc Hdc. unfold lb_body, column_plan in *. simpl.
    destruct (quotient_cases s Hs) as [(Hlt & -> & ->) | (-> & -> & ->)].
    - (* a column shorter than seg_max: d = 0, r = s *)
      destruct (Z.ltb_spec s seg_max) as [_|]; [|lia].
      replace (1 <? 0) with false by done.
      replace (0 =? 1) with false by done. simpl in *.
      rewrite (slice_assign_at ds rs _ _ 0) by lia.
      rewrite (slice_assign_at dc rc _ _ 1)
        by (destruct (Z.ltb_spec s seg_min), (Z.leb_spec seg_min s);
            simpl; lia).
      destruct (Z.ltb_spec s seg_min), (Z.leb_spec seg_min s);
        try lia; simpl;
        rewrite (item_set_at ds rs _ 0) by lia; simpl;
        (destruct rs as [|x rs]; [simpl in *; lia|]); simpl;
        rewrite !drop_0, length_app, <- !app_assoc; simpl;
        do 2 f_equal; lia.
    - (* the longest column: d = 1, r = 0 *)
      destruct (Z.ltb_spec seg_max seg_max) as [|_]; [lia|].
      replace (1 <? 1) with false by done.
      replace (1 =? 1) with true by done.
      destruct (Z.leb_spec seg_min 0) as [|_]; [lia|].
      destruct (Z.ltb_spec 0 seg_min) as [_|]; [|lia].
      destruct (Z.ltb_spec seg_max seg_min) as [Hsmall | Hbig]; simpl in *.
      + (* shorter than seg_min: one more segment, of size 0 *)
        rewrite (slice_assign_at ds rs _ _ 1) by lia.
        rewrite (slice_assign_at dc rc _ _ 2) by lia. simpl.
        rewrite (item_set_at ds (seg_max :: drop 1 rs) _ 1)
          by (simpl; rewrite ?length_drop; lia).
        destruct rs as [|x [|y rs]]; simpl in *; try lia.
        rewrite !drop_0, length_app, <- !app_assoc; simpl.
        do 2 f_equal. lia.
      + rewrite (slice_assign_at ds rs _ _ 1) by lia.
        rewrite (slice_assign_at dc rc _ _ 1) by lia. simpl.
        rewrite (item_add_at ds (seg_max :: drop 1 rs) _ 0 seg_max)
          by (done || lia).
        simpl. rewrite length_app, <- !app_assoc, Z.add_0_r. simpl.
        do 2 f_equal. lia.
  Qed.

Lemma lb_loop_plan sizes : forall ds dc rs rc lk mx nl ci,
    Forall (fun s => 0 <= s <= seg_max) sizes ->
    length rs = length (all_plans seg_max seg_min sizes) ->
    length rc = length rs ->
    length dc = length ds ->
    lb_loop seg_max seg_min
      (map (fun s => (s, (s / seg_max, s mod seg_max))) sizes)
      {| st_segments := ds ++ rs; st_column := dc ++ rc; st_lockid := lk;
         st_maxid := mx; st_nlocks := nl;
         st_current := Z.of_nat (length ds); st_col_idx := ci |}
    = Ok {| st_segments := ds ++ all_plans seg_max seg_min sizes;
            st_column := dc ++ column_ids seg_max seg_min ci sizes;
            st_lockid := lk; st_maxid := mx; st_nlocks := nl;
            st_current :=
              Z.of_nat (length (ds ++ all_plans seg_max seg_min sizes));
            st_col_idx := ci + Z.of_nat (length sizes) |}.
  Proof.
    unfold all_plans.
    induction sizes as [|s sizes IH]; intros ds dc rs rc lk mx nl ci Hall Hrs Hrc Hdc.
    - simpl in *. destruct rs; [|done]. destruct rc; [|done].
      rewrite !app_nil_r, Z.add_0_r. done.
    - apply Forall_cons in Hall as [Hs Hall].
      simpl in Hrs. rewrite length_app in Hrs.
      cbn [map lb_loop].
      rewrite lb_body_plan by (done || lia). cbn [bind].
      rewrite IH; try done.
      + cbn [map concat column_ids length].
        rewrite <- !app_assoc. do 2 f_equal. lia.
      + rewrite length_drop. lia.
      + rewrite !length_drop. lia.
      + rewrite !length_app, length_replicate. lia.
  Qed.

End LoadBalance.

Lemma tmax_is_max sizes :
  sizes <> [] -> exists M, tmax sizes = Ok M /\ is_max M sizes.
Proof.
  destruct sizes as [|x xs]; [done|]. intros _. simpl.
  exists (foldl Z.max x xs). split; [done|].
  destruct (foldl_max_ge xs x) as [H1 H2].
  split.
  - destruct (foldl_max_elem xs x) as [-> | H].
    + apply list_elem_of_here.
    + by apply list_elem_of_further.
  - by constructor.
Qed.

Lemma is_max_unique M1 M2 sizes : is_max M1 sizes -> is_max M2 sizes -> M1 = M2.
Proof.
  intros [Hin1 Hle1] [Hin2 Hle2].
  rewrite Forall_forall in Hle1, Hle2.
  apply Hle2 in Hin1. apply Hle1 in Hin2. lia.
Qed.

Lemma zip_rows (f g : Z -> Z) (sizes : list Z) :
  zip sizes (zip (map f sizes) (map g sizes))
  = map (fun s => (s, (f s, g s))) sizes.
Proof. induction sizes as [|s sizes IH]; simpl; [done | by rewrite IH]. Qed.

Lemma seg_min_of_ge M : 4 <= seg_min_of M.
Proof. unfold seg_min_of. lia. Qed.

Lemma packs_width M sizes :
  0 < M -> Forall (fun s => 0 <= s <= M) sizes ->
  tsum (map (fun '(s, (d, r)) =>
               d + b2z (s <? seg_min_of M) + b2z (seg_min_of M <=? r))
            (map (fun s => (s, (s / M, s mod M))) sizes))
  = Z.of_nat (length (all_plans M (seg_min_of M) sizes)).
Proof.
  intros HM. unfold all_plans. induction 1 as [|s sizes Hs _ IH]; [done|].
  unfold tsum in *. cbn [map concat foldr]. rewrite IH, length_app.
  rewrite (plan_length M (seg_min_of M) HM (seg_min_of_ge M) s Hs). lia.
Qed.

Lemma load_balance_planned (mem : heap) (sizes : list Z) :
  Forall (fun s => 0 <= s) sizes ->
  Exists (fun s => s <> 0) sizes ->
  exists M, is_max M sizes /\ 0 < M /\
            load_balance mem sizes = Ok (planned M sizes).
Proof.
  intros Hnn Hnz.
  assert (sizes <> []) as Hne by (intros ->; by apply Exists_nil in Hnz).
  destruct (tmax_is_max sizes Hne) as (M & HM & Hmax).
  assert (0 < M) as Hpos.
  { apply Exists_exists in Hnz as (s & Hin & Hs).
    destruct Hmax as [_ Hle]. rewrite Forall_forall in Hle, Hnn.
    specialize (Hle s Hin). specialize (Hnn s Hin). lia. }
  exists M. split; [done|]. split; [done|].
  assert (Forall (fun s => 0 <= s <= M) sizes) as Hrange.
  { destruct Hmax as [_ Hle]. rewrite Forall_forall in *.
    intros s Hin. split; auto. }
  unfold load_balance. rewrite HM. cbn [bind].
  destruct (filter (fun s => s <> 0) sizes) as [|y ys] eqn:Hf.
  { apply Exists_exists in Hnz as (s & Hin & Hs).
    assert (s ∈ filter (fun s => s <> 0) sizes) as Hin'
      by (apply list_elem_of_filter; done).
    rewrite Hf in Hin'. by apply elem_of_nil in Hin'. }
  cbn [tmin bind]. unfold tfloordiv, tmod.
  destruct (Z.eqb_spec M 0) as [|_]; [lia|]. cbn [bind].
  rewrite zip_rows. fold (seg_min_of M).
  rewrite (packs_width M sizes Hpos Hrange).
  unfold torch_empty.
  destruct (Z.ltb_spec (Z.of_nat (length (all_plans M (seg_min_of M) sizes))) 0)
    as [|_]; [lia|].
  cbn [bind]. rewrite Nat2Z.id.
  set (n := length (all_plans M (seg_min_of M) sizes)).
  pose proof (lb_loop_plan M (seg_min_of M) Hpos (seg_min_of_ge M) sizes
                [] [] (map (mem 0%nat) (seq 0 n)) (map (mem 1%nat) (seq 0 n))
                (zeros_like (map (mem 0%nat) (seq 0 n)))
                (zeros_like (map (mem 0%nat) (seq 0 n))) 0 0 Hrange) as Hloop.
  cbn [app length] in Hloop. change (Z.of_nat 0) with 0 in Hloop.
  rewrite Hloop.
  - cbn [bind st_segments st_column st_lockid st_maxid]. unfold planned.
    unfold zeros_like. rewrite length_map, length_seq. done.
  - rewrite length_map, length_seq. done.
  - rewrite !length_map, !length_seq. done.
  - done.
Qed.

Section Rows.

Variables seg_max seg_min : Z.

Local Abbreviation plan := (column_plan seg_max seg_min).

Lemma zip_plan_block (j : Z) (xs : list Z) :
    zip (replicate (length xs) j) (zip xs (replicate (length xs) 0))
    = map (fun x => (j, (x, 0))) xs.
  Proof. induction xs as [|x xs IH]; simpl; [done | by rewrite IH]. Qed.

Lemma rows_plan_rows sizes : forall j,
    zip (column_ids seg_max seg_min j sizes)
        (zip (all_plans seg_max seg_min sizes)
             (replicate (length (all_plans seg_max seg_min sizes)) 0))
    = plan_rows seg_max seg_min j sizes.
  Proof.
    unfold all_plans. induction sizes as [|s sizes IH]; intros j; [done|].
    cbn [map concat column_ids plan_rows]. fold plan_rows.
    rewrite length_app, replicate_add.
    rewrite (zip_with_app pair (plan s)) by (by rewrite length_replicate).
    rewrite zip_with_app
      by (rewrite length_zip_with, !length_replicate; lia).
    by rewrite zip_plan_block, IH.
  Qed.

Lemma plan_rows_ids sizes : forall j row,
    row ∈ plan_rows seg_max seg_min j sizes -> j <= row.1.
  Proof.
    induction sizes as [|s sizes IH]; intros j row; simpl.
    - by intros ?%elem_of_nil.
    - rewrite elem_of_app. intros [Hin | Hin].
      + apply list_elem_of_fmap in Hin as (x & -> & _). simpl. lia.
      + apply IH in Hin. lia.
  Qed.

Lemma filter_none {A} (P : A -> Prop) `{forall x, Decision (P x)} (l : list A) :
    (forall x, x ∈ l -> ~ P x) -> filter P l = [].
  Proof.
    induction l as [|x l IH]; intros Hno; [done|].
    rewrite filter_cons_False by (apply Hno, list_elem_of_here).
    apply IH. intros y Hy. by apply Hno, list_elem_of_further.
  Qed.

Lemma filter_all {A} (P : A -> Prop) `{forall x, Decision (P x)} (l : list A) :
    (forall x, x ∈ l -> P x) -> filter P l = l.
  Proof.
    induction l as [|x l IH]; intros Hall; [done|].
    rewrite filter_cons_True by (apply Hall, list_elem_of_here).
    f_equal. apply IH. intros y Hy. by apply Hall, list_elem_of_further.
  Qed.

  (** The rows of column [j + i] are exactly the plan of [sizes !! i]. *)
Lemma plan_rows_select sizes : forall (j : Z) (i : nat) (s : Z),
    sizes !! i = Some s ->
    map snd (filter (fun row => row.1 = j + Z.of_nat i) (plan_rows seg_max seg_min j sizes))
    = map (fun x => (x, 0)) (plan s).
  Proof.
    induction sizes as [|s0 sizes IH]; intros j i s Hi; [done|].
    cbn [plan_rows]. rewrite filter_app, map_app.
    destruct i as [|i]; simpl in Hi.
    - injection Hi as ->. rewrite Z.add_0_r.
      rewrite filter_all.
      2:{ intros row (x & -> & _)%list_elem_of_fmap. done. }
      rewrite (filter_none _ (plan_rows seg_max seg_min (j + 1) sizes)).
      2:{ intros row Hin%plan_rows_ids. lia. }
      rewrite app_nil_r, map_map. done.
    - rewrite filter_none.
      2:{ intros row (x & -> & _)%list_elem_of_fmap. simpl. lia. }
      simpl. rewrite <- (IH (j + 1) i s Hi).
      do 2 f_equal. apply list_filter_iff. intros row. lia.
  Qed.

Lemma column_ids_length sizes : forall j,
    length (column_ids seg_max seg_min j sizes)
    = length (all_plans seg_max seg_min sizes).
  Proof.
    unfold all_plans. induction sizes as [|s sizes IH]; intros j; [done|].
    cbn [map concat column_ids].
    by rewrite !length_app, length_replicate, IH.
  Qed.

End Rows.

Lemma planned_column_rows M sizes (i : nat) (s : Z) :
  sizes !! i = Some s ->
  column_rows (planned M sizes) (Z.of_nat i)
  = map (fun x => (x, 0)) (column_plan M (seg_min_of M) s).
Proof.
  intros Hi. unfold column_rows, rows, planned. cbn [column segments lockid].
  rewrite rows_plan_rows.
  by rewrite <- (plan_rows_select M (seg_min_of M) sizes 0 i s Hi).
Qed.

Lemma cumsum_from_length acc t : length (cumsum_from acc t) = length t.
Proof. revert acc. induction t as [|x t IH]; intros acc; simpl; [done | by rewrite IH]. Qed.

Lemma lb_offsets_length segs : length (lb_offsets segs) = length segs.
Proof.
  destruct segs as [|x segs]; [done|].
  unfold lb_offsets, cumsum. cbn [length]. rewrite cumsum_from_length.
  f_equal. clear. revert x. induction segs as [|y segs IH]; intros x; [done|].
  change (removelast (x :: y :: segs)) with (x :: removelast (y :: segs)).
  cbn [length]. by rewrite IH.
Qed.

Lemma planned_common_length M sizes :
  common_length (planned M sizes) (length (segments (planned M sizes))).
Proof.
  unfold common_length, planned. cbn [segments column lockid maxid offsets].
  rewrite column_ids_length, !length_replicate, lb_offsets_length. done.
Qed.

Lemma all_plans_sum M sm sizes :
  Forall (fun s => 0 <= s <= M) sizes -> tsum (all_plans M sm sizes) = tsum sizes.
Proof.
  unfold all_plans. induction 1 as [|s sizes Hs _ IH]; [done|].
  cbn [map concat]. rewrite tsum_app, IH, plan_sum by done. done.
Qed.

Lemma all_plans_le M sm sizes :
  0 < M ->
  Forall (fun s => 0 <= s <= M) sizes ->
  Forall (fun x => 0 <= x <= M) (all_plans M sm sizes).
Proof.
  intros HM. unfold all_plans. induction 1 as [|s sizes Hs _ IH]; [constructor|].
  cbn [map concat]. apply Forall_app. split; [|done].
  apply Forall_forall. intros x Hx. by apply (plan_le M sm HM s).
Qed.

Lemma all_plans_count M sm sizes :
  0 < M ->
  (length sizes <= length (all_plans M sm sizes)
   /\ length (all_plans M sm sizes) <= 2 * count_nonzero sizes + count_zero sizes)%nat.
Proof.
  intros HM. unfold all_plans, count_nonzero, count_zero.
  induction sizes as [|s sizes IH]; [simpl; lia|].
  cbn [map concat]. rewrite length_app. cbn [length].
  pose proof (plan_length_bounds M sm s) as Hb.
  rewrite !filter_cons. destruct (decide (s = 0)) as [-> | Hs].
  - destruct (decide (0 <> 0)) as [|_]; [done|].
    assert (length (column_plan M sm 0) = 1%nat) as ->.
    { unfold column_plan. destruct (Z.ltb_spec 0 M); [done | lia]. }
    cbn [length]. lia.
  - destruct (decide (s <> 0)) as [_|]; [|done]. cbn [length]. lia.
Qed.

Lemma count_split sizes : (count_nonzero sizes + count_zero sizes = length sizes)%nat.
Proof.
  unfold count_nonzero, count_zero. induction sizes as [|s sizes IH]; [done|].
  rewrite !filter_cons.
  destruct (decide (s <> 0)), (decide (s = 0)); cbn [length]; lia.
Qed.

Lemma in_range_of_max M sizes :
  is_max M sizes -> Forall (fun s => 0 <= s) sizes ->
  Forall (fun s => 0 <= s <= M) sizes.
Proof.
  intros [_ Hle] Hnn. rewrite Forall_forall in *. intros s Hin. split; auto.
Qed.

(** C1: on non-negative reduction lengths with a nonzero entry,
    [load_balance] returns segments whose sizes add up to the sum of
    [sizes], and no segment is larger than [max(sizes)]. *)
Theorem load_balance_conserves_work (mem : heap) (sizes : list Z) :
  reduction_lengths sizes ->
  has_nonzero sizes ->
  exists r M,
    load_balance mem sizes = Ok r /\ is_max M sizes
    /\ tsum (segments r) = tsum sizes
    /\ Forall (fun x => x <= M) (segments r).
Proof.
  intros Hnn Hnz.
  destruct (load_balance_planned mem sizes Hnn Hnz) as (M & Hmax & Hpos & Hr).
  exists (planned M sizes), M. split; [done|]. split; [done|].
  pose proof (in_range_of_max M sizes Hmax Hnn) as Hrange.
  cbn [planned segments]. split.
  - by apply all_plans_sum.
  - eapply Forall_impl; [by apply all_plans_le|]. simpl. lia.
Qed.

Lemma load_balance_conserves_work_witness :
  exists r M,
    load_balance zero_heap [9; 9; 1] = Ok r /\ is_max M [9; 9; 1]
    /\ tsum (segments r) = tsum [9; 9; 1]
    /\ Forall (fun x => x <= M) (segments r).
Proof.
  apply load_balance_conserves_work.
  - unfold reduction_lengths. repeat constructor; lia.
  - apply Exists_cons_hd. lia.
Defined.

(** C2, as stated, fails in both halves. With [sizes = [8]] the only
    column has [sizes[0] = 8 >= 2 * seg_min = 8], yet it is scheduled as one
    segment with lock id 0. With [sizes = [1]] the only column has
    [sizes[0] = 1 < seg_min = 4], yet it is scheduled as two segments. *)
Lemma long_column_not_split :
  (exists r,
      load_balance zero_heap [8] = Ok r /\ is_max 8 [8]
      /\ 2 * seg_min_of 8 <= 8
      /\ ~ split_and_locked (column_rows r 0))
  /\ (exists r,
        load_balance zero_heap [1] = Ok r /\ is_max 1 [1]
        /\ 1 < seg_min_of 1
        /\ ~ single_unlocked (column_rows r 0)).
Proof.
  split.
  - exists {| segments := [8]; column := [0]; lockid := [0]; maxid := [0];
              offsets := [0] |}.
    split; [by vm_compute|]. split.
    + split; [apply list_elem_of_here | repeat constructor; lia].
    + split; [vm_compute; discriminate|].
      intros [Hlen _]. vm_compute in Hlen. lia.
  - exists {| segments := [1; 0]; column := [0; 0]; lockid := [0; 0];
              maxid := [0; 0]; offsets := [0; 1] |}.
    split; [by vm_compute|]. split.
    + split; [apply list_elem_of_here | repeat constructor; lia].
    + split; [by vm_compute|].
      intros [x Hx]. vm_compute in Hx. discriminate.
Qed.

(** C2, amended: every column with [sizes[i] >= seg_min], and every column
    with [sizes[i] < max(sizes)], is scheduled as exactly one segment, of
    size [sizes[i]], with lock id 0. *)
Theorem load_balance_never_splits (mem : heap) (sizes : list Z) :
  reduction_lengths sizes ->
  has_nonzero sizes ->
  exists r M,
    load_balance mem sizes = Ok r /\ is_max M sizes
    /\ forall (i : nat) (s : Z),
         sizes !! i = Some s ->
         seg_min_of M <= s \/ s < M ->
         column_rows r (Z.of_nat i) = [(s, 0)]
         /\ single_unlocked (column_rows r (Z.of_nat i))
         /\ ~ split_and_locked (column_rows r (Z.of_nat i)).
Proof.
  intros Hnn Hnz.
  destruct (load_balance_planned mem sizes Hnn Hnz) as (M & Hmax & Hpos & Hr).
  exists (planned M sizes), M. split; [done|]. split; [done|].
  intros i s Hi Hcase.
  assert (s <= M) as HsM.
  { destruct Hmax as [_ Hle]. rewrite Forall_forall in Hle.
    apply Hle. by eapply list_elem_of_lookup_2. }
  assert (column_rows (planned M sizes) (Z.of_nat i) = [(s, 0)]) as Hrows.
  { rewrite (planned_column_rows M sizes i s Hi). unfold column_plan.
    destruct (Z.ltb_spec s M); [done|].
    destruct (Z.ltb_spec s (seg_min_of M)); [lia|].
    by replace s with M by lia. }
  rewrite Hrows. split; [done|]. split.
  - by exists s.
  - intros [Hlen _]. simpl in Hlen. lia.
Qed.

Lemma load_balance_never_splits_witness :
  exists r M,
    load_balance zero_heap [16; 8; 3; 0] = Ok r /\ is_max M [16; 8; 3; 0]
    /\ forall (i : nat) (s : Z),
         [16; 8; 3; 0] !! i = Some s ->
         seg_min_of M <= s \/ s < M ->
         column_rows r (Z.of_nat i) = [(s, 0)]
         /\ single_unlocked (column_rows r (Z.of_nat i))
         /\ ~ split_and_locked (column_rows r (Z.of_nat i)).
Proof.
  apply load_balance_never_splits.
  - unfold reduction_lengths. repeat constructor; lia.
  - apply Exists_cons_hd. lia.
Defined.

(** The spec's scenario: [sizes = [9, 9, 1]] gives three segments and no
    lock. *)
Example scenario_9_9_1 :
  load_balance zero_heap [9; 9; 1]
  = Ok {| segments := [9; 9; 1]; column := [0; 1; 2]; lockid := [0; 0; 0];
          maxid := [0; 0; 0]; offsets := [0; 9; 18] |}.
Proof. reflexivity. Qed.

(** When the longest column is shorter than [seg_min] it owns two
    segments, the second of size 0. *)
Example short_longest_column :
  exists r, load_balance zero_heap [1] = Ok r
            /\ column_rows r 0 = [(1, 0); (0, 0)].
Proof.
  exists {| segments := [1; 0]; column := [0; 0]; lockid := [0; 0];
            maxid := [0; 0]; offsets := [0; 1] |}.
  split; by vm_compute.
Qed.

(** C4, as stated, fails: [sizes = [5, 0, 0, 0, 0]] has one nonzero entry
    and five segments are emitted, one per column. *)
Lemma zero_columns_exceed_4x :
  exists r,
    load_balance zero_heap [5; 0; 0; 0; 0] = Ok r
    /\ count_nonzero [5; 0; 0; 0; 0] = 1%nat
    /\ ~ (length (segments r) <= 4 * count_nonzero [5; 0; 0; 0; 0]%Z)%nat.
Proof.
  exists {| segments := [5; 0; 0; 0; 0]; column := [0; 1; 2; 3; 4];
            lockid := [0; 0; 0; 0; 0]; maxid := [0; 0; 0; 0; 0];
            offsets := [0; 5; 5; 5; 5] |}.
  split; [by vm_compute|]. split; [by vm_compute|].
  vm_compute. lia.
Qed.

(** C4, amended: the number of segments, which is the common length of the
    five output vectors, is at most four times the number of nonzero
    entries plus one segment for each zero entry. *)
Theorem segment_count_bound (mem : heap) (sizes : list Z) :
  reduction_lengths sizes ->
  has_nonzero sizes ->
  exists r,
    load_balance mem sizes = Ok r
    /\ common_length r (length (segments r))
    /\ (length (segments r) <= 4 * count_nonzero sizes + count_zero sizes)%nat.
Proof.
  intros Hnn Hnz.
  destruct (load_balance_planned mem sizes Hnn Hnz) as (M & Hmax & Hpos & Hr).
  exists (planned M sizes). split; [done|].
  split; [apply planned_common_length|].
  cbn [planned segments].
  pose proof (all_plans_count M (seg_min_of M) sizes Hpos). lia.
Qed.

Lemma segment_count_bound_witness :
  exists r,
    load_balance zero_heap [5; 0; 0; 0; 0] = Ok r
    /\ common_length r (length (segments r))
    /\ (length (segments r)
        <= 4 * count_nonzero [5; 0; 0; 0; 0]%Z + count_zero [5; 0; 0; 0; 0]%Z)%nat.
Proof.
  apply segment_count_bound.
  - unfold reduction_lengths. repeat constructor; lia.
  - apply Exists_cons_hd. lia.
Defined.

(** C5, as stated, fails: on [sizes = [0, 0, 0]] the call does not return
    an empty schedule, it raises. *)
Lemma all_zero_not_a_noop :
  ~ exists r, load_balance zero_heap [0; 0; 0] = Ok r /\ segments r = [].
Proof. intros (r & Hr & _). vm_compute in Hr. discriminate. Qed.

(** C5, amended: when every entry of [sizes] is zero, [load_balance]
    raises a [RuntimeError] (from [sizes.max()] on an empty vector, else
    from the minimum over the empty selection [sizes[sizes != 0]]) and
    returns nothing. *)
Theorem load_balance_all_zero_raises (mem : heap) (sizes : list Z) :
  Forall (fun s => s = 0) sizes ->
  load_balance mem sizes = Raise RuntimeError.
Proof.
  intros Hz. unfold load_balance.
  destruct sizes as [|x xs]; [done|]. cbn [tmax bind].
  rewrite (filter_none (fun s => s <> 0) (x :: xs)).
  - done.
  - rewrite Forall_forall in Hz. intros y Hy Hne. by apply Hne, Hz.
Qed.

Lemma load_balance_all_zero_raises_witness :
  load_balance zero_heap [0; 0] = Raise RuntimeError.
Proof.
  apply load_balance_all_zero_raises. repeat constructor.
Defined.

(** C10: every column owns one or two segments, its quotient by
    [seg_max = max(sizes)] being at most 1; a column of length 0 owns
    exactly one segment, of size 0 and lock id 0; so the segment count lies
    between [len(sizes)] and [2 * len(sizes)]. *)
Theorem one_or_two_segments_per_column (mem : heap) (sizes : list Z) :
  reduction_lengths sizes ->
  has_nonzero sizes ->
  exists r M,
    load_balance mem sizes = Ok r /\ is_max M sizes
    /\ (forall (i : nat) (s : Z),
          sizes !! i = Some s ->
          s / M <= 1
          /\ (1 <= length (column_rows r (Z.of_nat i)) <= 2)%nat
          /\ (s = 0 -> column_rows r (Z.of_nat i) = [(0, 0)]))
    /\ (length sizes <= length (segments r) <= 2 * length sizes)%nat.
Proof.
  intros Hnn Hnz.
  destruct (load_balance_planned mem sizes Hnn Hnz) as (M & Hmax & Hpos & Hr).
  exists (planned M sizes), M. split; [done|]. split; [done|].
  pose proof (in_range_of_max M sizes Hmax Hnn) as Hrange.
  split.
  - intros i s Hi.
    assert (0 <= s <= M) as Hs.
    { rewrite Forall_forall in Hrange. apply Hrange.
      by eapply list_elem_of_lookup_2. }
    rewrite (planned_column_rows M sizes i s Hi), length_map.
    split; [|split].
    + destruct (quotient_cases M Hpos s Hs) as [(_ & -> & _) | (_ & -> & _)]; lia.
    + apply plan_length_bounds.
    + intros ->. unfold column_plan. destruct (Z.ltb_spec 0 M); [done | lia].
  - cbn [planned segments].
    pose proof (all_plans_count M (seg_min_of M) sizes Hpos).
    pose proof (count_split sizes). lia.
Qed.

Lemma one_or_two_segments_per_column_witness :
  exists r M,
    load_balance zero_heap [1; 0; 3] = Ok r /\ is_max M [1; 0; 3]
    /\ (forall (i : nat) (s : Z),
          [1; 0; 3] !! i = Some s ->
          s / M <= 1
          /\ (1 <= length (column_rows r (Z.of_nat i)) <= 2)%nat
          /\ (s = 0 -> column_rows r (Z.of_nat i) = [(0, 0)]))
    /\ (length [1; 0; 3]%Z <= length (segments r) <= 2 * length [1; 0; 3]%Z)%nat.
Proof.
  apply one_or_two_segments_per_column.
  - unfold reduction_lengths. repeat constructor; lia.
  - apply Exists_cons_hd. lia.
Defined.

(** ** Lock ids across depth slices *)

Lemma load_balance_ok_nonzero (mem : heap) (sizes : list Z) (r : balanced) :
  load_balance mem sizes = Ok r -> Exists (fun s => s <> 0) sizes.
Proof.
  intros Hr. destruct (decide (Exists (fun s => s <> 0) sizes)) as [|Hno]; [done|].
  exfalso. unfold load_balance in Hr.
  destruct sizes as [|x xs]; [done|]. cbn [tmax bind] in Hr.
  rewrite (filter_none (fun s => s <> 0) (x :: xs)) in Hr; [done|].
  intros y Hy Hne. apply Hno. apply Exists_exists. by exists y.
Qed.

(** On non-negative lengths a returned schedule carries no lock. *)
Lemma load_balance_ok_unlocked (mem : heap) (sizes : list Z) (r : balanced) :
  Forall (fun s => 0 <= s) sizes ->
  load_balance mem sizes = Ok r ->
  lockid r <> [] /\ Forall (fun l => l = 0) (lockid r)
  /\ length (lockid r) = length (segments r).
Proof.
  intros Hnn Hr.
  pose proof (load_balance_ok_nonzero mem sizes r Hr) as Hnz.
  destruct (load_balance_planned mem sizes Hnn Hnz) as (M & Hmax & Hpos & Hp).
  rewrite Hp in Hr. injection Hr as <-. cbn [planned lockid segments].
  pose proof (all_plans_count M (seg_min_of M) sizes Hpos) as [Hlen _].
  assert (sizes <> []) as Hne by (intros ->; by apply Exists_nil in Hnz).
  split; [|split].
  - destruct sizes; [done|]. simpl in Hlen.
    destruct (all_plans M (seg_min_of M) (z :: sizes)); [simpl in Hlen; lia | done].
  - apply Forall_replicate. done.
  - by rewrite length_replicate.
Qed.

Lemma tsum_nonneg (t : list Z) : Forall (fun x => 0 <= x) t -> 0 <= tsum t.
Proof. unfold tsum. induction 1; simpl; lia. Qed.

Lemma at3_nonneg (layout : tensor) z h w :
  Forall (fun x => 0 <= x) (data layout) -> 0 <= at3 layout z h w.
Proof.
  intros Hnn. unfold at3. destruct (shape layout) as [|? [|? [|? [|]]]]; try lia.
  destruct (data layout !! _) as [x|] eqn:Hx; simpl; [|lia].
  rewrite Forall_forall in Hnn. apply Hnn. by eapply list_elem_of_lookup_2.
Qed.

Lemma slice_sizes_nonneg (layout : tensor) (trans : bool) z :
  Forall (fun x => 0 <= x) (data layout) ->
  Forall (fun s => 0 <= s)
    (if trans then sum_axis1 layout z else sum_axis0 layout z).
Proof.
  intros Hnn. unfold sum_axis1, sum_axis0.
  destruct trans; destruct (shape layout) as [|? [|? [|? [|]]]];
    try constructor; apply Forall_forall; intros s (i & -> & _)%list_elem_of_fmap;
    apply tsum_nonneg, Forall_forall; intros x (j & -> & _)%list_elem_of_fmap;
    by apply at3_nonneg.
Qed.

Lemma shift_locks_zero (cm : Z) (locks : list Z) :
  Forall (fun l => l = 0) locks -> shift_locks cm locks = locks.
Proof.
  unfold shift_locks. induction 1 as [|l locks -> _ IH]; [done|].
  simpl. by rewrite IH.
Qed.

Lemma tmax_zeros (locks : list Z) :
  locks <> [] -> Forall (fun l => l = 0) locks -> tmax locks = Ok 0.
Proof.
  destruct locks as [|l locks]; [done|]. intros _ Hz.
  apply Forall_cons in Hz as [-> Hz]. simpl. f_equal.
  induction Hz as [|x xs -> _ IH]; [done|]. simpl. exact IH.
Qed.

(** One slice keeps the invariant: every lock id issued is 0 and the
    running maximum is 0. *)
Lemma dxx_slice_unlocked mem layout trans z st st' :
  Forall (fun x => 0 <= x) (data layout) ->
  Forall (fun l => l = 0) (dxx_lockid st) ->
  dxx_slice mem layout trans z st = Ok st' ->
  Forall (fun l => l = 0) (dxx_lockid st') /\ current_maxid st' = 0
  /\ dxx_lockid st' <> [].
Proof.
  intros Hnn Hz Hrun. unfold dxx_slice in Hrun.
  destruct (load_balance mem _) as [lb|e] eqn:Hlb; [|done].
  cbn [bind] in Hrun.
  destruct (load_balance_ok_unlocked _ _ _ (slice_sizes_nonneg layout trans z Hnn) Hlb)
    as (Hne & Hlz & _).
  rewrite (shift_locks_zero _ _ Hlz) in Hrun.
  rewrite (tmax_zeros _ Hne Hlz) in Hrun. cbn [bind] in Hrun.
  injection Hrun as <-. cbn [dxx_lockid current_maxid].
  split; [by apply Forall_app | split; [done|]].
  destruct (dxx_lockid st), (lockid lb); done.
Qed.

Lemma dxx_loop_unlocked mem layout trans zs : forall st st',
  Forall (fun x => 0 <= x) (data layout) ->
  Forall (fun l => l = 0) (dxx_lockid st) -> current_maxid st = 0 ->
  dxx_loop mem layout trans zs st = Ok st' ->
  Forall (fun l => l = 0) (dxx_lockid st') /\ current_maxid st' = 0.
Proof.
  induction zs as [|z zs IH]; intros st st' Hnn Hz Hcm Hrun; simpl in Hrun.
  - by injection Hrun as <-.
  - destruct (dxx_slice (mem z) layout trans z st) as [st1|e] eqn:H1; [|done].
    cbn [bind] in Hrun.
    destruct (dxx_slice_unlocked _ _ _ _ _ _ Hnn Hz H1) as (Hz1 & Hcm1 & _).
    by apply (IH st1 st').
Qed.


(** The loop returns when every depth slice has a populated block along
    the reduced axis. *)
Lemma make_dxx_lut_balance_returns (mem : nat -> heap) (layout : tensor)
  (trans : bool) (nz nh nw : nat) :
  shape layout = [nz; nh; nw] ->
  Forall (fun x => 0 <= x) (data layout) ->
  (forall z, (z < nz)%nat ->
             has_nonzero (if trans then sum_axis1 layout z else sum_axis0 layout z)) ->
  exists st, make_dxx_lut_balance mem layout trans = Ok st.
Proof.
  intros Hshape Hnn Hpop. unfold make_dxx_lut_balance. rewrite Hshape.
  assert (forall zs st, Forall (fun z => (z < nz)%nat) zs ->
                        exists st', dxx_loop mem layout trans zs st = Ok st') as Hloop.
  { induction zs as [|z zs IH]; intros st Hzs; [by eexists|].
    apply Forall_cons in Hzs as [Hz Hzs]. cbn [dxx_loop]. unfold dxx_slice.
    destruct (load_balance_planned (mem z) _
                (slice_sizes_nonneg layout trans z Hnn) (Hpop z Hz))
      as (M & _ & _ & Hlb).
    rewrite Hlb. cbn [bind].
    destruct (load_balance_ok_unlocked _ _ _
                (slice_sizes_nonneg layout trans z Hnn) Hlb) as (Hne & Hlz & _).
    rewrite (shift_locks_zero _ _ Hlz), (tmax_zeros _ Hne Hlz). cbn [bind].
    apply IH, Hzs. }
  apply Hloop. apply Forall_forall. intros z Hz%elem_of_seq. lia.
Qed.

(** With no lock issued, [num_locks] is 1. *)
Lemma num_locks_one (st : dxx_state) :
  dxx_lockid st <> [] -> Forall (fun l => l = 0) (dxx_lockid st) ->
  num_locks st = Ok 1.
Proof. intros Hne Hz. unfold num_locks. by rewrite (tmax_zeros _ Hne Hz). Qed.














(** ** Gradient dispatch *)

(** C6: for each of the modes sdd, dsd and dds and all transpose flags,
    [backward] computes [da] by the launcher that [fn] holds for
    [mode[1] + mode[0] + mode[2]], on [(dc, b)] with flags
    [(False, not trans_b)] and output flag [trans_a], and [db] by the
    launcher for [mode[2] + mode[1] + mode[0]], on [(a, dc)] with flags
    [(not trans_a, False)] and output flag [trans_b]; each only when the
    gradient is asked for. *)
Theorem backward_dispatch (m : string) (ta tb g0 g1 : bool)
  (spdims : list nat) (block : Z) :
  In m supported_modes ->
  exists mode_da mode_db f_da f_db,
    str_items m 1 0 2 = Ok mode_da /\ str_items m 2 1 0 = Ok mode_db
    /\ fn !! mode_da = Some f_da /\ fn !! mode_db = Some f_db
    /\ In (m, (mode_da, mode_db))
          [("sdd", ("dsd", "dds")); ("dsd", ("sdd", "dsd"));
           ("dds", ("dds", "sdd"))]%string
    /\ backward {| ctx_mode := m; ctx_spdims := spdims; ctx_block := block;
                   ctx_trans_a := ta; ctx_trans_b := tb;
                   needs_input_grad := (g0, g1) |}
       = Ok (if g0 then
               Some {| launch_fn := f_da; launch_a := grad_dc;
                       launch_b := saved_b; launch_trans_a := false;
                       launch_trans_b := negb tb; launch_trans_c := ta;
                       launch_spdims := spdims; launch_block := block;
                       launch_tables := da_tables |}
             else None,
             if g1 then
               Some {| launch_fn := f_db; launch_a := saved_a;
                       launch_b := grad_dc; launch_trans_a := negb ta;
                       launch_trans_b := false; launch_trans_c := tb;
                       launch_spdims := spdims; launch_block := block;
                       launch_tables := db_tables |}
             else None).
Proof.
  intros [<- | [<- | [<- | []]]].
  - exists "dsd"%string, "dds"%string, dsd_matmul_fn, dds_matmul_fn.
    repeat split; try reflexivity; [simpl; tauto|].
    destruct g0, g1; reflexivity.
  - exists "sdd"%string, "dsd"%string, sdd_matmul_fn, dsd_matmul_fn.
    repeat split; try reflexivity; [simpl; tauto|].
    destruct g0, g1; reflexivity.
  - exists "dds"%string, "sdd"%string, dds_matmul_fn, sdd_matmul_fn.
    repeat split; try reflexivity; [simpl; tauto|].
    destruct g0, g1; reflexivity.
Qed.

Lemma backward_dispatch_witness :
  exists mode_da mode_db f_da f_db,
    str_items "dsd" 1 0 2 = Ok mode_da /\ str_items "dsd" 2 1 0 = Ok mode_db
    /\ fn !! mode_da = Some f_da /\ fn !! mode_db = Some f_db
    /\ In ("dsd"%string, (mode_da, mode_db))
          [("sdd", ("dsd", "dds")); ("dsd", ("sdd", "dsd"));
           ("dds", ("dds", "sdd"))]%string
    /\ backward {| ctx_mode := "dsd"; ctx_spdims := [1; 2; 2]%nat;
                   ctx_block := 16; ctx_trans_a := true; ctx_trans_b := false;
                   needs_input_grad := (true, true) |}
       = Ok (Some {| launch_fn := f_da; launch_a := grad_dc;
                     launch_b := saved_b; launch_trans_a := false;
                     launch_trans_b := true; launch_trans_c := true;
                     launch_spdims := [1; 2; 2]%nat; launch_block := 16;
                     launch_tables := da_tables |},
             Some {| launch_fn := f_db; launch_a := saved_a;
                     launch_b := grad_dc; launch_trans_a := false;
                     launch_trans_b := false; launch_trans_c := false;
                     launch_spdims := [1; 2; 2]%nat; launch_block := 16;
                     launch_tables := db_tables |}).
Proof.
  apply (backward_dispatch "dsd" true false true true [1; 2; 2]%nat 16).
  simpl. tauto.
Defined.

(** ** The locks buffer *)

Lemma store_zeros_spec size dev st buf st' :
  store_zeros size dev st = Ok (buf, st') ->
  0 <= size /\ length (cells buf) = Z.to_nat size
  /\ locks st' = <[dev := buf]> (locks st).
Proof.
  unfold store_zeros. destruct (Z.ltb_spec size 0); [done|].
  intros [= <- <-]. cbn [cells locks]. by rewrite length_replicate.
Qed.

Lemma get_locks_stored size dev st buf st' :
  get_locks size dev st = Ok (buf, st') ->
  locks st' !! dev = Some buf /\ size <= Z.of_nat (length (cells buf)).
Proof.
  unfold get_locks. destruct (locks st !! dev) as [old|] eqn:Hold.
  - destruct (Z.ltb_spec (Z.of_nat (length (cells old))) size).
    + intros (Hs & Hlen & ->)%store_zeros_spec.
      rewrite lookup_insert_eq. split; [done | lia].
    + by intros [= <- <-].
  - intros (Hs & Hlen & ->)%store_zeros_spec.
    rewrite lookup_insert_eq. split; [done | lia].
Qed.

Lemma after_call_grows st call dev (n : nat) :
  locks_size st dev = Some n ->
  exists n', locks_size (after_call st call) dev = Some n' /\ (n <= n')%nat.
Proof.
  intros Hn. unfold after_call.
  destruct (get_locks call.1 call.2 st) as [[buf st']|e] eqn:Hcall;
    [|exists n; split; [done | lia]].
  unfold get_locks in Hcall.
  unfold locks_size in *.
  destruct (locks st !! call.2) as [old|] eqn:Hold.
  - destruct (Z.ltb_spec (Z.of_nat (length (cells old))) call.1).
    + apply store_zeros_spec in Hcall as (Hs & Hlen & ->).
      destruct (decide (call.2 = dev)) as [<- | Hne].
      * rewrite lookup_insert_eq. simpl. rewrite Hold in Hn. simpl in Hn.
        injection Hn as <-. eexists; split; [done | lia].
      * rewrite lookup_insert_ne by done. exists n. split; [done | lia].
    + injection Hcall as <- <-. exists n. split; [done | lia].
  - apply store_zeros_spec in Hcall as (Hs & Hlen & ->).
    destruct (decide (call.2 = dev)) as [<- | Hne].
    + rewrite Hold in Hn. done.
    + rewrite lookup_insert_ne by done. exists n. split; [done | lia].
Qed.

Lemma after_calls_grows calls : forall st dev (n : nat),
  locks_size st dev = Some n ->
  exists n', locks_size (after_calls st calls) dev = Some n' /\ (n <= n')%nat.
Proof.
  unfold after_calls. induction calls as [|call calls IH]; intros st dev n Hn.
  - exists n. split; [done | lia].
  - simpl. destruct (after_call_grows st call dev n Hn) as (n1 & Hn1 & Hle1).
    destruct (IH _ dev n1 Hn1) as (n2 & Hn2 & Hle2).
    exists n2. split; [done | lia].
Qed.

(** C9: after a call [get_locks(size, dev)] the buffer stored for [dev]
    is the one returned and has at least [size] cells; over any sequence
    of calls the size of the buffer of a device never decreases; and a
    request no larger than the stored buffer returns that very buffer and
    leaves the store as it was. A call with a size that is not negative
    always returns. *)
Theorem locks_buffer_grows :
  (forall size dev st buf st',
      get_locks size dev st = Ok (buf, st') ->
      locks st' !! dev = Some buf /\ size <= Z.of_nat (length (cells buf)))
  /\ (forall calls st dev (n : nat),
         locks_size st dev = Some n ->
         exists n', locks_size (after_calls st calls) dev = Some n'
                    /\ (n <= n')%nat)
  /\ (forall size dev st buf,
         locks st !! dev = Some buf ->
         size <= Z.of_nat (length (cells buf)) ->
         get_locks size dev st = Ok (buf, st))
  /\ (forall size dev st,
         0 <= size -> exists buf st', get_locks size dev st = Ok (buf, st')).
Proof.
  split; [exact get_locks_stored|]. split; [exact after_calls_grows|]. split.
  - intros size dev st buf Hbuf Hle. unfold get_locks. rewrite Hbuf.
    destruct (Z.ltb_spec (Z.of_nat (length (cells buf))) size); [lia | done].
  - intros size dev st Hs. unfold get_locks, store_zeros.
    destruct (Z.ltb_spec size 0); [lia|].
    destruct (locks st !! dev) as [old|]; [|by eexists _, _].
    destruct (Z.of_nat (length (cells old)) <? size); by eexists _, _.
Qed.

(** A store with a buffer of four cells for [cuda:0]. *)
Lemma locks_buffer_grows_witness :
  let st := {| locks := {[cuda 0 := {| buf_id := 0; cells := [0; 0; 0; 0] |}]};
               next_id := 1 |} in
  (exists n', locks_size (after_calls st [(9, cuda 0); (2, cuda 0); (7, cuda 1)])
                (cuda 0) = Some n' /\ (4 <= n')%nat)
  /\ get_locks 3 (cuda 0) st = Ok ({| buf_id := 0; cells := [0; 0; 0; 0] |}, st).
Proof.
  intros st. split.
  - apply (proj1 (proj2 locks_buffer_grows)). reflexivity.
  - apply (proj1 (proj2 (proj2 locks_buffer_grows))).
    + reflexivity.
    + simpl. lia.
Defined.

(** ** Scheduler construction *)

Lemma supported_modes_cases (mode : string) :
  mode ∈ supported_modes ->
  mode = "sdd"%string \/ mode = "dsd"%string \/ mode = "dds"%string.
Proof.
  unfold supported_modes. rewrite !elem_of_cons, elem_of_nil. tauto.
Qed.

Lemma rank_2_or_3 {A} (l : list A) :
  length l ∈ [2; 3]%nat ->
  (exists x y, l = [x; y]) \/ (exists x y z, l = [x; y; z]).
Proof.
  rewrite !elem_of_cons, elem_of_nil.
  destruct l as [|x [|y [|z [|w l]]]]; simpl; intros [H | [H | []]];
    try discriminate; eauto.
Qed.

(** The inner dimensions -1 and -2 exist in a layout of rank 2 or 3. *)
Lemma layout_inner_exists (layout : tensor) (i : Z) :
  length (shape layout) ∈ [2; 3]%nat -> i = -1 \/ i = -2 ->
  exists inner, tuple_item (shape layout) i = Ok inner.
Proof.
  intros Hrank Hi.
  destruct (rank_2_or_3 _ Hrank) as [(x & y & ->) | (x & y & z & ->)];
    destruct Hi as [-> | ->]; by eexists.
Qed.

Lemma sparse_inner_of_cases mode ta tb :
  sparse_inner_of mode ta tb = -1 \/ sparse_inner_of mode ta tb = -2.
Proof.
  unfold sparse_inner_of. destruct (bool_decide _), ta, tb; auto.
Qed.

(** What [__init__] stores, by mode. *)
Lemma matmul_init_attrs layout block mode ta tb self :
  matmul_init layout block mode ta tb = Ok self ->
  self_mode self = mode /\ mode ∈ supported_modes
  /\ length (shape layout) ∈ [2; 3]%nat
  /\ (mode <> "sdd"%string ->
      exists inner,
        tuple_item (shape layout) (sparse_inner_of mode ta tb) = Ok inner
        /\ self_dense_inner_dim self = Some (dense_inner_of mode ta tb)
        /\ self_dense_inner_size self = Some (Z.of_nat inner * block)
        /\ self_sparse_shape self = Some [tsum (data layout); block; block]).
Proof.
  unfold matmul_init. intros Hinit.
  destruct (decide (mode ∈ supported_modes)) as [Hmode | Hmode];
    [rewrite (bool_decide_eq_true_2 _ Hmode) in Hinit
    | by rewrite (bool_decide_eq_false_2 _ Hmode) in Hinit].
  destruct (decide (length (shape layout) ∈ [2; 3]%nat)) as [Hrank | Hrank];
    [rewrite (bool_decide_eq_true_2 _ Hrank) in Hinit
    | by rewrite (bool_decide_eq_false_2 _ Hrank) in Hinit].
  cbn [negb] in Hinit.
  destruct (layout_inner_exists layout (sparse_inner_of mode ta tb) Hrank
              (sparse_inner_of_cases mode ta tb)) as [inner Hinner].
  apply supported_modes_cases in Hmode as Hcase.
  destruct Hcase as [-> | [-> | ->]].
  - cbn in Hinit. injection Hinit as <-. repeat split; try done.
  - unfold sparse_inner_of, dense_inner_of in *.
    change (bool_decide ("dsd"%string = "dsd"%string)) with true in *.
    change (bool_decide ("dsd"%string = "sdd"%string)) with false in Hinit.
    cbn [negb] in Hinit.
    destruct ta, tb; cbn [negb] in Hinit;
      change (other_inner (-1)) with (-2) in Hinit;
      rewrite Hinner in Hinit; cbn [bind] in Hinit; injection Hinit as <-;
      (repeat split; try done); intros _; exists inner; done.
  - unfold sparse_inner_of, dense_inner_of in *.
    change (bool_decide ("dds"%string = "dsd"%string)) with false in *.
    change (bool_decide ("dds"%string = "sdd"%string)) with false in Hinit.
    cbn [negb] in Hinit.
    destruct ta, tb; cbn [negb] in Hinit;
      change (other_inner (-2)) with (-1) in Hinit;
      rewrite Hinner in Hinit; cbn [bind] in Hinit; injection Hinit as <-;
      (repeat split; try done); intros _; exists inner; done.
Qed.

(** C8: construction raises exactly when the mode is not one of sdd, dsd,
    dds or the layout is not of rank 2 or 3, and what it raises then is a
    configuration error ([NotImplementedError] for the mode, the failed
    assertion for the rank); with a supported mode and a layout of rank 2
    or 3 it returns the scheduler. *)
Theorem construction_fails_iff (layout : tensor) (block : Z) (mode : string)
  (ta tb : bool) :
  ((exists e, matmul_init layout block mode ta tb = Raise e)
   <-> (mode ∉ supported_modes \/ length (shape layout) ∉ [2; 3]%nat))
  /\ (forall e, matmul_init layout block mode ta tb = Raise e ->
                configuration_error e)
  /\ ((exists self, matmul_init layout block mode ta tb = Ok self)
      <-> (mode ∈ supported_modes /\ length (shape layout) ∈ [2; 3]%nat)).
Proof.
  assert (mode ∉ supported_modes ->
          matmul_init layout block mode ta tb = Raise NotImplementedError) as Hbad_mode.
  { intros Hmode. unfold matmul_init.
    by rewrite (bool_decide_eq_false_2 _ Hmode). }
  assert (mode ∈ supported_modes -> length (shape layout) ∉ [2; 3]%nat ->
          matmul_init layout block mode ta tb = Raise AssertionError) as Hbad_rank.
  { intros Hmode Hrank. unfold matmul_init.
    rewrite (bool_decide_eq_true_2 _ Hmode).
    by rewrite (bool_decide_eq_false_2 _ Hrank). }
  assert (mode ∈ supported_modes -> length (shape layout) ∈ [2; 3]%nat ->
          exists self, matmul_init layout block mode ta tb = Ok self) as Hgood.
  { intros Hmode Hrank. unfold matmul_init.
    rewrite (bool_decide_eq_true_2 _ Hmode), (bool_decide_eq_true_2 _ Hrank).
    cbn [negb].
    destruct (bool_decide (mode = "sdd"%string)); cbn [negb bind]; [by eexists|].
    destruct (bool_decide (mode = "dsd"%string)), ta, tb; cbn [negb];
      match goal with
      | |- context [tuple_item (shape layout) ?i] =>
          destruct (layout_inner_exists layout i Hrank) as [inner ->];
          [vm_compute; tauto | by eexists]
      end. }
  destruct (decide (mode ∈ supported_modes)) as [Hmode | Hmode];
    [destruct (decide (length (shape layout) ∈ [2; 3]%nat)) as [Hrank | Hrank]|].
  - destruct (Hgood Hmode Hrank) as [self Hself]. rewrite Hself.
    split; [|split].
    + split; [by intros [e ?] | by intros [? | ?]].
    + done.
    + split; [done | by eexists].
  - rewrite (Hbad_rank Hmode Hrank). split; [|split].
    + split; [by right | by eexists].
    + intros e [= <-]. by right.
    + split; [by intros [self ?] | by intros [_ ?]].
  - rewrite (Hbad_mode Hmode). split; [|split].
    + split; [by left | by eexists].
    + intros e [= <-]. by left.
    + split; [by intros [self ?] | by intros [? _]].
Qed.

Example construction_scenarios :
  matmul_init diagonal_layout 16 "xyz" false false = Raise NotImplementedError
  /\ matmul_init {| shape := [4]%nat; data := [1; 1; 1; 1] |} 16 "dds" false false
     = Raise AssertionError
  /\ exists self, matmul_init diagonal_layout 16 "dsd" false false = Ok self
                  /\ self_dense_inner_size self = Some 32
                  /\ self_sparse_shape self = Some [2; 16; 16].
Proof. repeat split. by eexists. Qed.

(** ** Shape validation *)

Lemma check_shapes_half self a b :
  check_shapes self (half a) (half b) = check_shapes self a b.
Proof.
  unfold check_shapes.
  destruct (bool_decide (self_mode self = "sdd"%string)); [done|].
  destruct (bool_decide (self_mode self = "dds"%string)); done.
Qed.

Lemma add_extra_dims_raise (x : operand) (e : exn) :
  add_extra_dims x = Raise e -> e = ValueError msg_more_than_4_dims.
Proof.
  unfold add_extra_dims. destruct (0 <? 4 - Z.of_nat (ndim x)); [done|].
  destruct (4 - Z.of_nat (ndim x) <? 0); [by intros [= <-] | done].
Qed.

(** Validation once the device and dtype checks are passed. *)
Lemma validate_inputs_guarded self autocast a b :
  guards_pass autocast a b ->
  validate_inputs self autocast a b
  = (do _ <- check_shapes self a b;
     do a' <- add_extra_dims (if autocast then half a else a);
     do b' <- add_extra_dims (if autocast then half b else b);
     Ok (a', b')).
Proof.
  intros (Hdev & Hcuda & Hdt). unfold validate_inputs.
  rewrite (bool_decide_eq_true_2 _ Hdev), Hcuda. cbn [negb].
  destruct autocast.
  - cbn [bind]. by rewrite check_shapes_half.
  - destruct Hdt as [|Hdt]; [done|].
    rewrite (bool_decide_eq_true_2 _ Hdt). done.
Qed.

(** Every error of validation is one of the device and dtype checks, one
    of the shape checks, or the limit of four dimensions. *)
Lemma validate_inputs_raise self autocast a b e :
  validate_inputs self autocast a b = Raise e ->
  e = ValueError (msg_device_mismatch (op_device a) (op_device b))
  \/ e = ValueError msg_only_gpu
  \/ e = ValueError (msg_dtype_mismatch (op_dtype a) (op_dtype b))
  \/ check_shapes self a b = Raise e
  \/ e = ValueError msg_more_than_4_dims.
Proof.
  unfold validate_inputs.
  destruct (bool_decide (op_device a = op_device b)); cbn [negb];
    [|intros [= <-]; auto].
  destruct (is_cuda a); cbn [negb]; [|intros [= <-]; auto].
  assert (forall x y, check_shapes self x y = check_shapes self a b ->
            (do _ <- check_shapes self x y;
             do a' <- add_extra_dims x; do b' <- add_extra_dims y; Ok (a', b'))
            = Raise e ->
            check_shapes self a b = Raise e \/ e = ValueError msg_more_than_4_dims)
    as Hrest.
  { intros x y ->. destruct (check_shapes self a b); cbn [bind];
      [|intros [= <-]; by left].
    destruct (add_extra_dims x) as [x'|ex] eqn:Hx; cbn [bind];
      [|intros [= <-]; right; by eapply add_extra_dims_raise].
    destruct (add_extra_dims y) as [y'|ey] eqn:Hy; cbn [bind]; [done|].
    intros [= <-]; right; by eapply add_extra_dims_raise. }
  destruct autocast; cbn [bind].
  - intros H. apply Hrest in H; [tauto | apply check_shapes_half].
  - destruct (bool_decide (op_dtype a = op_dtype b)); cbn [negb bind];
      [|intros [= <-]; auto].
    intros H. apply Hrest in H; [tauto | done].
Qed.

(** A failed shape check makes validation fail, whatever the other checks
    say. *)
Lemma validate_inputs_fails self autocast a b e :
  check_shapes self a b = Raise e ->
  exists e', validate_inputs self autocast a b = Raise e'.
Proof.
  intros Hc. unfold validate_inputs.
  destruct (bool_decide (op_device a = op_device b)); cbn [negb]; [|by eexists].
  destruct (is_cuda a); cbn [negb]; [|by eexists].
  destruct autocast; cbn [bind].
  - rewrite check_shapes_half, Hc. by eexists.
  - destruct (bool_decide (op_dtype a = op_dtype b)); cbn [negb bind];
      [|by eexists].
    rewrite Hc. by eexists.
Qed.

Lemma add_extra_dims_ok (x : operand) :
  (ndim x <= 4)%nat -> exists x', add_extra_dims x = Ok x'.
Proof.
  intros Hx. unfold add_extra_dims.
  destruct (0 <? 4 - Z.of_nat (ndim x)); [by eexists|].
  destruct (Z.ltb_spec (4 - Z.of_nat (ndim x)) 0); [lia | by eexists].
Qed.

Lemma add_extra_dims_rank (x x' : operand) :
  add_extra_dims x = Ok x' -> length (op_shape x') = 4%nat.
Proof.
  unfold add_extra_dims, ndim.
  destruct (Z.ltb_spec 0 (4 - Z.of_nat (length (op_shape x)))).
  - intros [= <-]. cbn [op_shape]. rewrite length_app, length_replicate. lia.
  - destruct (Z.ltb_spec (4 - Z.of_nat (length (op_shape x))) 0); [done|].
    intros [= <-]. lia.
Qed.

Lemma validate_inputs_rank self autocast a b a' b' :
  validate_inputs self autocast a b = Ok (a', b') ->
  length (op_shape a') = 4%nat /\ length (op_shape b') = 4%nat.
Proof.
  unfold validate_inputs.
  destruct (bool_decide (op_device a = op_device b)); cbn [negb]; [|done].
  destruct (is_cuda a); cbn [negb]; [|done].
  assert (forall x y,
            (do _ <- check_shapes self x y;
             do a0 <- add_extra_dims x; do b0 <- add_extra_dims y; Ok (a0, b0))
            = Ok (a', b') ->
            length (op_shape a') = 4%nat /\ length (op_shape b') = 4%nat) as Hrest.
  { intros x y. destruct (check_shapes self x y); cbn [bind]; [|done].
    destruct (add_extra_dims x) as [x'|] eqn:Hx; cbn [bind]; [|done].
    destruct (add_extra_dims y) as [y'|] eqn:Hy; cbn [bind]; [|done].
    intros [= <- <-]. split; by eapply add_extra_dims_rank. }
  destruct autocast; cbn [bind]; [apply Hrest|].
  destruct (bool_decide (op_dtype a = op_dtype b)); cbn [negb bind]; [|done].
  apply Hrest.
Qed.

Lemma tuple_item_rank4 (t : list Z) (i : Z) :
  length t = 4%nat -> i = -1 \/ i = -2 -> exists x, tuple_item t i = Ok x.
Proof.
  destruct t as [|x0 [|x1 [|x2 [|x3 [|]]]]]; try done.
  intros _ [-> | ->]; by eexists.
Qed.

(** The shape checks of a scheduler in a dense-output mode, in terms of
    the layout it was built from. *)
Lemma check_shapes_dense_output layout block mode ta tb self a b inner got :
  matmul_init layout block mode ta tb = Ok self ->
  mode <> "sdd"%string ->
  tuple_item (shape layout) (sparse_inner_of mode ta tb) = Ok inner ->
  tuple_item (op_shape (dense_of mode a b).1) (dense_inner_of mode ta tb)
  = Ok got ->
  check_shapes self a b
  = if negb (got =? Z.of_nat inner * block) then
      Raise (ValueError
               (msg_dense_inner (dense_of mode a b).2 (Z.of_nat inner * block)
                  (dense_inner_of mode ta tb
                   mod Z.of_nat (ndim (dense_of mode a b).1)) got))
    else if negb (bool_decide
                    (tuple_from (op_shape (sparse_of mode a b).1) (-3)
                     = [tsum (data layout); block; block]))
    then Raise (ValueError
                  (msg_sparse_shape [tsum (data layout); block; block]
                     (sparse_of mode a b).2 (op_shape (sparse_of mode a b).1)))
    else Ok tt.
Proof.
  intros Hinit Hmode Hinner Hgot.
  destruct (matmul_init_attrs _ _ _ _ _ _ Hinit) as (Hm & _ & _ & Hattrs).
  destruct (Hattrs Hmode) as (inner' & Hinner' & Hdim & Hsize & Hshape).
  rewrite Hinner in Hinner'. injection Hinner' as <-.
  unfold check_shapes. rewrite Hm, Hdim, Hsize, Hshape.
  rewrite (bool_decide_eq_false_2 _ Hmode). cbn [negb attribute bind].
  unfold dense_of, sparse_of in *.
  destruct (bool_decide (mode = "dds"%string)); cbn [fst snd] in *;
    rewrite Hgot; cbn [bind length]; done.
Qed.

Lemma check_shapes_sdd self a b :
  self_mode self = "sdd"%string -> check_shapes self a b = Ok tt.
Proof. intros Hm. unfold check_shapes. by rewrite Hm. Qed.

(** The constraints of [sdd_matmul] on validated operands, in the forward
    call ([trans_c] is [False]). *)
Lemma sdd_matmul_reduction (a b : operand) (ta tb : bool) (block : Z)
  (widths packs : list Z) (Ka : Z) :
  length (op_shape b) = 4%nat ->
  tuple_item (op_shape a) (if ta then -2 else -1) = Ok Ka ->
  Ka mod 16 <> 0 ->
  exists e,
    sdd_matmul a b ta tb false block widths packs = Raise e
    /\ shape_error e
    /\ (tuple_item (op_shape b) (if tb then -1 else -2) = Ok Ka ->
        e = ValueError msg_reduction_16).
Proof.
  intros Hb HKa Hmod. unfold sdd_matmul. rewrite HKa. cbn [bind].
  destruct (tuple_item_rank4 (op_shape b) (if tb then -1 else -2) Hb) as [Kb HKb];
    [destruct tb; auto|].
  rewrite HKb. cbn [bind].
  destruct (Z.eqb_spec Ka Kb) as [<- | Hne]; cbn [negb].
  - destruct (Z.eqb_spec (Ka mod 16) 0); [done|]. cbn [negb].
    eexists. split; [done|]. split; done.
  - eexists. split; [done|]. split; [done|]. intros [= Heq]. by subst.
Qed.

(** C7: for a scheduler built from [layout] and [block]. In a dense-output
    mode, with [expected] the layout's inner size times [block] and
    [populated] the shape (sum of the layout, block, block): if the inner
    dimension [got] of the dense operand differs from [expected] the call
    fails, and once the device and dtype checks are passed it fails with
    the message that names the operand, [expected], the dimension and
    [got]; if the trailing shape of the sparse operand differs from
    [populated] the call fails, with the message that names [populated]
    and the actual shape when the dense operand is right; if both are
    right no shape error is raised at validation, which returns when the
    operands have at most four dimensions. In the sparse-output mode
    validation raises no shape error, and [sdd_matmul] rejects a reduction
    size that is not a multiple of 16. *)
Theorem shape_validation (layout : tensor) (block : Z) (mode : string)
  (ta tb : bool) (self : matmul) (autocast : bool) (a b : operand) :
  matmul_init layout block mode ta tb = Ok self ->
  (mode <> "sdd"%string ->
   exists inner,
     tuple_item (shape layout) (sparse_inner_of mode ta tb) = Ok inner
     /\ forall got,
         tuple_item (op_shape (dense_of mode a b).1) (dense_inner_of mode ta tb)
         = Ok got ->
         let expected := Z.of_nat inner * block in
         let populated := [tsum (data layout); block; block] in
         let trailing := tuple_from (op_shape (sparse_of mode a b).1) (-3) in
         (got <> expected ->
          (exists e, validate_inputs self autocast a b = Raise e)
          /\ (guards_pass autocast a b ->
              validate_inputs self autocast a b
              = Raise (ValueError
                         (msg_dense_inner (dense_of mode a b).2 expected
                            (dense_inner_of mode ta tb
                             mod Z.of_nat (ndim (dense_of mode a b).1)) got))))
         /\ (trailing <> populated ->
             (exists e, validate_inputs self autocast a b = Raise e)
             /\ (guards_pass autocast a b -> got = expected ->
                 validate_inputs self autocast a b
                 = Raise (ValueError
                            (msg_sparse_shape populated (sparse_of mode a b).2
                               (op_shape (sparse_of mode a b).1)))))
         /\ (got = expected -> trailing = populated ->
             (forall e, validate_inputs self autocast a b = Raise e ->
                        ~ shape_error e)
             /\ (guards_pass autocast a b ->
                 (ndim a <= 4)%nat -> (ndim b <= 4)%nat ->
                 exists a' b', validate_inputs self autocast a b = Ok (a', b'))))
  /\ (mode = "sdd"%string ->
      (forall e, validate_inputs self autocast a b = Raise e -> ~ shape_error e)
      /\ forall a' b' Ka widths packs,
          validate_inputs self autocast a b = Ok (a', b') ->
          tuple_item (op_shape a') (if ta then -2 else -1) = Ok Ka ->
          Ka mod 16 <> 0 ->
          exists e,
            sdd_matmul a' b' ta tb false block widths packs = Raise e
            /\ shape_error e
            /\ (tuple_item (op_shape b') (if tb then -1 else -2) = Ok Ka ->
                e = ValueError msg_reduction_16)).
Proof.
  intros Hinit.
  destruct (matmul_init_attrs _ _ _ _ _ _ Hinit) as (Hm & _ & _ & Hattrs).
  assert (forall e, check_shapes self a b = Ok tt ->
                    validate_inputs self autocast a b = Raise e ->
                    ~ shape_error e) as Hclean.
  { intros e Hc Hraise.
    apply validate_inputs_raise in Hraise as [-> | [-> | [-> | [Hr | ->]]]];
      try (by intros []). by rewrite Hc in Hr. }
  split.
  - intros Hmode. destruct (Hattrs Hmode) as (inner & Hinner & _).
    exists inner. split; [done|]. intros got Hgot expected populated trailing.
    pose proof (check_shapes_dense_output _ _ _ _ _ _ a b _ _
                  Hinit Hmode Hinner Hgot) as Hc.
    fold expected populated trailing in Hc.
    split; [|split].
    + intros Hne. destruct (Z.eqb_spec got expected) as [|_]; [done|].
      cbn [negb] in Hc. split; [by eapply validate_inputs_fails|].
      intros Hg. rewrite (validate_inputs_guarded _ _ _ _ Hg), Hc. done.
    + intros Hne. rewrite (bool_decide_eq_false_2 _ Hne) in Hc. cbn [negb] in Hc.
      split.
      * destruct (negb (got =? expected)); by eapply validate_inputs_fails.
      * intros Hg ->. rewrite Z.eqb_refl in Hc. cbn [negb] in Hc.
        rewrite (validate_inputs_guarded _ _ _ _ Hg), Hc. done.
    + intros -> Heq. rewrite Z.eqb_refl, (bool_decide_eq_true_2 _ Heq) in Hc.
      cbn [negb] in Hc. split; [intros e; by apply Hclean|].
      intros Hg Ha Hb. rewrite (validate_inputs_guarded _ _ _ _ Hg), Hc.
      cbn [bind].
      destruct (add_extra_dims_ok (if autocast then half a else a)) as [a' ->];
        [by destruct autocast|].
      destruct (add_extra_dims_ok (if autocast then half b else b)) as [b' ->];
        [by destruct autocast|].
      by eexists _, _.
  - intros ->. split.
    + intros e. by apply Hclean, check_shapes_sdd.
    + intros a' b' Ka widths packs Hv HKa Hmod.
      apply validate_inputs_rank in Hv as [_ Hb'].
      by apply sdd_matmul_reduction.
Qed.

(** The spec's scenario: the dense operand [B] has inner dimension 48 where
    the layout of width 2 and blocks of 16 want 32. *)
Lemma shape_validation_witness :
  validate_inputs
    {| self_block := 16; self_mode := "dsd"; self_trans_a := false;
       self_trans_b := false; self_dense_inner_dim := Some (-2);
       self_dense_inner_size := Some 32;
       self_sparse_shape := Some [2; 16; 16];
       self_layout := {| shape := [1; 2; 2]%nat; data := [1; 0; 0; 1] |};
       self_spdims := [1; 2; 2]%nat |}
    false
    {| op_shape := [2; 16; 16]; op_device := cuda 0; op_dtype := float16 |}
    {| op_shape := [1; 1; 48; 64]; op_device := cuda 0; op_dtype := float16 |}
  = Raise (ValueError (msg_dense_inner "B" 32 2 48)).
Proof.
  destruct (shape_validation diagonal_layout 16 "dsd" false false _ false
              {| op_shape := [2; 16; 16]; op_device := cuda 0; op_dtype := float16 |}
              {| op_shape := [1; 1; 48; 64]; op_device := cuda 0; op_dtype := float16 |}
              eq_refl) as [Hdense _].
  destruct (Hdense ltac:(discriminate)) as (inner & Hinner & Hgot).
  vm_compute in Hinner. injection Hinner as <-.
  destruct (Hgot 48 eq_refl) as [Hmismatch _].
  destruct (Hmismatch ltac:(discriminate)) as [_ Hmsg].
  apply Hmsg. repeat split. by right.
Defined.

(** * Further properties of the load balancer *)

Lemma cumsum_from_take (acc : Z) (t : list Z) :
  cumsum_from acc t
  = map (fun k => acc + tsum (take (S k) t)) (seq 0 (length t)).
Proof.
  revert acc. induction t as [|x t IH]; intros acc; [done|].
  cbn [cumsum_from length seq map take]. f_equal.
  - unfold tsum. simpl. lia.
  - rewrite IH, <- seq_shift, map_map. apply map_ext. intros k.
    unfold tsum. simpl. lia.
Qed.

Lemma take_removelast (t : list Z) (k : nat) :
  (k < length t)%nat -> take k (removelast t) = take k t.
Proof.
  intros Hk. rewrite removelast_firstn_len.
  change (firstn (Init.Nat.pred (length t)) t) with (take (Init.Nat.pred (length t)) t).
  rewrite take_take. f_equal. lia.
Qed.

Lemma lb_offsets_prefix_sums (t : list Z) : lb_offsets t = prefix_sums t.
Proof.
  destruct t as [|x t]; [done|].
  unfold lb_offsets, prefix_sums, cumsum. rewrite cumsum_from_take.
  cbn [length seq map]. f_equal.
  assert (length (removelast (x :: t)) = length t) as Hlen.
  { rewrite removelast_firstn_len. cbn [length Init.Nat.pred].
    change (firstn (length t) (x :: t)) with (take (length t) (x :: t)).
    rewrite length_take. simpl. lia. }
  rewrite Hlen, <- seq_shift, map_map.
  apply map_ext_in. intros k Hk%in_seq.
  rewrite take_removelast by (simpl; lia). lia.
Qed.

Lemma prefix_sums_lookup (t : list Z) (k : nat) :
  (k < length t)%nat -> prefix_sums t !! k = Some (tsum (take k t)).
Proof.
  intros Hk. unfold prefix_sums.
  by rewrite list_lookup_fmap, lookup_seq_lt.
Qed.

Lemma prefix_sums_length (t : list Z) : length (prefix_sums t) = length t.
Proof. unfold prefix_sums. by rewrite length_map, length_seq. Qed.

(** Whatever the input, a returned schedule has its offsets computed from
    its segments. *)
Lemma load_balance_offsets (mem : heap) (sizes : list Z) (r : balanced) :
  load_balance mem sizes = Ok r -> offsets r = lb_offsets (segments r).
Proof.
  unfold load_balance. intros H.
  repeat match type of H with
         | bind ?c _ = Ok _ => destruct c; cbn [bind] in H; [|discriminate]
         end.
  cbv zeta in H.
  repeat match type of H with
         | bind ?c _ = Ok _ => destruct c; cbn [bind] in H; [|discriminate]
         end.
  by injection H as <-.
Qed.

Lemma tsum_cons (x : Z) (t : list Z) : tsum (x :: t) = x + tsum t.
Proof. reflexivity. Qed.

Lemma tsum_map_plus {A} (f g : A -> Z) (l : list A) :
  tsum (map (fun x => f x + g x) l) = tsum (map f l) + tsum (map g l).
Proof. unfold tsum. induction l as [|x l IH]; simpl; lia. Qed.

Lemma tsum_map_zero {A} (l : list A) : tsum (map (fun _ => 0) l) = 0.
Proof. unfold tsum. induction l as [|x l IH]; simpl; lia. Qed.

(** Summing a grid by columns or by rows gives the same total. *)
Lemma tsum_exchange {A B} (f : A -> B -> Z) (hs : list A) (ws : list B) :
  tsum (map (fun w => tsum (map (fun h => f h w) hs)) ws)
  = tsum (map (fun h => tsum (map (fun w => f h w) ws)) hs).
Proof.
  induction hs as [|h hs IH].
  - cbn [map]. rewrite tsum_map_zero. done.
  - cbn [map]. rewrite tsum_cons, <- IH, <- tsum_map_plus. reflexivity.
Qed.

Lemma load_balance_segments_nonneg (mem : heap) (sizes : list Z) (lb : balanced) :
  reduction_lengths sizes -> load_balance mem sizes = Ok lb ->
  Forall (fun s => 0 <= s) (segments lb).
Proof.
  intros Hnn Hlb.
  pose proof (load_balance_ok_nonzero mem sizes lb Hlb) as Hnz.
  destruct (load_balance_planned mem sizes Hnn Hnz) as (M & Hmax & Hpos & Hp).
  rewrite Hp in Hlb. injection Hlb as <-. cbn [planned segments].
  eapply Forall_impl;
    [apply (all_plans_le M (seg_min_of M) sizes Hpos); by apply in_range_of_max|].
  simpl. lia.
Qed.

Lemma tsum_take_nonneg (t : list Z) (k : nat) :
  Forall (fun s => 0 <= s) t -> 0 <= tsum (take k t) <= tsum t.
Proof.
  intros Hnn. revert k. induction Hnn as [|x t Hx _ IH]; intros [|k]; cbn [take].
  - done.
  - done.
  - change (tsum []) with 0. rewrite tsum_cons.
    specialize (IH 0%nat). rewrite take_0 in IH. change (tsum []) with 0 in IH. lia.
  - rewrite !tsum_cons. specialize (IH k). lia.
Qed.

Lemma tsum_take_S (t : list Z) (k : nat) (x : Z) :
  t !! k = Some x -> tsum (take (S k) t) = tsum (take k t) + x.
Proof.
  intros Hx. rewrite (take_S_r _ _ _ Hx), tsum_app. unfold tsum. simpl. lia.
Qed.

(** X1: for reduction lengths whose total fits the 64-bit integers of
    the tensors, [offsets] holds the exclusive prefix sums of [segments]:
    entry [k] is the total size of the segments before segment [k], and no
    sum that [torch.cumsum] forms leaves the range. *)
Theorem offsets_are_prefix_sums (mem : heap) (sizes : list Z) (r : balanced) :
  reduction_lengths sizes -> tsum sizes < 2 ^ 63 ->
  load_balance mem sizes = Ok r ->
  length (offsets r) = length (segments r)
  /\ forall k, (k < length (segments r))%nat ->
               offsets r !! k = Some (tsum (take k (segments r)))
               /\ 0 <= tsum (take k (segments r)) < 2 ^ 63.
Proof.
  intros Hnn Hfit Hr.
  pose proof (load_balance_segments_nonneg mem sizes r Hnn Hr) as Hsegs.
  assert (tsum (segments r) = tsum sizes) as Htotal.
  { pose proof (load_balance_ok_nonzero mem sizes r Hr) as Hnz.
    destruct (load_balance_planned mem sizes Hnn Hnz) as (M & Hmax & _ & Hp).
    rewrite Hp in Hr. injection Hr as <-. cbn [planned segments].
    apply all_plans_sum. by apply in_range_of_max. }
  rewrite (load_balance_offsets _ _ _ Hr), lb_offsets_prefix_sums.
  split; [apply prefix_sums_length|]. intros k Hk.
  split; [by apply prefix_sums_lookup|].
  pose proof (tsum_take_nonneg (segments r) k Hsegs). lia.
Qed.

Lemma offsets_are_prefix_sums_witness :
  length [0; 16; 24; 27] = length [16; 8; 3; 0]
  /\ forall k, (k < length [16; 8; 3; 0])%nat ->
               [0; 16; 24; 27] !! k = Some (tsum (take k [16; 8; 3; 0]))
               /\ 0 <= tsum (take k [16; 8; 3; 0]) < 2 ^ 63.
Proof.
  apply (offsets_are_prefix_sums zero_heap [16; 8; 3; 0]
           {| segments := [16; 8; 3; 0]; column := [0; 1; 2; 3];
              lockid := [0; 0; 0; 0]; maxid := [0; 0; 0; 0];
              offsets := [0; 16; 24; 27] |}).
  - unfold reduction_lengths. repeat constructor; lia.
  - by vm_compute.
  - vm_compute. reflexivity.
Defined.

(** X2: on reduction lengths with a nonzero entry the schedule does not
    depend on what [torch.empty] hands out: every cell of the two
    uninitialised buffers is overwritten. *)
Theorem schedule_ignores_uninitialised_memory (mem1 mem2 : heap) (sizes : list Z) :
  reduction_lengths sizes ->
  has_nonzero sizes ->
  load_balance mem1 sizes = load_balance mem2 sizes.
Proof.
  intros Hnn Hnz.
  destruct (load_balance_planned mem1 sizes Hnn Hnz) as (M1 & Hmax1 & _ & ->).
  destruct (load_balance_planned mem2 sizes Hnn Hnz) as (M2 & Hmax2 & _ & ->).
  by rewrite (is_max_unique M1 M2 sizes Hmax1 Hmax2).
Qed.

Lemma schedule_ignores_uninitialised_memory_witness :
  load_balance zero_heap [9; 9; 1]
  = load_balance (fun a i => Z.of_nat (a + i) - 7) [9; 9; 1].
Proof.
  apply schedule_ignores_uninitialised_memory.
  - unfold reduction_lengths. repeat constructor; lia.
  - apply Exists_cons_hd. lia.
Defined.

(** X3: the segments a column owns add up to the length of that column. *)
Theorem column_work_conserved (mem : heap) (sizes : list Z) :
  reduction_lengths sizes ->
  has_nonzero sizes ->
  exists r,
    load_balance mem sizes = Ok r
    /\ forall (i : nat) (s : Z),
         sizes !! i = Some s ->
         tsum (map fst (column_rows r (Z.of_nat i))) = s.
Proof.
  intros Hnn Hnz.
  destruct (load_balance_planned mem sizes Hnn Hnz) as (M & Hmax & Hpos & Hr).
  exists (planned M sizes). split; [done|]. intros i s Hi.
  rewrite (planned_column_rows M sizes i s Hi), map_map. cbn [fst].
  rewrite map_id. apply plan_sum.
  pose proof (in_range_of_max M sizes Hmax Hnn) as Hrange.
  rewrite Forall_forall in Hrange. apply Hrange. by eapply list_elem_of_lookup_2.
Qed.

Lemma column_work_conserved_witness :
  exists r,
    load_balance zero_heap [1; 0; 3] = Ok r
    /\ forall (i : nat) (s : Z),
         [1; 0; 3] !! i = Some s ->
         tsum (map fst (column_rows r (Z.of_nat i))) = s.
Proof.
  apply column_work_conserved.
  - unfold reduction_lengths. repeat constructor; lia.
  - apply Exists_cons_hd. lia.
Defined.

Lemma column_ids_sorted seg_max seg_min sizes : forall j,
  StronglySorted Z.le (column_ids seg_max seg_min j sizes)
  /\ Forall (fun c => j <= c < j + Z.of_nat (length sizes))
            (column_ids seg_max seg_min j sizes).
Proof.
  induction sizes as [|s sizes IH]; intros j; [split; constructor|].
  destruct (IH (j + 1)) as [Hs Hr]. cbn [column_ids length]. split.
  - apply StronglySorted_app_2.
    + intros x1 x2 ->%elem_of_replicate_inv Hx2.
      rewrite Forall_forall in Hr. apply Hr in Hx2. lia.
    + generalize (length (column_plan seg_max seg_min s)).
      induction n as [|n IHn]; [constructor|]. simpl. constructor; [done|].
      apply Forall_forall. intros x ->%elem_of_replicate_inv. lia.
    + done.
  - apply Forall_app. split.
    + apply Forall_forall. intros x ->%elem_of_replicate_inv. lia.
    + eapply Forall_impl; [exact Hr|]. simpl. lia.
Qed.

(** X4: the owning columns are listed in increasing order, so the segments
    of one column are adjacent, and every entry is a column index of
    [sizes]. *)
Theorem owning_columns_in_order (mem : heap) (sizes : list Z) :
  reduction_lengths sizes ->
  has_nonzero sizes ->
  exists r,
    load_balance mem sizes = Ok r
    /\ StronglySorted Z.le (column r)
    /\ Forall (fun c => 0 <= c < Z.of_nat (length sizes)) (column r).
Proof.
  intros Hnn Hnz.
  destruct (load_balance_planned mem sizes Hnn Hnz) as (M & _ & _ & Hr).
  exists (planned M sizes). split; [done|]. cbn [planned column].
  destruct (column_ids_sorted M (seg_min_of M) sizes 0) as [Hs Hin].
  split; [done|]. eapply Forall_impl; [exact Hin|]. simpl. lia.
Qed.

Lemma owning_columns_in_order_witness :
  exists r,
    load_balance zero_heap [1; 0; 3] = Ok r
    /\ StronglySorted Z.le (column r)
    /\ Forall (fun c => 0 <= c < Z.of_nat (length [1; 0; 3]%Z)) (column r).
Proof.
  apply owning_columns_in_order.
  - unfold reduction_lengths. repeat constructor; lia.
  - apply Exists_cons_hd. lia.
Defined.

(** X5: [load_balance] never takes its lock branch: in every schedule for
    reduction lengths, all lock ids and all lock task counts are 0. *)
Theorem no_lock_is_issued (mem : heap) (sizes : list Z) (r : balanced) :
  reduction_lengths sizes ->
  load_balance mem sizes = Ok r ->
  Forall (fun l => l = 0) (lockid r) /\ Forall (fun m => m = 0) (maxid r).
Proof.
  intros Hnn Hr.
  pose proof (load_balance_ok_nonzero mem sizes r Hr) as Hnz.
  destruct (load_balance_planned mem sizes Hnn Hnz) as (M & _ & _ & Hp).
  rewrite Hp in Hr. injection Hr as <-. cbn [planned lockid maxid].
  split; by apply Forall_replicate.
Qed.

Lemma no_lock_is_issued_witness :
  Forall (fun l => l = 0) [0; 0; 0; 0] /\ Forall (fun m => m = 0) [0; 0; 0; 0].
Proof.
  apply (no_lock_is_issued zero_heap [16; 8; 3; 0]
           {| segments := [16; 8; 3; 0]; column := [0; 1; 2; 3];
              lockid := [0; 0; 0; 0]; maxid := [0; 0; 0; 0];
              offsets := [0; 16; 24; 27] |}).
  - unfold reduction_lengths. repeat constructor; lia.
  - vm_compute. reflexivity.
Defined.

Lemma seg_min_above_max (M : Z) : 0 < M -> (M < seg_min_of M <-> M < 4).
Proof.
  intros HM. unfold seg_min_of, cdiv.
  assert ((M + 4 - 1) / 4 <= M) by (apply Z.div_le_upper_bound; lia).
  lia.
Qed.

(** X6: a column owns two segments exactly when it is a longest column and
    the longest column is shorter than 4 blocks; its segments are then the
    whole column followed by an empty segment. Every other column owns one
    segment. *)
Theorem two_segments_iff_short_longest (mem : heap) (sizes : list Z) :
  reduction_lengths sizes ->
  has_nonzero sizes ->
  exists r M,
    load_balance mem sizes = Ok r /\ is_max M sizes
    /\ forall (i : nat) (s : Z),
         sizes !! i = Some s ->
         (s = M /\ M < 4 -> column_rows r (Z.of_nat i) = [(M, 0); (0, 0)])
         /\ (~ (s = M /\ M < 4) -> column_rows r (Z.of_nat i) = [(s, 0)]).
Proof.
  intros Hnn Hnz.
  destruct (load_balance_planned mem sizes Hnn Hnz) as (M & Hmax & Hpos & Hr).
  exists (planned M sizes), M. split; [done|]. split; [done|].
  intros i s Hi. rewrite (planned_column_rows M sizes i s Hi).
  assert (s <= M) as HsM.
  { destruct Hmax as [_ Hle]. rewrite Forall_forall in Hle.
    apply Hle. by eapply list_elem_of_lookup_2. }
  pose proof (seg_min_above_max M Hpos) as Hsm.
  unfold column_plan. split.
  - intros [-> H4]. destruct (Z.ltb_spec M M); [lia|].
    destruct (Z.ltb_spec M (seg_min_of M)); [done | lia].
  - intros Hno. destruct (Z.ltb_spec s M); [done|].
    destruct (Z.ltb_spec s (seg_min_of M)); [lia|].
    by replace s with M by lia.
Qed.

Lemma two_segments_iff_short_longest_witness :
  exists r M,
    load_balance zero_heap [1; 0; 3] = Ok r /\ is_max M [1; 0; 3]
    /\ forall (i : nat) (s : Z),
         [1; 0; 3] !! i = Some s ->
         (s = M /\ M < 4 -> column_rows r (Z.of_nat i) = [(M, 0); (0, 0)])
         /\ (~ (s = M /\ M < 4) -> column_rows r (Z.of_nat i) = [(s, 0)]).
Proof.
  apply two_segments_iff_short_longest.
  - unfold reduction_lengths. repeat constructor; lia.
  - apply Exists_cons_hd. lia.
Defined.

(** * Further properties of the load-balancing loop of [make_dxx_lut] *)

Lemma load_balance_without_nonzero (mem : heap) (sizes : list Z) :
  ~ has_nonzero sizes -> load_balance mem sizes = Raise RuntimeError.
Proof.
  intros Hno. unfold load_balance.
  destruct sizes as [|x xs]; [done|]. cbn [tmax bind].
  rewrite (filter_none (fun s => s <> 0) (x :: xs)); [done|].
  intros y Hy Hne. apply Hno. apply Exists_exists. by exists y.
Qed.

Lemma dxx_slice_returns mem layout trans z st :
  Forall (fun x => 0 <= x) (data layout) ->
  has_nonzero (slice_sizes layout trans z) ->
  exists lb,
    load_balance mem (slice_sizes layout trans z) = Ok lb
    /\ Forall (fun l => l = 0) (lockid lb)
    /\ dxx_slice mem layout trans z st
       = Ok {| dxx_segments := dxx_segments st ++ segments lb;
               dxx_column := dxx_column st ++ column lb;
               dxx_depth := dxx_depth st ++ map (fun _ => Z.of_nat z) (segments lb);
               dxx_maxid := dxx_maxid st ++ maxid lb;
               dxx_offsets :=
                 dxx_offsets st ++ map (Z.add (current_offset st)) (offsets lb);
               dxx_lockid := dxx_lockid st ++ lockid lb;
               current_offset := current_offset st + slice_total layout z;
               current_maxid := 0 |}.
Proof.
  intros Hnn Hnz. unfold dxx_slice, slice_sizes in *.
  destruct (load_balance_planned mem _
              (slice_sizes_nonneg layout trans z Hnn) Hnz) as (M & _ & _ & Hlb).
  eexists. split; [exact Hlb|].
  destruct (load_balance_ok_unlocked _ _ _
              (slice_sizes_nonneg layout trans z Hnn) Hlb) as (Hne & Hlz & _).
  split; [done|]. rewrite Hlb. cbn [bind].
  by rewrite (shift_locks_zero _ _ Hlz), (tmax_zeros _ Hne Hlz).
Qed.

Lemma dxx_slice_raises mem layout trans z st :
  ~ has_nonzero (slice_sizes layout trans z) ->
  dxx_slice mem layout trans z st = Raise RuntimeError.
Proof.
  intros Hno. unfold dxx_slice, slice_sizes in *.
  by rewrite (load_balance_without_nonzero _ _ Hno).
Qed.

Lemma dxx_loop_raises mem layout trans zs : forall st,
  Forall (fun x => 0 <= x) (data layout) ->
  Exists (fun z => ~ has_nonzero (slice_sizes layout trans z)) zs ->
  dxx_loop mem layout trans zs st = Raise RuntimeError.
Proof.
  induction zs as [|z zs IH]; intros st Hnn Hex; [by apply Exists_nil in Hex|].
  cbn [dxx_loop].
  destruct (decide (has_nonzero (slice_sizes layout trans z))) as [Hnz | Hno].
  - destruct (dxx_slice_returns (mem z) layout trans z st Hnn Hnz)
      as (lb & _ & _ & ->).
    cbn [bind]. apply IH; [done|].
    apply Exists_cons in Hex as [Hz | Hex]; [done | exact Hex].
  - by rewrite (dxx_slice_raises _ _ _ _ _ Hno).
Qed.

(** X7: on a rank-3 layout of non-negative entries the load-balancing loop
    of [make_dxx_lut] returns exactly when every depth slice has a populated
    block; when some slice has none, it raises a [RuntimeError]. *)
Theorem empty_slice_raises (mem : nat -> heap) (layout : tensor) (trans : bool)
  (nz nh nw : nat) :
  shape layout = [nz; nh; nw] ->
  Forall (fun x => 0 <= x) (data layout) ->
  ((exists st, make_dxx_lut_balance mem layout trans = Ok st)
   <-> forall z, (z < nz)%nat -> has_nonzero (slice_sizes layout trans z))
  /\ ((exists z, (z < nz)%nat /\ ~ has_nonzero (slice_sizes layout trans z)) ->
      make_dxx_lut_balance mem layout trans = Raise RuntimeError).
Proof.
  intros Hshape Hnn.
  assert ((exists z, (z < nz)%nat /\ ~ has_nonzero (slice_sizes layout trans z)) ->
          make_dxx_lut_balance mem layout trans = Raise RuntimeError) as Hraise.
  { intros (z & Hz & Hno). unfold make_dxx_lut_balance. rewrite Hshape.
    apply dxx_loop_raises; [done|]. apply Exists_exists. exists z.
    split; [|done]. apply elem_of_seq. lia. }
  split; [|done]. split.
  - intros [st Hst] z Hz.
    destruct (decide (has_nonzero (slice_sizes layout trans z))) as [|Hno]; [done|].
    rewrite Hraise in Hst; [done | by exists z].
  - intros Hall. by eapply make_dxx_lut_balance_returns.
Qed.

Lemma empty_slice_raises_witness :
  ((exists st, make_dxx_lut_balance zero_heaps empty_slice_layout true = Ok st)
   <-> forall z, (z < 2)%nat -> has_nonzero (slice_sizes empty_slice_layout true z))
  /\ ((exists z, (z < 2)%nat
                 /\ ~ has_nonzero (slice_sizes empty_slice_layout true z)) ->
      make_dxx_lut_balance zero_heaps empty_slice_layout true = Raise RuntimeError).
Proof.
  apply (empty_slice_raises zero_heaps empty_slice_layout true 2 2 2).
  - reflexivity.
  - repeat constructor; lia.
Defined.


(** Both reduction axes of a slice count the same blocks. *)
Lemma slice_sizes_total (layout : tensor) (trans : bool) (z : nat) :
  tsum (slice_sizes layout trans z) = slice_total layout z.
Proof.
  unfold slice_sizes, slice_total. destruct trans; [done|].
  unfold sum_axis0, sum_axis1.
  destruct (shape layout) as [|? [|nh [|nw [|]]]]; try done.
  apply (tsum_exchange (fun h w => at3 layout z h w)).
Qed.

Lemma prefix_sums_app (a b : list Z) :
  prefix_sums (a ++ b) = prefix_sums a ++ map (Z.add (tsum a)) (prefix_sums b).
Proof.
  unfold prefix_sums. rewrite length_app, seq_app, map_app. f_equal.
  - apply map_ext_in. intros k Hk%in_seq. by rewrite take_app_le by lia.
  - rewrite map_map. cbn [Nat.add].
    assert (seq (length a) (length b)
            = map (Nat.add (length a)) (seq 0 (length b))) as ->.
    { pose proof (fmap_add_seq (length a) 0 (length b)) as H.
      rewrite Nat.add_0_r in H. by rewrite <- H. }
    rewrite map_map.
    apply map_ext. intros k. rewrite take_app_add, tsum_app. done.
Qed.

(** What one returned call of [load_balance] on reduction lengths adds to
    the schedule. *)
Lemma load_balance_slice_facts (mem : heap) (sizes : list Z) (lb : balanced) :
  reduction_lengths sizes ->
  load_balance mem sizes = Ok lb ->
  tsum (segments lb) = tsum sizes
  /\ offsets lb = prefix_sums (segments lb)
  /\ common_length lb (length (segments lb)).
Proof.
  intros Hnn Hlb.
  pose proof (load_balance_ok_nonzero mem sizes lb Hlb) as Hnz.
  destruct (load_balance_planned mem sizes Hnn Hnz) as (M & Hmax & Hpos & Hp).
  rewrite Hp in Hlb. injection Hlb as <-.
  split; [|split].
  - cbn [planned segments]. apply all_plans_sum.
    by apply in_range_of_max.
  - cbn [planned offsets segments]. apply lb_offsets_prefix_sums.
  - apply planned_common_length.
Qed.

(** The loop keeps the offsets equal to the prefix sums of the segments,
    and [current_offset] equal to their total. *)
Lemma dxx_loop_tiles mem layout trans zs : forall st st',
  Forall (fun x => 0 <= x) (data layout) ->
  dxx_offsets st = prefix_sums (dxx_segments st) ->
  tsum (dxx_segments st) = current_offset st ->
  dxx_common_length st (length (dxx_segments st)) ->
  dxx_loop mem layout trans zs st = Ok st' ->
  dxx_offsets st' = prefix_sums (dxx_segments st')
  /\ tsum (dxx_segments st') = current_offset st'
  /\ current_offset st'
     = current_offset st + tsum (map (slice_total layout) zs)
  /\ dxx_common_length st' (length (dxx_segments st')).
Proof.
  induction zs as [|z zs IH]; intros st st' Hnn Hoff Hsum Hlen Hrun.
  - cbn in Hrun. injection Hrun as <-. change (tsum []) with 0.
    rewrite Z.add_0_r. done.
  - cbn [dxx_loop] in Hrun.
    destruct (decide (has_nonzero (slice_sizes layout trans z))) as [Hnz | Hno];
      [|by rewrite (dxx_slice_raises _ _ _ _ _ Hno) in Hrun].
    destruct (dxx_slice_returns (mem z) layout trans z st Hnn Hnz)
      as (lb & Hlb & _ & Hslice).
    rewrite Hslice in Hrun. cbn [bind] in Hrun.
    destruct (load_balance_slice_facts _ _ _
                (slice_sizes_nonneg layout trans z Hnn) Hlb)
      as (Hlsum & Hloff & Hl1 & Hl2 & Hl3 & Hl4 & Hl5).
    destruct Hlen as (_ & Hc & Hd & Hk & Hm & Ho).
    apply IH in Hrun; [|done|..]; cbn [dxx_offsets dxx_segments current_offset] in *.
    + destruct Hrun as (H1 & H2 & H3 & H4).
      split; [done|]. split; [done|]. split; [|done].
      rewrite H3. cbn [map]. rewrite tsum_cons. lia.
    + rewrite prefix_sums_app, Hoff, Hloff, Hsum. done.
    + rewrite tsum_app, Hsum, Hlsum. f_equal. apply slice_sizes_total.
    + unfold dxx_common_length.
      cbn [dxx_segments dxx_column dxx_depth dxx_lockid dxx_maxid dxx_offsets].
      rewrite !length_app, !length_map. lia.
Qed.

(** X8: in the schedule of a layout of non-negative entries the segments
    of all depth slices tile the stored blocks: [offsets] is the exclusive
    prefix sum of [segments] across the slices, the sizes add up to the
    number of blocks the slices hold, and the six vectors have one length. *)
Theorem segments_tile_blocks (mem : nat -> heap) (layout : tensor) (trans : bool)
  (nz nh nw : nat) (st : dxx_state) :
  shape layout = [nz; nh; nw] ->
  Forall (fun x => 0 <= x) (data layout) ->
  make_dxx_lut_balance mem layout trans = Ok st ->
  dxx_offsets st = prefix_sums (dxx_segments st)
  /\ tsum (dxx_segments st) = tsum (map (slice_total layout) (seq 0 nz))
  /\ current_offset st = tsum (dxx_segments st)
  /\ dxx_common_length st (length (dxx_segments st)).
Proof.
  intros Hshape Hnn Hrun. unfold make_dxx_lut_balance in Hrun.
  rewrite Hshape in Hrun.
  apply dxx_loop_tiles in Hrun as (H1 & H2 & H3 & H4); try done.
  cbn [current_offset] in H3.
  split; [done|]. split; [lia|]. split; [lia | done].
Qed.

Lemma segments_tile_blocks_witness :
  [0; 1; 1; 2; 2; 3; 5] = prefix_sums [1; 0; 1; 0; 1; 2; 0]
  /\ tsum [1; 0; 1; 0; 1; 2; 0] = tsum (map (slice_total two_slices) (seq 0 2))
  /\ 5 = tsum [1; 0; 1; 0; 1; 2; 0]
  /\ dxx_common_length
       {| dxx_segments := [1; 0; 1; 0; 1; 2; 0];
          dxx_column := [0; 0; 1; 1; 0; 1; 1];
          dxx_depth := [0; 0; 0; 0; 1; 1; 1];
          dxx_lockid := [0; 0; 0; 0; 0; 0; 0];
          dxx_maxid := [0; 0; 0; 0; 0; 0; 0];
          dxx_offsets := [0; 1; 1; 2; 2; 3; 5];
          current_offset := 5; current_maxid := 0 |} 7.
Proof.
  apply (segments_tile_blocks zero_heaps two_slices false 2 2 2
           {| dxx_segments := [1; 0; 1; 0; 1; 2; 0];
              dxx_column := [0; 0; 1; 1; 0; 1; 1];
              dxx_depth := [0; 0; 0; 0; 1; 1; 1];
              dxx_lockid := [0; 0; 0; 0; 0; 0; 0];
              dxx_maxid := [0; 0; 0; 0; 0; 0; 0];
              dxx_offsets := [0; 1; 1; 2; 2; 3; 5];
              current_offset := 5; current_maxid := 0 |}).
  - reflexivity.
  - repeat constructor; lia.
  - vm_compute. reflexivity.
Defined.

Lemma constant_sorted (x : Z) (n : nat) : StronglySorted Z.le (replicate n x).
Proof.
  induction n as [|n IH]; [constructor|]. simpl. constructor; [done|].
  apply Forall_forall. intros y ->%elem_of_replicate_inv. lia.
Qed.

Lemma map_const_replicate {A} (x : Z) (l : list A) :
  map (fun _ => x) l = replicate (length l) x.
Proof. induction l as [|y l IH]; simpl; [done | by rewrite IH]. Qed.

(** What the loop over the slices [a, a + n) appends to the depth vector. *)
Lemma dxx_loop_depth mem layout trans (n : nat) : forall (a : nat) st st',
  Forall (fun x => 0 <= x) (data layout) ->
  dxx_loop mem layout trans (seq a n) st = Ok st' ->
  exists added,
    dxx_depth st' = dxx_depth st ++ added
    /\ StronglySorted Z.le added
    /\ Forall (fun d => Z.of_nat a <= d < Z.of_nat (a + n)) added
    /\ forall z, (a <= z < a + n)%nat -> Z.of_nat z ∈ added.
Proof.
  induction n as [|n IH]; intros a st st' Hnn Hrun.
  - cbn in Hrun. injection Hrun as <-. exists []. rewrite app_nil_r.
    split; [done|]. split; [constructor|]. split; [constructor|]. lia.
  - cbn [seq dxx_loop] in Hrun.
    destruct (decide (has_nonzero (slice_sizes layout trans a))) as [Hnz | Hno];
      [|by rewrite (dxx_slice_raises _ _ _ _ _ Hno) in Hrun].
    destruct (dxx_slice_returns (mem a) layout trans a st Hnn Hnz)
      as (lb & Hlb & _ & Hslice).
    rewrite Hslice in Hrun. cbn [bind] in Hrun.
    destruct (load_balance_ok_unlocked _ _ _
                (slice_sizes_nonneg layout trans a Hnn) Hlb) as (Hne & _ & Hlen).
    apply IH in Hrun as (added & Hd & Hs & Hr & Hin); [|done].
    cbn [dxx_depth] in Hd. rewrite <- app_assoc in Hd.
    eexists. split; [exact Hd|]. rewrite map_const_replicate.
    rewrite Forall_forall in Hr. split; [|split].
    + apply StronglySorted_app_2; [|apply constant_sorted|done].
      intros x1 x2 ->%elem_of_replicate_inv Hx2. apply Hr in Hx2. lia.
    + apply Forall_app. split.
      * apply Forall_forall. intros x ->%elem_of_replicate_inv. lia.
      * apply Forall_forall. intros x Hx%Hr. lia.
    + intros z Hz. apply elem_of_app.
      destruct (decide (z = a)) as [-> | Hne'].
      * left. apply elem_of_replicate. split; [done|].
        destruct (segments lb), (lockid lb); simpl in *; done.
      * right. apply Hin. lia.
Qed.

(** X9: the depth vector of the schedule is non-decreasing, so the segments
    of one depth slice are adjacent and the slices follow in order; every
    entry is a slice index, and every slice owns at least one segment. *)
Theorem depth_slices_in_order (mem : nat -> heap) (layout : tensor) (trans : bool)
  (nz nh nw : nat) (st : dxx_state) :
  shape layout = [nz; nh; nw] ->
  Forall (fun x => 0 <= x) (data layout) ->
  make_dxx_lut_balance mem layout trans = Ok st ->
  StronglySorted Z.le (dxx_depth st)
  /\ Forall (fun d => 0 <= d < Z.of_nat nz) (dxx_depth st)
  /\ forall z, (z < nz)%nat -> Z.of_nat z ∈ dxx_depth st.
Proof.
  intros Hshape Hnn Hrun. unfold make_dxx_lut_balance in Hrun.
  rewrite Hshape in Hrun.
  apply dxx_loop_depth in Hrun as (added & Hd & Hs & Hr & Hin); [|done].
  cbn [dxx_depth app] in Hd. rewrite Hd.
  split; [done|]. split; [done|]. intros z Hz. apply Hin. lia.
Qed.

Lemma depth_slices_in_order_witness :
  StronglySorted Z.le [0; 0; 0; 0; 1; 1; 1]
  /\ Forall (fun d => 0 <= d < Z.of_nat 2) [0; 0; 0; 0; 1; 1; 1]
  /\ forall z, (z < 2)%nat -> Z.of_nat z ∈ [0; 0; 0; 0; 1; 1; 1].
Proof.
  apply (depth_slices_in_order zero_heaps two_slices false 2 2 2
           {| dxx_segments := [1; 0; 1; 0; 1; 2; 0];
              dxx_column := [0; 0; 1; 1; 0; 1; 1];
              dxx_depth := [0; 0; 0; 0; 1; 1; 1];
              dxx_lockid := [0; 0; 0; 0; 0; 0; 0];
              dxx_maxid := [0; 0; 0; 0; 0; 0; 0];
              dxx_offsets := [0; 1; 1; 2; 2; 3; 5];
              current_offset := 5; current_maxid := 0 |}).
  - reflexivity.
  - repeat constructor; lia.
  - vm_compute. reflexivity.
Defined.

(** * Further properties of the launchers *)

Lemma seqZ_shift (off n : Z) :
  map (fun p => p + off) (seqZ 0 n) = seqZ off n.
Proof.
  transitivity (Z.add off <$> seqZ 0 n); [apply map_ext; intros p; lia|].
  rewrite fmap_add_seqZ. f_equal. lia.
Qed.

(** [n] full chunks of [m] cells starting at [off]. *)
Lemma full_chunks (m off : Z) (n : nat) :
  0 <= m ->
  concat (map (fun k => seqZ (off + k * m) m) (seqZ 0 (Z.of_nat n)))
  = seqZ off (Z.of_nat n * m).
Proof.
  intros Hm. induction n as [|n IH]; [done|].
  rewrite seqZ_S, map_app, concat_app, IH. cbn [map concat]. rewrite app_nil_r.
  replace (Z.of_nat (S n) * m) with (Z.of_nat n * m + m) by lia.
  rewrite seqZ_app by lia. reflexivity.
Qed.

(** The chunks of at most [m] cells that cover [0, w). *)
Lemma chunks_cover (m w : Z) :
  0 < m ->
  concat (map (fun k => seqZ (k * m) (Z.min m (w - k * m)))
              (seqZ 0 ((w + m - 1) / m)))
  = seqZ 0 w.
Proof.
  intros Hm. destruct (Z.le_gt_cases w 0) as [Hw | Hw].
  - assert ((w + m - 1) / m <= 0) as Hn.
    { apply Z.lt_succ_r. apply Z.div_lt_upper_bound; lia. }
    by rewrite !seqZ_nil by lia.
  - set (n := (w - 1) / m).
    assert (0 <= n) as Hn0 by (apply Z.div_pos; lia).
    assert (n * m <= w - 1 < (n + 1) * m) as Hn.
    { unfold n. pose proof (Z.mul_div_le (w - 1) m Hm).
      pose proof (Z.mul_succ_div_gt (w - 1) m Hm). lia. }
    assert ((w + m - 1) / m = n + 1) as ->.
    { unfold n. replace (w + m - 1) with (w - 1 + 1 * m) by lia.
      by rewrite Z.div_add by lia. }
    assert (exists nn : nat, n = Z.of_nat nn) as [nn Hnn]
      by (exists (Z.to_nat n); lia).
    replace (n + 1) with (Z.of_nat (S nn)) by lia.
    rewrite seqZ_S, map_app, concat_app. cbn [map concat]. rewrite app_nil_r.
    rewrite Z.add_0_l, <- Hnn.
    replace (Z.min m (w - n * m)) with (w - n * m) by lia.
    transitivity (seqZ 0 (n * m + (w - n * m))); [|f_equal; lia].
    rewrite seqZ_app by lia. rewrite Z.add_0_l. f_equal.
    clearbody n. subst n. rewrite <- (full_chunks m 0 nn) by lia.
    f_equal. apply map_ext_in.
    intros k Hk. apply list_elem_of_In, elem_of_seqZ in Hk.
    rewrite Z.add_0_l. f_equal. nia.
Qed.

(** X10: the launches of [_sdd_kernel] for a group of [width] super-blocks
    compute every super-block 0, ..., [width] - 1 exactly once and in
    order, and no launch has more than 65535 programs along its second
    axis, nor fewer than one. *)
Theorem sdd_launches_cover (width batch : Z) :
  concat (map launch_superblocks (sdd_launches width batch)) = seqZ 0 width
  /\ Forall (fun launch =>
               exists n, launch.2 = [1; n; batch] /\ 1 <= n <= max_grid)
            (sdd_launches width batch).
Proof.
  unfold sdd_launches, py_range. rewrite !map_map. split.
  - rewrite <- (chunks_cover max_grid width) by done.
    rewrite Z.sub_0_r. f_equal. apply map_ext. intros k.
    unfold launch_superblocks. cbn [fst snd lookup list_lookup default].
    simpl. rewrite seqZ_shift. done.
  - apply Forall_forall. intros launch Hin.
    apply list_elem_of_fmap in Hin as (k & -> & Hk%elem_of_seqZ).
    eexists. split; [done|]. cbn [fst snd].
    rewrite Z.sub_0_r in Hk. unfold max_grid in *.
    assert (k * 65535 < width).
    { destruct Hk as [Hk0 Hk1]. rewrite Z.add_0_l in Hk1.
      assert (k * 65535 <= (width + 65535 - 1) / 65535 * 65535 - 65535) by lia.
      pose proof (Z.mul_div_le (width + 65535 - 1) 65535 ltac:(lia)). lia. }
    lia.
Qed.

(** * Further properties of validation and of the call *)

Lemma add_extra_dims_spec (x x' : operand) :
  add_extra_dims x = Ok x' <-> (ndim x <= 4)%nat /\ x' = padded x.
Proof.
  unfold add_extra_dims, padded. split.
  - destruct (Z.ltb_spec 0 (4 - Z.of_nat (ndim x))).
    + intros [= <-]. split; [lia|].
      by replace (Z.to_nat (4 - Z.of_nat (ndim x))) with (4 - ndim x)%nat by lia.
    + destruct (Z.ltb_spec (4 - Z.of_nat (ndim x)) 0); [done|].
      intros [= <-]. split; [lia|].
      replace (4 - ndim x)%nat with 0%nat by lia. by destruct x.
  - intros [Hx ->]. destruct (Z.ltb_spec 0 (4 - Z.of_nat (ndim x))).
    + by replace (Z.to_nat (4 - Z.of_nat (ndim x))) with (4 - ndim x)%nat by lia.
    + destruct (Z.ltb_spec (4 - Z.of_nat (ndim x)) 0); [lia|].
      replace (4 - ndim x)%nat with 0%nat by lia. by destruct x.
Qed.

Lemma check_shapes_cast self autocast a b :
  check_shapes self (cast autocast a) (cast autocast b) = check_shapes self a b.
Proof. destruct autocast; [apply check_shapes_half | done]. Qed.

Lemma validate_inputs_unguarded self autocast a b :
  ~ guards_pass autocast a b ->
  exists e, validate_inputs self autocast a b = Raise e.
Proof.
  intros Hno. unfold validate_inputs.
  destruct (decide (op_device a = op_device b)) as [Hdev | Hdev];
    [rewrite (bool_decide_eq_true_2 _ Hdev)
    | rewrite (bool_decide_eq_false_2 _ Hdev); by eexists].
  cbn [negb]. destruct (is_cuda a) eqn:Hcuda; cbn [negb]; [|by eexists].
  destruct autocast; [exfalso; apply Hno; repeat split; auto|].
  destruct (decide (op_dtype a = op_dtype b)) as [Hdt | Hdt];
    [exfalso; apply Hno; repeat split; auto|].
  rewrite (bool_decide_eq_false_2 _ Hdt). by eexists.
Qed.

(** When validation returns. *)
Lemma validate_inputs_ok self autocast a b a' b' :
  validate_inputs self autocast a b = Ok (a', b')
  <-> guards_pass autocast a b /\ check_shapes self a b = Ok tt
      /\ (ndim a <= 4)%nat /\ (ndim b <= 4)%nat
      /\ a' = padded (cast autocast a) /\ b' = padded (cast autocast b).
Proof.
  assert (forall x, ndim (cast autocast x) = ndim x) as Hnd
    by (intros x; by destruct autocast).
  split.
  - intros Hv.
    destruct (decide (guards_pass autocast a b)) as [Hg | Hg];
      [|destruct (validate_inputs_unguarded self autocast a b Hg) as [e He];
        by rewrite He in Hv].
    rewrite (validate_inputs_guarded _ _ _ _ Hg) in Hv.
    destruct (check_shapes self a b) as [[]|] eqn:Hc; cbn [bind] in Hv; [|done].
    fold (cast autocast a) (cast autocast b) in Hv.
    destruct (add_extra_dims (cast autocast a)) as [xa|] eqn:Ha;
      cbn [bind] in Hv; [|done].
    destruct (add_extra_dims (cast autocast b)) as [xb|] eqn:Hb;
      cbn [bind] in Hv; [|done].
    injection Hv as <- <-.
    apply add_extra_dims_spec in Ha as [Ha ->].
    apply add_extra_dims_spec in Hb as [Hb ->].
    rewrite Hnd in Ha, Hb. done.
  - intros (Hg & Hc & Ha & Hb & -> & ->).
    rewrite (validate_inputs_guarded _ _ _ _ Hg), Hc. cbn [bind].
    fold (cast autocast a) (cast autocast b).
    rewrite (proj2 (add_extra_dims_spec (cast autocast a)
                      (padded (cast autocast a))));
      [|by rewrite Hnd].
    rewrite (proj2 (add_extra_dims_spec (cast autocast b)
                      (padded (cast autocast b))));
      [|by rewrite Hnd].
    done.
Qed.

(** X11: validation returns exactly when the operands are on one device,
    that device is a GPU, the dtypes agree or autocast is on, the shape
    checks pass and neither operand has more than four dimensions. What it
    returns are the operands padded with leading dimensions of size 1 to
    rank 4, cast to float16 when autocast is on, and otherwise
    unchanged. *)
Theorem validation_returns_iff (self : matmul) (autocast : bool) (a b : operand) :
  ((exists ab, validate_inputs self autocast a b = Ok ab)
   <-> guards_pass autocast a b /\ check_shapes self a b = Ok tt
       /\ (ndim a <= 4)%nat /\ (ndim b <= 4)%nat)
  /\ (forall a' b',
        validate_inputs self autocast a b = Ok (a', b') ->
        op_shape a' = replicate (4 - ndim a) 1 ++ op_shape a
        /\ op_shape b' = replicate (4 - ndim b) 1 ++ op_shape b
        /\ op_device a' = op_device a /\ op_device b' = op_device b
        /\ op_dtype a' = (if autocast then float16 else op_dtype a)
        /\ op_dtype b' = (if autocast then float16 else op_dtype b)).
Proof.
  split.
  - split.
    + intros [[a' b'] Hv]. apply validate_inputs_ok in Hv. tauto.
    + intros (Hg & Hc & Ha & Hb). eexists (_, _).
      apply validate_inputs_ok.
      split; [done|]. split; [done|]. split; [done|]. split; [done|].
      split; reflexivity.
  - intros a' b' Hv. apply validate_inputs_ok in Hv as (_ & _ & _ & _ & -> & ->).
    by destruct autocast.
Qed.

(** What [__init__] stores of the layout: its shape with a leading 1 when
    it has rank 2. *)
Lemma matmul_init_spdims layout block mode ta tb self :
  matmul_init layout block mode ta tb = Ok self ->
  exists (z0 H W : nat),
    self_spdims self = [z0; H; W]
    /\ tuple_item (shape layout) (-2) = Ok H
    /\ tuple_item (shape layout) (-1) = Ok W.
Proof.
  intros Hinit.
  destruct (matmul_init_attrs _ _ _ _ _ _ Hinit) as (_ & _ & Hrank & _).
  unfold matmul_init in Hinit.
  destruct (negb (bool_decide (mode ∈ supported_modes))); [done|].
  destruct (negb (bool_decide (length (shape layout) ∈ [2; 3]%nat))); [done|].
  match type of Hinit with
  | bind ?c _ = _ => destruct c as [attrs|]; cbn [bind] in Hinit; [|done]
  end.
  injection Hinit as <-. cbn [self_spdims].
  destruct (rank_2_or_3 _ Hrank) as [(x & y & Hs) | (x & y & z & Hs)];
    rewrite Hs; cbn; by eexists _, _, _.
Qed.

(** A negative index reads the same entry after padding in front. *)
Lemma tuple_item_padded (pre t : list Z) (i v : Z) :
  i < 0 -> tuple_item t i = Ok v -> tuple_item (pre ++ t) i = Ok v.
Proof.
  unfold tuple_item, item_index. intros Hi.
  destruct (Z.ltb_spec i 0); [|lia].
  destruct (Z.leb_spec 0 (i + Z.of_nat (length t))); cbn [andb bind]; [|done].
  destruct (Z.ltb_spec (i + Z.of_nat (length t)) (Z.of_nat (length t)));
    cbn [bind]; [|done].
  rewrite length_app.
  destruct (Z.leb_spec 0 (i + Z.of_nat (length pre + length t))); [|lia].
  destruct (Z.ltb_spec (i + Z.of_nat (length pre + length t))
              (Z.of_nat (length pre + length t))); [|lia].
  cbn [andb bind].
  replace (Z.to_nat (i + Z.of_nat (length pre + length t)))
    with (length pre + Z.to_nat (i + Z.of_nat (length t)))%nat by lia.
  rewrite lookup_app_r by lia.
  replace (length pre + Z.to_nat (i + Z.of_nat (length t)) - length pre)%nat
    with (Z.to_nat (i + Z.of_nat (length t))) by lia.
  done.
Qed.

(** What passing the shape checks says in a dense-output mode. *)
Lemma check_shapes_ok_dense_output layout block mode ta tb self a b :
  matmul_init layout block mode ta tb = Ok self ->
  mode <> "sdd"%string ->
  check_shapes self a b = Ok tt ->
  exists inner : nat,
    tuple_item (shape layout) (sparse_inner_of mode ta tb) = Ok inner
    /\ tuple_item (op_shape (dense_of mode a b).1) (dense_inner_of mode ta tb)
       = Ok (Z.of_nat inner * block)
    /\ tuple_from (op_shape (sparse_of mode a b).1) (-3)
       = [tsum (data layout); block; block].
Proof.
  intros Hinit Hmode Hc.
  destruct (matmul_init_attrs _ _ _ _ _ _ Hinit) as (Hm & _ & _ & Hattrs).
  destruct (Hattrs Hmode) as (inner & Hinner & Hdim & Hsize & Hshape).
  exists inner. split; [done|].
  destruct (tuple_item (op_shape (dense_of mode a b).1) (dense_inner_of mode ta tb))
    as [got|e] eqn:Hgot.
  - rewrite (check_shapes_dense_output _ _ _ _ _ _ a b _ _
               Hinit Hmode Hinner Hgot) in Hc.
    destruct (Z.eqb_spec got (Z.of_nat inner * block)) as [Heq | Hne];
      cbn [negb] in Hc; [|done].
    split; [by rewrite Heq|].
    destruct (decide (tuple_from (op_shape (sparse_of mode a b).1) (-3)
                      = [tsum (data layout); block; block])) as [Hsp | Hsp];
      [done|].
    by rewrite (bool_decide_eq_false_2 _ Hsp) in Hc.
  - exfalso. unfold check_shapes in Hc. rewrite Hm, Hdim in Hc.
    rewrite (bool_decide_eq_false_2 _ Hmode) in Hc. cbn [negb attribute bind] in Hc.
    unfold dense_of in Hgot.
    destruct (bool_decide (mode = "dds"%string)); cbn [fst] in Hgot;
      by rewrite Hgot in Hc.
Qed.

Lemma tuple_from_rank3 (t : list Z) (x y z : Z) :
  tuple_from t (-3) = [x; y; z] -> (3 <= length t)%nat.
Proof.
  unfold tuple_from, slice_bound. cbn. intros H.
  apply (f_equal length) in H. rewrite length_drop in H. simpl in H. lia.
Qed.

Lemma padded_rank (x : operand) :
  (ndim x <= 4)%nat -> length (op_shape (padded x)) = 4%nat.
Proof.
  intros Hx. unfold padded, ndim in *. cbn [op_shape].
  rewrite length_app, length_replicate. lia.
Qed.

(** The leading dimension of a padded operand of rank below 4 is 1. *)
Lemma padded_leading_one (x : operand) (d0 d1 d2 d3 : Z) :
  (ndim x < 4)%nat -> op_shape (padded x) = [d0; d1; d2; d3] -> d0 = 1.
Proof.
  unfold padded, ndim. cbn [op_shape]. intros Hx Hs.
  destruct (4 - length (op_shape x))%nat as [|n] eqn:Hn; [lia|].
  simpl in Hs. by injection Hs.
Qed.

(** Trimming a result of rank 4 whose leading dimension is 1 whenever a
    dimension has to go. *)
Lemma trim_rank4 (a b c : operand) (c0 c1 c2 c3 : Z) :
  op_shape c = [c0; c1; c2; c3] ->
  (3 <= Nat.max (ndim a) (ndim b) <= 4)%nat ->
  (Nat.max (ndim a) (ndim b) = 3%nat -> c0 = 1) ->
  ndim (trim_result a b c) = Nat.max (ndim a) (ndim b)
  /\ op_shape (trim_result a b c)
     = drop (4 - Nat.max (ndim a) (ndim b)) (op_shape c).
Proof.
  intros Hc Hmax H1. unfold trim_result, trim_leading.
  assert (ndim c = 4%nat) as -> by (unfold ndim; by rewrite Hc).
  destruct (decide (Nat.max (ndim a) (ndim b) = 3%nat)) as [H3 | H3].
  - rewrite H3. change (Z.to_nat (Z.of_nat 4 - Z.of_nat 3)) with 1%nat.
    cbn [Nat.iter nat_rect]. unfold squeeze0, ndim. rewrite Hc, (H1 H3). done.
  - replace (Nat.max (ndim a) (ndim b)) with 4%nat by lia.
    change (Z.to_nat (Z.of_nat 4 - Z.of_nat 4)) with 0%nat.
    cbn [Nat.iter nat_rect]. unfold ndim. by rewrite Hc.
Qed.

Lemma rank4_shape (t : list Z) :
  length t = 4%nat -> exists d0 d1 d2 d3, t = [d0; d1; d2; d3].
Proof.
  destruct t as [|d0 [|d1 [|d2 [|d3 [|]]]]]; try done. by eexists _, _, _, _.
Qed.

Lemma cast_shape (autocast : bool) (x : operand) :
  op_shape (cast autocast x) = op_shape x.
Proof. by destruct autocast. Qed.

Lemma cast_ndim (autocast : bool) (x : operand) : ndim (cast autocast x) = ndim x.
Proof. by destruct autocast. Qed.

(** X12: a forward call in mode dsd that passes validation multiplies as
    the shapes say. With the layout H x W blocks, the sparse operand stands
    for a matrix of [rows * block] by [inner * block], where [(rows, inner)]
    is [(H, W)], or [(W, H)] under [trans_a]; validation has made the dense
    operand [inner * block] by [N] (by [N] and [inner * block] under
    [trans_b]) behind two leading dimensions; and [dsd_matmul] allocates the
    output [rows * block] by [N] behind the same leading dimensions, on a
    grid of [width] segments, enough tiles of 128 columns, and one plane per
    leading entry. The trimmed result has the rank of the larger operand. *)
Theorem dsd_output_shape (layout : tensor) (block : Z) (ta tb : bool)
  (self : matmul) (autocast : bool) (a b a' b' : operand) (width : Z) :
  matmul_init layout block "dsd" ta tb = Ok self ->
  validate_inputs self autocast a b = Ok (a', b') ->
  exists (H W : nat) (b0 b1 N : Z) (c : operand),
    tuple_item (shape layout) (-2) = Ok H
    /\ tuple_item (shape layout) (-1) = Ok W
    /\ op_shape b'
       = (if tb then [b0; b1; N; Z.of_nat (if ta then H else W) * block]
          else [b0; b1; Z.of_nat (if ta then H else W) * block; N])
    /\ dsd_matmul a' b' ta tb false (self_spdims self) block width
       = Ok (c, [width; cdiv N 128; b0])
    /\ op_shape c = [b0; b1; block * Z.of_nat (if ta then W else H); N]
    /\ ndim (trim_result a b c) = Nat.max (ndim a) (ndim b)
    /\ op_shape (trim_result a b c)
       = drop (4 - Nat.max (ndim a) (ndim b)) (op_shape c).
Proof.
  intros Hinit Hv.
  apply validate_inputs_ok in Hv as (Hg & Hc & Ha & Hb & -> & ->).
  destruct (matmul_init_spdims _ _ _ _ _ _ Hinit) as (z0 & H & W & Hsp & HH & HW).
  destruct (check_shapes_ok_dense_output _ _ _ _ _ _ a b Hinit ltac:(done) Hc)
    as (inner & Hinner & Hdense & Hsparse).
  unfold dense_of, sparse_of, sparse_inner_of, dense_inner_of in *.
  change (bool_decide ("dsd"%string = "dds"%string)) with false in *.
  change (bool_decide ("dsd"%string = "dsd"%string)) with true in *.
  cbn [fst snd] in *.
  assert (inner = if ta then H else W) as ->.
  { destruct ta; rewrite Hinner in *; congruence. }
  apply tuple_from_rank3 in Hsparse.
  destruct (rank4_shape (op_shape (padded (cast autocast a))))
    as (a0 & a1 & a2 & a3 & Hsa); [apply padded_rank; by rewrite cast_ndim|].
  destruct (rank4_shape (op_shape (padded (cast autocast b))))
    as (b0 & b1 & b2 & b3 & Hsb); [apply padded_rank; by rewrite cast_ndim|].
  assert (tuple_item (op_shape (padded (cast autocast b))) (if tb then -1 else -2)
          = Ok (Z.of_nat (if ta then H else W) * block)) as Hitem.
  { unfold padded. cbn [op_shape]. apply tuple_item_padded; [by destruct tb|].
    by rewrite cast_shape. }
  rewrite Hsb in Hitem.
  exists H, W, b0, b1, (if tb then b2 else b3).
  exists {| op_shape := [b0; b1; block * Z.of_nat (if ta then W else H);
                         if tb then b2 else b3];
            op_device := op_device (padded (cast autocast a));
            op_dtype := op_dtype (padded (cast autocast a)) |}.
  split; [done|]. split; [done|]. split.
  { rewrite Hsb. destruct tb; cbn in Hitem; injection Hitem as <-; done. }
  split.
  { unfold dsd_matmul, size, has_stride. rewrite Hsp, Hsa, Hsb.
    destruct ta, tb; cbn; reflexivity. }
  split; [done|].
  apply (trim_rank4 a b _ b0 b1 (block * Z.of_nat (if ta then W else H))
           (if tb then b2 else b3)); [done| |].
  - unfold ndim in *. lia.
  - intros Hmax. apply (padded_leading_one (cast autocast b) b0 b1 b2 b3);
      [rewrite cast_ndim; unfold ndim in *; lia | done].
Qed.

Lemma dsd_output_shape_witness :
  exists (H W : nat) (b0 b1 N : Z) (c : operand),
    tuple_item (shape diagonal_layout) (-2) = Ok H
    /\ tuple_item (shape diagonal_layout) (-1) = Ok W
    /\ op_shape (padded dense_32_64) = [b0; b1; Z.of_nat W * 16; N]
    /\ dsd_matmul (padded sparse_2_blocks) (padded dense_32_64) false false false
         (self_spdims (diagonal_scheduler "dsd")) 16 3
       = Ok (c, [3; cdiv N 128; b0])
    /\ op_shape c = [b0; b1; 16 * Z.of_nat H; N]
    /\ ndim (trim_result sparse_2_blocks dense_32_64 c)
       = Nat.max (ndim sparse_2_blocks) (ndim dense_32_64)
    /\ op_shape (trim_result sparse_2_blocks dense_32_64 c)
       = drop (4 - Nat.max (ndim sparse_2_blocks) (ndim dense_32_64)) (op_shape c).
Proof.
  apply (dsd_output_shape diagonal_layout 16 false false
           (diagonal_scheduler "dsd") false sparse_2_blocks dense_32_64).
  - reflexivity.
  - reflexivity.
Defined.

(** X13: the same for mode dds. The sparse operand stands for a matrix of
    [inner * block] by [cols * block], where [(inner, cols)] is [(H, W)], or
    [(W, H)] under [trans_b]; validation has made the dense operand [M] by
    [inner * block] (transposed under [trans_a]) behind two leading
    dimensions; and [dds_matmul] allocates the output [M] by [cols * block]
    behind them, on a grid of [width] segments, enough tiles of 128 rows and
    one plane per leading entry. The trimmed result has the rank of the
    larger operand. *)
Theorem dds_output_shape (layout : tensor) (block : Z) (ta tb : bool)
  (self : matmul) (autocast : bool) (a b a' b' : operand) (width : Z) :
  matmul_init layout block "dds" ta tb = Ok self ->
  validate_inputs self autocast a b = Ok (a', b') ->
  exists (H W : nat) (a0 a1 M : Z) (c : operand),
    tuple_item (shape layout) (-2) = Ok H
    /\ tuple_item (shape layout) (-1) = Ok W
    /\ op_shape a'
       = (if ta then [a0; a1; Z.of_nat (if tb then W else H) * block; M]
          else [a0; a1; M; Z.of_nat (if tb then W else H) * block])
    /\ dds_matmul a' b' ta tb false (self_spdims self) block width
       = Ok (c, [width; cdiv M 128; a0])
    /\ op_shape c = [a0; a1; M; block * Z.of_nat (if tb then H else W)]
    /\ ndim (trim_result a b c) = Nat.max (ndim a) (ndim b)
    /\ op_shape (trim_result a b c)
       = drop (4 - Nat.max (ndim a) (ndim b)) (op_shape c).
Proof.
  intros Hinit Hv.
  apply validate_inputs_ok in Hv as (Hg & Hc & Ha & Hb & -> & ->).
  destruct (matmul_init_spdims _ _ _ _ _ _ Hinit) as (z0 & H & W & Hsp & HH & HW).
  destruct (check_shapes_ok_dense_output _ _ _ _ _ _ a b Hinit ltac:(done) Hc)
    as (inner & Hinner & Hdense & Hsparse).
  unfold dense_of, sparse_of, sparse_inner_of, dense_inner_of in *.
  change (bool_decide ("dds"%string = "dds"%string)) with true in *.
  change (bool_decide ("dds"%string = "dsd"%string)) with false in *.
  cbn [fst snd] in *.
  assert (inner = if tb then W else H) as ->.
  { destruct tb; rewrite Hinner in *; congruence. }
  apply tuple_from_rank3 in Hsparse.
  destruct (rank4_shape (op_shape (padded (cast autocast a))))
    as (a0 & a1 & a2 & a3 & Hsa); [apply padded_rank; by rewrite cast_ndim|].
  destruct (rank4_shape (op_shape (padded (cast autocast b))))
    as (b0 & b1 & b2 & b3 & Hsb); [apply padded_rank; by rewrite cast_ndim|].
  assert (tuple_item (op_shape (padded (cast autocast a))) (if ta then -2 else -1)
          = Ok (Z.of_nat (if tb then W else H) * block)) as Hitem.
  { unfold padded. cbn [op_shape]. apply tuple_item_padded; [by destruct ta|].
    by rewrite cast_shape. }
  rewrite Hsa in Hitem.
  exists H, W, a0, a1, (if ta then a3 else a2).
  exists {| op_shape := [a0; a1; if ta then a3 else a2;
                         block * Z.of_nat (if tb then H else W)];
            op_device := op_device (padded (cast autocast a));
            op_dtype := op_dtype (padded (cast autocast a)) |}.
  split; [done|]. split; [done|]. split.
  { rewrite Hsa. destruct ta; cbn in Hitem; injection Hitem as <-; done. }
  split.
  { unfold dds_matmul, size, has_stride. rewrite Hsp, Hsa, Hsb.
    destruct ta, tb; cbn; reflexivity. }
  split; [done|].
  apply (trim_rank4 a b _ a0 a1 (if ta then a3 else a2)
           (block * Z.of_nat (if tb then H else W))); [done| |].
  - unfold ndim in *. lia.
  - intros Hmax. apply (padded_leading_one (cast autocast a) a0 a1 a2 a3);
      [rewrite cast_ndim; unfold ndim in *; lia | done].
Qed.

Lemma dds_output_shape_witness :
  exists (H W : nat) (a0 a1 M : Z) (c : operand),
    tuple_item (shape diagonal_layout) (-2) = Ok H
    /\ tuple_item (shape diagonal_layout) (-1) = Ok W
    /\ op_shape (padded dense_64_32) = [a0; a1; M; Z.of_nat H * 16]
    /\ dds_matmul (padded dense_64_32) (padded sparse_2_blocks) false false false
         (self_spdims (diagonal_scheduler "dds")) 16 3
       = Ok (c, [3; cdiv M 128; a0])
    /\ op_shape c = [a0; a1; M; 16 * Z.of_nat W]
    /\ ndim (trim_result dense_64_32 sparse_2_blocks c)
       = Nat.max (ndim dense_64_32) (ndim sparse_2_blocks)
    /\ op_shape (trim_result dense_64_32 sparse_2_blocks c)
       = drop (4 - Nat.max (ndim dense_64_32) (ndim sparse_2_blocks)) (op_shape c).
Proof.
  apply (dds_output_shape diagonal_layout 16 false false
           (diagonal_scheduler "dds") false dense_64_32 sparse_2_blocks).
  - reflexivity.
  - reflexivity.
Defined.

Lemma padded_leading_ones (x : operand) (d0 d1 d2 d3 : Z) :
  (ndim x <= 2)%nat -> op_shape (padded x) = [d0; d1; d2; d3] ->
  d0 = 1 /\ d1 = 1.
Proof.
  unfold padded, ndim. cbn [op_shape]. intros Hx Hs.
  destruct (4 - length (op_shape x))%nat as [|[|n]] eqn:Hn; [lia | lia|].
  simpl in Hs. by injection Hs as <- <-.
Qed.

(** X14: a forward call in mode sdd whose operands pass validation and
    agree on a reduction size that is a multiple of 16 returns the stored
    blocks: [sdd_matmul] allocates [n_blocks] blocks of [block] x [block]
    behind the leading dimension of [a]. Trimmed for operands of rank 4 or
    3 the result keeps, respectively drops, that leading dimension. For two
    matrices the result is not a matrix: it is the stack of blocks, of rank
    3, unless exactly one block is stored, in which case that dimension is
    squeezed away as well. *)
Theorem sdd_output_shape (layout : tensor) (block : Z) (ta tb : bool)
  (self : matmul) (autocast : bool) (a b a' b' : operand)
  (widths packs : list Z) (Ka : Z) :
  matmul_init layout block "sdd" ta tb = Ok self ->
  validate_inputs self autocast a b = Ok (a', b') ->
  tuple_item (op_shape a') (if ta then -2 else -1) = Ok Ka ->
  tuple_item (op_shape b') (if tb then -1 else -2) = Ok Ka ->
  Ka mod 16 = 0 ->
  exists (a0 : Z) (c : operand),
    tuple_item (op_shape a') 0 = Ok a0
    /\ sdd_matmul a' b' ta tb false block widths packs = Ok c
    /\ op_shape c = [a0; n_blocks_of widths packs; block; block]
    /\ (Nat.max (ndim a) (ndim b) = 4%nat ->
        op_shape (trim_result a b c) = op_shape c)
    /\ (Nat.max (ndim a) (ndim b) = 3%nat ->
        op_shape (trim_result a b c) = [n_blocks_of widths packs; block; block])
    /\ (Nat.max (ndim a) (ndim b) = 2%nat ->
        op_shape (trim_result a b c)
        = if n_blocks_of widths packs =? 1 then [block; block]
          else [n_blocks_of widths packs; block; block]).
Proof.
  intros Hinit Hv HKa HKb Hmod.
  apply validate_inputs_ok in Hv as (Hg & Hc & Ha & Hb & -> & ->).
  destruct (rank4_shape (op_shape (padded (cast autocast a))))
    as (a0 & a1 & a2 & a3 & Hsa); [apply padded_rank; by rewrite cast_ndim|].
  exists a0.
  exists {| op_shape := [a0; n_blocks_of widths packs; block; block];
            op_device := op_device (padded (cast autocast a));
            op_dtype := op_dtype (padded (cast autocast a)) |}.
  split; [by rewrite Hsa|]. split.
  { unfold sdd_matmul. rewrite HKa, HKb. cbn [bind].
    rewrite Z.eqb_refl, Hmod. cbn [negb Z.eqb]. rewrite Hsa. done. }
  split; [done|].
  unfold trim_result, trim_leading.
  match goal with
  | |- context [ndim ?c] =>
      lazymatch c with
      | {| op_shape := _ |} => change (ndim c) with 4%nat
      end
  end.
  split; [|split]; intros Hmax; rewrite Hmax.
  - done.
  - change (Z.to_nat (Z.of_nat 4 - Z.of_nat 3)) with 1%nat.
    cbn [Nat.iter nat_rect]. unfold squeeze0. cbn [op_shape].
    assert (a0 = 1) as ->.
    { apply (padded_leading_one (cast autocast a) a0 a1 a2 a3); [|done].
      rewrite cast_ndim. lia. }
    done.
  - change (Z.to_nat (Z.of_nat 4 - Z.of_nat 2)) with 2%nat.
    cbn [Nat.iter nat_rect]. unfold squeeze0 at 2. cbn [op_shape].
    assert (a0 = 1) as ->.
    { apply (padded_leading_ones (cast autocast a) a0 a1 a2 a3); [|done].
      rewrite cast_ndim. lia. }
    cbn [Z.eqb Pos.eqb]. unfold squeeze0. cbn [op_shape].
    by destruct (n_blocks_of widths packs =? 1).
Qed.

Lemma sdd_output_shape_witness :
  exists (a0 : Z) (c : operand),
    tuple_item (op_shape (padded dense_32_64)) 0 = Ok a0
    /\ sdd_matmul (padded dense_32_64) (padded dense_64_32) false false false
         16 [2] [1] = Ok c
    /\ op_shape c = [a0; n_blocks_of [2] [1]; 16; 16]
    /\ (Nat.max (ndim dense_32_64) (ndim dense_64_32) = 4%nat ->
        op_shape (trim_result dense_32_64 dense_64_32 c) = op_shape c)
    /\ (Nat.max (ndim dense_32_64) (ndim dense_64_32) = 3%nat ->
        op_shape (trim_result dense_32_64 dense_64_32 c)
        = [n_blocks_of [2] [1]; 16; 16])
    /\ (Nat.max (ndim dense_32_64) (ndim dense_64_32) = 2%nat ->
        op_shape (trim_result dense_32_64 dense_64_32 c)
        = if n_blocks_of [2] [1] =? 1 then [16; 16]
          else [n_blocks_of [2] [1]; 16; 16]).
Proof.
  apply (sdd_output_shape diagonal_layout 16 false false
           (diagonal_scheduler "sdd") false dense_32_64 dense_64_32 _ _ [2] [1] 64).
  - reflexivity.
  - reflexivity.
  - reflexivity.
  - reflexivity.
  - reflexivity.
Defined.

(** * Further properties of the tables and of the locks *)

(** X15: the table [make_lut] builds for a gradient is the table it would
    build for the output of a forward scheduler in the mode and with the
    transposition flags of the launch by which [backward] computes that
    gradient. So every gradient launch walks a table laid out for its own
    kernel and orientation. *)
Theorem gradient_tables_match_forward (self : matmul) (dev : device) :
  self_mode self ∈ supported_modes ->
  exists entry launch_da launch_db mode_da mode_db,
    build_luts self dev = Some entry
    /\ backward (context_of self (true, true))
       = Ok (Some launch_da, Some launch_db)
    /\ str_items (self_mode self) 1 0 2 = Ok mode_da
    /\ str_items (self_mode self) 2 1 0 = Ok mode_db
    /\ fn !! mode_da = Some (launch_fn launch_da)
    /\ fn !! mode_db = Some (launch_fn launch_db)
    /\ c_table <$> build_luts (rotated self mode_da (launch_trans_a launch_da)
                                 (launch_trans_b launch_da)) dev
       = Some (da_table entry)
    /\ c_table <$> build_luts (rotated self mode_db (launch_trans_a launch_db)
                                 (launch_trans_b launch_db)) dev
       = Some (db_table entry).
Proof.
  intros Hmode. apply supported_modes_cases in Hmode.
  destruct self as [block mode ta tb did dis ss layout spdims].
  cbn [self_mode] in Hmode.
  destruct Hmode as [-> | [-> | ->]]; destruct ta, tb;
    eexists _, _, _, _, _; repeat split; reflexivity.
Qed.

Lemma gradient_tables_match_forward_witness :
  exists entry launch_da launch_db mode_da mode_db,
    build_luts (diagonal_scheduler "dsd") (cuda 0) = Some entry
    /\ backward (context_of (diagonal_scheduler "dsd") (true, true))
       = Ok (Some launch_da, Some launch_db)
    /\ str_items (self_mode (diagonal_scheduler "dsd")) 1 0 2 = Ok mode_da
    /\ str_items (self_mode (diagonal_scheduler "dsd")) 2 1 0 = Ok mode_db
    /\ fn !! mode_da = Some (launch_fn launch_da)
    /\ fn !! mode_db = Some (launch_fn launch_db)
    /\ c_table <$> build_luts (rotated (diagonal_scheduler "dsd") mode_da
                                 (launch_trans_a launch_da)
                                 (launch_trans_b launch_da)) (cuda 0)
       = Some (da_table entry)
    /\ c_table <$> build_luts (rotated (diagonal_scheduler "dsd") mode_db
                                 (launch_trans_a launch_db)
                                 (launch_trans_b launch_db)) (cuda 0)
       = Some (db_table entry).
Proof.
  apply gradient_tables_match_forward.
  unfold supported_modes. simpl. rewrite !elem_of_cons. tauto.
Defined.

(** X16: the cache of tables, for a scheduler in a supported mode. A
    call of [make_lut] whose key (dtype, device) is stored returns the
    stored entry and changes nothing. Otherwise it runs the three builders
    in the order C, DA, DB and returns exactly when all three return. A
    returned entry is stored under the key, entries under other keys are
    not touched, a later call with that key returns it whatever the
    scheduler's flags are by then, and on a miss it holds what the builders
    returned, whatever the dtype. When the call raises, the exception is
    that of the first builder that raised, and the cache is as it was. *)
Theorem lut_cache_round_trip
  (superblock : list Z -> nat -> nat -> nat -> Z -> res (list (Z * list Z)))
  (mem : nat -> nat -> heap) (self : matmul)
  (lut_cache : gmap (dtype * device) cached_tables)
  (dt : dtype) (dev : device) :
  self_mode self ∈ supported_modes ->
  exists calls,
    build_luts self dev = Some calls
    /\ let c := run_call superblock (mem 0%nat) (c_table calls) in
       let da := run_call superblock (mem 1%nat) (da_table calls) in
       let db := run_call superblock (mem 2%nat) (db_table calls) in
       let out := make_lut superblock mem self lut_cache dt dev in
       (forall stored, lut_cache !! (dt, dev) = Some stored ->
                       out = (Ok stored, lut_cache))
       /\ (lut_cache !! (dt, dev) = None ->
           ((exists entry, out.1 = Ok entry)
            <-> (exists tc tda tdb, c = Ok tc /\ da = Ok tda /\ db = Ok tdb)))
       /\ (forall entry, out.1 = Ok entry ->
             out.2 !! (dt, dev) = Some entry
             /\ (forall key, key <> (dt, dev) -> out.2 !! key = lut_cache !! key)
             /\ (forall superblock' mem' self',
                   make_lut superblock' mem' self' out.2 dt dev
                   = (Ok entry, out.2))
             /\ (lut_cache !! (dt, dev) = None ->
                 c = Ok (c_lut entry) /\ da = Ok (da_lut entry)
                 /\ db = Ok (db_lut entry)
                 /\ forall dt', (make_lut superblock mem self ∅ dt' dev).1
                                = Ok entry))
       /\ (forall e, out.1 = Raise e ->
             out.2 = lut_cache /\ lut_cache !! (dt, dev) = None
             /\ (c = Raise e
                 \/ (exists tc, c = Ok tc /\ da = Raise e)
                 \/ (exists tc tda, c = Ok tc /\ da = Ok tda /\ db = Raise e))).
Proof.
  intros Hmode.
  assert (exists calls, build_luts self dev = Some calls) as [calls Hcalls].
  { apply supported_modes_cases in Hmode. unfold build_luts.
    destruct Hmode as [-> | [-> | ->]]; by eexists. }
  exists calls. split; [done|]. cbn zeta.
  assert (forall dt', (make_lut superblock mem self ∅ dt' dev).1
                      = (do c <- run_call superblock (mem 0%nat) (c_table calls);
                         do da <- run_call superblock (mem 1%nat) (da_table calls);
                         do db <- run_call superblock (mem 2%nat) (db_table calls);
                         Ok {| c_lut := c; da_lut := da; db_lut := db |}))
    as Hfresh.
  { intros dt'. unfold make_lut. rewrite lookup_empty, Hcalls.
    by destruct (do c <- run_call superblock (mem 0%nat) (c_table calls); _). }
  unfold make_lut in *. rewrite Hcalls.
  destruct (lut_cache !! (dt, dev)) as [stored|] eqn:Hkey.
  - split; [by intros ? [= ->]|]. split; [done|]. split.
    + intros entry [= ->]. cbn [fst snd]. split; [done|]. split; [done|].
      split; [|done]. intros superblock' mem' self'. by rewrite Hkey.
    + intros e He. done.
  - split; [done|].
    destruct (run_call superblock (mem 0%nat) (c_table calls)) as [tc|ec];
      cbn [bind fst snd] in *.
    2: { split; [intros _; split; [by intros [? ?]|by intros (? & ? & ? & ? & _)]|].
         split; [done|]. intros e [= ->]. split; [done|]. split; [done|].
         by left. }
    destruct (run_call superblock (mem 1%nat) (da_table calls)) as [tda|eda];
      cbn [bind fst snd] in *.
    2: { split; [intros _; split;
                 [by intros [? ?]|by intros (? & ? & ? & _ & ? & _)]|].
         split; [done|]. intros e [= ->]. split; [done|]. split; [done|].
         right; left. by exists tc. }
    destruct (run_call superblock (mem 2%nat) (db_table calls)) as [tdb|edb];
      cbn [bind fst snd] in *.
    2: { split; [intros _; split;
                 [by intros [? ?]|by intros (? & ? & ? & _ & _ & ?)]|].
         split; [done|]. intros e [= ->]. split; [done|]. split; [done|].
         right; right. by exists tc, tda. }
    split; [intros _; split; [intros _; by exists tc, tda, tdb|by eexists]|].
    split; [|done]. intros entry [= <-]. cbn [c_lut da_lut db_lut].
    split; [apply lookup_insert_eq|].
    split; [intros key Hne; by apply lookup_insert_ne|].
    split; [|done].
    intros superblock' mem' self'. by rewrite lookup_insert_eq.
Qed.

Lemma lut_cache_round_trip_witness :
  exists calls,
    build_luts (diagonal_scheduler "dds") (cuda 0) = Some calls
    /\ let c := run_call no_superblocks zero_heaps (c_table calls) in
       let da := run_call no_superblocks zero_heaps (da_table calls) in
       let db := run_call no_superblocks zero_heaps (db_table calls) in
       let out := make_lut no_superblocks (fun _ => zero_heaps)
                    (diagonal_scheduler "dds") ∅ float16 (cuda 0) in
       (forall stored,
           (∅ : gmap (dtype * device) cached_tables) !! (float16, cuda 0)
           = Some stored -> out = (Ok stored, ∅))
       /\ ((∅ : gmap (dtype * device) cached_tables) !! (float16, cuda 0) = None ->
           ((exists entry, out.1 = Ok entry)
            <-> (exists tc tda tdb, c = Ok tc /\ da = Ok tda /\ db = Ok tdb)))
       /\ (forall entry, out.1 = Ok entry ->
             out.2 !! (float16, cuda 0) = Some entry
             /\ (forall key, key <> (float16, cuda 0) ->
                   out.2 !! key
                   = (∅ : gmap (dtype * device) cached_tables) !! key)
             /\ (forall superblock' mem' self',
                   make_lut superblock' mem' self' out.2 float16 (cuda 0)
                   = (Ok entry, out.2))
             /\ ((∅ : gmap (dtype * device) cached_tables) !! (float16, cuda 0)
                 = None ->
                 c = Ok (c_lut entry) /\ da = Ok (da_lut entry)
                 /\ db = Ok (db_lut entry)
                 /\ forall dt', (make_lut no_superblocks (fun _ => zero_heaps)
                                   (diagonal_scheduler "dds") ∅ dt' (cuda 0)).1
                                = Ok entry))
       /\ (forall e, out.1 = Raise e ->
             out.2 = ∅
             /\ (∅ : gmap (dtype * device) cached_tables) !! (float16, cuda 0)
                = None
             /\ (c = Raise e
                 \/ (exists tc, c = Ok tc /\ da = Raise e)
                 \/ (exists tc tda, c = Ok tc /\ da = Ok tda /\ db = Raise e))).
Proof.
  apply (lut_cache_round_trip no_superblocks (fun _ => zero_heaps)
           (diagonal_scheduler "dds") ∅ float16 (cuda 0)).
  unfold supported_modes. simpl. rewrite !elem_of_cons. tauto.
Defined.

(** On the diagonal layout the three builders return, and the call stores
    their tables. *)
Lemma make_lut_builds_diagonal :
  (make_lut no_superblocks (fun _ => zero_heaps) (diagonal_scheduler "dds")
     ∅ float16 (cuda 0)).1
  = Ok {| c_lut :=
            dxx_tables
              [24; 16; 0; 0; 0; 0; 26; 0; 0; 0; 0; 0; 26; 16; 1; 0; 0; 0;
               26; 0; 1; 0; 0; 0; 0; 0; 16; 1; 0; 0] 1 4;
          da_lut :=
            dxx_tables
              [24; 16; 0; 0; 0; 0; 26; 0; 0; 0; 0; 0; 26; 16; 1; 0; 0; 0;
               26; 0; 1; 0; 0; 0; 0; 0; 16; 1; 0; 0] 1 4;
          db_lut := sdd_tables [] [] [] |}.
Proof. vm_compute. reflexivity. Qed.

(** With an empty depth slice the first builder raises, and with blocks
    below the step of 16 the first increment has no column to go to: the
    call raises and stores nothing. *)
Lemma make_lut_raises_on_empty_slice
  (superblock : list Z -> nat -> nat -> nat -> Z -> res (list (Z * list Z)))
  (dt : dtype) (dev : device) :
  make_lut superblock (fun _ => zero_heaps) empty_slice_scheduler ∅ dt dev
  = (Raise RuntimeError, ∅).
Proof. vm_compute. reflexivity. Qed.

Lemma make_lut_raises_below_step
  (superblock : list Z -> nat -> nat -> nat -> Z -> res (list (Z * list Z)))
  (dt : dtype) (dev : device) :
  make_lut superblock (fun _ => zero_heaps) small_block_scheduler ∅ dt dev
  = (Raise IndexError, ∅).
Proof. vm_compute. reflexivity. Qed.

(** X17: a call of [get_locks] for one device leaves the buffers of all
    other devices as they are; and the buffer it returns is either the one
    already stored or a fresh object of exactly [size] cells, all zero, so
    that growing discards whatever the old buffer held. *)
Theorem get_locks_frame (size : Z) (dev : device) (st st' : lock_store)
  (buf : buffer) :
  get_locks size dev st = Ok (buf, st') ->
  (forall dev', dev' <> dev -> locks st' !! dev' = locks st !! dev')
  /\ ((locks st !! dev = Some buf /\ st' = st)
      \/ (buf_id buf = next_id st /\ next_id st' = S (next_id st)
          /\ cells buf = replicate (Z.to_nat size) 0
          /\ (forall old, locks st !! dev = Some old ->
                          Z.of_nat (length (cells old)) < size))).
Proof.
  unfold get_locks. intros Hcall.
  assert (store_zeros size dev st = Ok (buf, st') ->
          (forall dev', dev' <> dev -> locks st' !! dev' = locks st !! dev')
          /\ buf_id buf = next_id st /\ next_id st' = S (next_id st)
          /\ cells buf = replicate (Z.to_nat size) 0) as Hfresh.
  { unfold store_zeros. destruct (size <? 0); [done|]. intros [= <- <-].
    cbn [locks buf_id cells next_id]. split; [|done].
    intros dev' Hne. by rewrite lookup_insert_ne. }
  destruct (locks st !! dev) as [old|] eqn:Hold.
  - destruct (Z.ltb_spec (Z.of_nat (length (cells old))) size).
    + destruct (Hfresh Hcall) as (Hframe & Hid & Hnext & Hcells).
      split; [done|]. right. repeat split; try done. by intros ? [= <-].
    + injection Hcall as <- <-. split; [done|]. by left.
  - destruct (Hfresh Hcall) as (Hframe & Hid & Hnext & Hcells).
    split; [done|]. right. repeat split; done.
Qed.

Lemma get_locks_frame_witness :
  let st := {| locks := {[cuda 0 := {| buf_id := 0; cells := [5; 5] |}]};
               next_id := 1 |} in
  let st' := {| locks := <[cuda 1 := {| buf_id := 1; cells := [0; 0; 0] |}]>
                           {[cuda 0 := {| buf_id := 0; cells := [5; 5] |}]};
                next_id := 2 |} in
  let buf := {| buf_id := 1; cells := [0; 0; 0] |} in
  (forall dev', dev' <> cuda 1 -> locks st' !! dev' = locks st !! dev')
  /\ ((locks st !! cuda 1 = Some buf /\ st' = st)
      \/ (buf_id buf = next_id st /\ next_id st' = S (next_id st)
          /\ cells buf = replicate (Z.to_nat 3) 0
          /\ (forall old, locks st !! cuda 1 = Some old ->
                          Z.of_nat (length (cells old)) < 3))).
Proof.
  intros st st' buf.
  apply (get_locks_frame 3 (cuda 1) st st' buf). reflexivity.
Defined.

(** * Further properties of the look-up table of [make_dxx_lut] *)

(** ** Counting the populated blocks *)

Lemma length_filter_bind {A B} (P : B -> Prop) `{forall x, Decision (P x)}
  (f : A -> list B) (l : list A) :
  Z.of_nat (length (filter P (l ≫= f)))
  = tsum (map (fun a => Z.of_nat (length (filter P (f a)))) l).
Proof.
  induction l as [|a l IH]; [done|].
  cbn [mbind list_bind]. rewrite filter_app, length_app. cbn [map].
  rewrite tsum_cons, <- IH. lia.
Qed.

Lemma at3_binary (layout : tensor) z h w :
  binary layout -> at3 layout z h w = 0 \/ at3 layout z h w = 1.
Proof.
  intros Hb. unfold at3. destruct (shape layout) as [|? [|? [|? [|]]]]; auto.
  destruct (data layout !! _) as [x|] eqn:Hx; simpl; [|auto].
  unfold binary in Hb. rewrite Forall_forall in Hb. apply Hb.
  by eapply list_elem_of_lookup_2.
Qed.

Lemma binary_nonneg (layout : tensor) :
  binary layout -> Forall (fun x => 0 <= x) (data layout).
Proof. unfold binary. intros Hb. eapply Forall_impl; [exact Hb|]. simpl. lia. Qed.

Lemma nonzero_count (layout : tensor) (trans : bool) (nz nh nw : nat) :
  shape layout = [nz; nh; nw] -> binary layout ->
  Z.of_nat (length (blocks_of layout trans))
  = tsum (map (slice_total layout) (seq 0 nz)).
Proof.
  intros Hshape Hb. unfold blocks_of, nonzero, nonzero_transposed.
  rewrite Hshape. destruct trans.
  - unfold cells_by_rows. rewrite length_filter_bind. f_equal.
    apply map_ext. intros z. unfold slice_total, sum_axis1. rewrite Hshape.
    rewrite length_filter_bind. f_equal. apply map_ext. intros h.
    rewrite length_filter_bind. f_equal. apply map_ext. intros w.
    rewrite filter_cons, filter_nil.
    destruct (at3_binary layout z h w Hb) as [H0 | H1];
      destruct (decide _) as [Hd | Hd]; cbn in Hd |- *; lia.
  - unfold cells_by_columns. rewrite length_filter_bind. f_equal.
    apply map_ext. intros z.
    rewrite <- (slice_sizes_total layout false z).
    unfold slice_sizes, sum_axis0. rewrite Hshape.
    rewrite length_filter_bind. f_equal. apply map_ext. intros w.
    rewrite length_filter_bind. f_equal. apply map_ext. intros h.
    rewrite filter_cons, filter_nil.
    destruct (at3_binary layout z h w Hb) as [H0 | H1];
      destruct (decide _) as [Hd | Hd]; cbn in Hd |- *; lia.
Qed.

Lemma positive_count (layout : tensor) (z nz nh nw : nat) :
  shape layout = [nz; nh; nw] -> binary layout ->
  Z.of_nat (length (positive_by_columns layout z)) = slice_total layout z.
Proof.
  intros Hshape Hb. unfold positive_by_columns. rewrite Hshape.
  rewrite <- (slice_sizes_total layout false z).
  unfold slice_sizes, sum_axis0. rewrite Hshape.
  rewrite length_filter_bind. f_equal. apply map_ext. intros w.
  rewrite length_filter_bind. f_equal. apply map_ext. intros h.
  rewrite filter_cons, filter_nil.
  destruct (at3_binary layout z h w Hb) as [H0 | H1];
    destruct (decide _) as [Hd | Hd]; cbn in Hd |- *; lia.
Qed.

(** ** The matrices of increments keep their shape *)

Lemma view_repeat_inv (x : list Z) (div : Z) (y : list (list Z)) :
  view_repeat x div = Ok y ->
  0 <= div /\ y = map (fun v => replicate (Z.to_nat div) v) x.
Proof.
  unfold view_repeat. destruct (Z.ltb_spec div 0); [done|].
  intros [= <-]. split; [lia | done].
Qed.

Lemma view_repeat_ok (x : list Z) (div : Z) :
  0 <= div ->
  view_repeat x div = Ok (map (fun v => replicate (Z.to_nat div) v) x).
Proof.
  intros Hd. unfold view_repeat. destruct (Z.ltb_spec div 0); [lia | done].
Qed.

Lemma sub_first_column_inv (ncols v : Z) (x y : list (list Z)) :
  sub_first_column ncols v x = Ok y -> ncols <> 0 /\ sub_firsts v x = Ok y.
Proof.
  unfold sub_first_column. destruct (Z.eqb_spec ncols 0); [done|]. done.
Qed.

Lemma sub_first_column_ok (ncols v : Z) (x : list (list Z)) :
  ncols <> 0 -> sub_first_column ncols v x = sub_firsts v x.
Proof.
  intros Hn. unfold sub_first_column. by destruct (Z.eqb_spec ncols 0).
Qed.

Lemma repeat_rectangular (x : list Z) (d : nat) :
  rectangular (length x) d (map (fun v => replicate d v) x).
Proof.
  split; [by rewrite length_map|]. apply Forall_forall.
  intros row (v & -> & _)%list_elem_of_fmap. by rewrite length_replicate.
Qed.

Lemma fill_tails_rectangular (v : Z) (n d : nat) (x : list (list Z)) :
  rectangular n d x -> rectangular n d (fill_tails v x).
Proof.
  intros [Hn Hd]. unfold fill_tails. split; [by rewrite length_map|].
  apply Forall_forall. intros row (r & -> & Hr)%list_elem_of_fmap.
  rewrite Forall_forall in Hd. specialize (Hd r Hr).
  destruct r; [done|]. simpl in *. by rewrite length_map.
Qed.

Lemma on_first_inv (f : Z -> Z) (row row' : list Z) :
  on_first f row = Ok row' ->
  exists first rest, row = first :: rest /\ row' = f first :: rest.
Proof. destruct row as [|a r]; [done|]. intros [= <-]. by exists a, r. Qed.

Lemma sub_firsts_rectangular (v : Z) (x : list (list Z)) : forall n d y,
  rectangular n d x -> sub_firsts v x = Ok y -> rectangular n d y.
Proof.
  induction x as [|row x IH]; intros n d y [Hn Hd] Hrun.
  - injection Hrun as <-. by split.
  - cbn [sub_firsts] in Hrun.
    destruct (on_first _ row) as [row'|e] eqn:Hrow; [|done]. cbn [bind] in Hrun.
    destruct (sub_firsts v x) as [x'|e] eqn:Hx; [|done]. cbn [bind] in Hrun.
    injection Hrun as <-.
    apply on_first_inv in Hrow as (a & r & -> & ->).
    apply Forall_cons in Hd as [Hrow Hd].
    destruct (IH (length x) d x') as [Hn' Hd']; [by split | done |].
    split; [simpl in *; lia|]. by constructor.
Qed.

Lemma sub_firsts_ok (v : Z) (x : list (list Z)) (n d : nat) :
  rectangular n (S d) x -> exists y, sub_firsts v x = Ok y.
Proof.
  intros [_ Hd]. induction Hd as [|row x Hrow _ [y IH]]; [by eexists|].
  cbn [sub_firsts]. destruct row as [|a r]; [done|]. cbn [on_first bind].
  rewrite IH. cbn [bind]. by eexists.
Qed.

Lemma item_index_inv (n : nat) (i : Z) (k : nat) :
  item_index n i = Ok k -> (k < n)%nat.
Proof.
  unfold item_index. destruct (_ && _) eqn:Hc; [|done]. intros [= <-].
  apply andb_true_iff in Hc as [H1%Z.leb_le H2%Z.ltb_lt]. lia.
Qed.

Lemma item_index_ok (n : nat) (i : Z) :
  0 <= i < Z.of_nat n -> item_index n i = Ok (Z.to_nat i).
Proof.
  intros Hi. unfold item_index. destruct (Z.ltb_spec i 0); [lia|].
  destruct (Z.leb_spec 0 i); [|lia]. destruct (Z.ltb_spec i (Z.of_nat n)); [|lia].
  done.
Qed.

Lemma scatter_firsts_rectangular (sel : list Z) : forall x vals n d y,
  rectangular n d x -> scatter_firsts x sel vals = Ok y -> rectangular n d y.
Proof.
  induction sel as [|i sel IH]; intros x vals n d y Hx Hrun.
  - by injection Hrun as <-.
  - destruct vals as [|v vals]; [by injection Hrun as <-|].
    cbn [scatter_firsts] in Hrun.
    destruct (item_index (length x) i) as [k|e] eqn:Hk; [|done]. cbn [bind] in Hrun.
    destruct (on_first _ _) as [row'|e] eqn:Hrow; [|done]. cbn [bind] in Hrun.
    apply IH with (n := n) (d := d) in Hrun; [done|].
    destruct Hx as [Hn Hd]. split; [by rewrite length_insert|].
    apply item_index_inv in Hk.
    destruct (lookup_lt_is_Some_2 x k Hk) as [row Hlk].
    rewrite Hlk in Hrow. cbn [default from_option id] in Hrow.
    apply on_first_inv in Hrow as (a & r & -> & ->).
    apply Forall_insert; [done|].
    rewrite Forall_forall in Hd. apply (Hd (a :: r)). by eapply list_elem_of_lookup_2.
Qed.

Lemma scatter_firsts_ok (sel : list Z) : forall x vals n d,
  rectangular n (S d) x -> Forall (fun i => 0 <= i < Z.of_nat n) sel ->
  exists y, scatter_firsts x sel vals = Ok y.
Proof.
  induction sel as [|i sel IH]; intros x vals n d Hx Hsel; [by eexists|].
  destruct vals as [|v vals]; [by eexists|].
  apply Forall_cons in Hsel as [Hi Hsel]. cbn [scatter_firsts].
  destruct Hx as [Hn Hd]. rewrite Hn, (item_index_ok n i Hi). cbn [bind].
  assert (Z.to_nat i < length x)%nat as Hlt by lia.
  destruct (lookup_lt_is_Some_2 x _ Hlt) as [row Hlk]. rewrite Hlk. cbn [default from_option id].
  assert (length row = S d) as Hrow.
  { rewrite Forall_forall in Hd. apply Hd. by eapply list_elem_of_lookup_2. }
  destruct row as [|a r]; [done|]. cbn [on_first bind].
  apply (IH _ vals n d); [|done].
  split; [by rewrite length_insert|]. apply Forall_insert; [done|]. done.
Qed.

Lemma tuple_item_ok {A} (t : list A) (i : Z) :
  0 <= i < Z.of_nat (length t) -> exists x, tuple_item t i = Ok x /\ t !! Z.to_nat i = Some x.
Proof.
  intros Hi. unfold tuple_item. rewrite (item_index_ok _ i Hi). cbn [bind].
  assert (Z.to_nat i < length t)%nat as Hlt by lia.
  destruct (lookup_lt_is_Some_2 t _ Hlt) as [x Hx]. rewrite Hx. by exists x.
Qed.

Lemma gather_ok (t : list Z) (sel : list Z) :
  Forall (fun i => 0 <= i < Z.of_nat (length t)) sel ->
  exists vs, gather t sel = Ok vs.
Proof.
  induction 1 as [|i sel Hi _ [vs IH]]; [by eexists|].
  cbn [gather]. destruct (tuple_item_ok t i Hi) as (x & -> & _). cbn [bind].
  rewrite IH. cbn [bind]. by eexists.
Qed.

Lemma concat_rectangular (n d : nat) (x : list (list Z)) :
  rectangular n d x -> length (concat x) = (n * d)%nat.
Proof.
  intros [<- Hd]. induction Hd as [|row x Hrow _ IH]; [done|].
  cbn [concat length]. rewrite length_app, IH, Hrow. lia.
Qed.

Lemma stack_pairs_inv (x y z : list Z) :
  stack_pairs x y = Ok z ->
  length x = length y /\ z = concat (zip_with (fun u v => [u; v]) x y).
Proof.
  unfold stack_pairs. destruct (Nat.eqb_spec (length x) (length y)); [|done].
  intros [= <-]. done.
Qed.

Lemma stack_pairs_length (x y : list Z) :
  length x = length y ->
  length (concat (zip_with (fun u v => [u; v]) x y)) = (2 * length x)%nat.
Proof.
  revert y. induction x as [|u x IH]; intros [|v y] Hlen; try done.
  cbn [zip_with concat length app]. rewrite IH by (simpl in Hlen; lia). simpl. lia.
Qed.

(** ** The header *)

Lemma stack_header_length (n : nat) : forall os ss cs ds ls ms,
  length os = n -> length ss = n -> length cs = n -> length ds = n ->
  length ls = n -> length ms = n ->
  length (stack_header os ss cs ds ls ms) = (6 * n)%nat.
Proof.
  induction n as [|n IH];
    intros [|o os] [|s ss] [|c cs] [|d ds] [|l ls] [|m ms]; try done.
  intros [=] [=] [=] [=] [=] [=]. cbn [stack_header length app].
  rewrite IH by done. lia.
Qed.

Lemma stack_header_drop (k : nat) : forall os ss cs ds ls ms o s c d l m,
  os !! k = Some o -> ss !! k = Some s -> cs !! k = Some c ->
  ds !! k = Some d -> ls !! k = Some l -> ms !! k = Some m ->
  drop (6 * k) (stack_header os ss cs ds ls ms)
  = [o; s; c; d; l; m]
      ++ stack_header (drop (S k) os) (drop (S k) ss) (drop (S k) cs)
                      (drop (S k) ds) (drop (S k) ls) (drop (S k) ms).
Proof.
  induction k as [|k IH];
    intros [|o' os] [|s' ss] [|c' cs] [|d' ds] [|l' ls] [|m' ms]; try done.
  - intros o s c d l m [= <-] [= <-] [= <-] [= <-] [= <-] [= <-]. done.
  - intros o s c d l m Ho Hs Hc Hd Hl Hm. cbn [lookup list_lookup] in *.
    replace (6 * S k)%nat with (6 + 6 * k)%nat by lia.
    cbn [stack_header]. rewrite <- drop_drop. cbn [drop app Nat.add].
    cbn [drop]. by apply IH.
Qed.

Lemma wrap32_small (v : Z) : - 2 ^ 31 <= v < 2 ^ 31 -> wrap32 v = v.
Proof. intros Hv. unfold wrap32. rewrite Z.mod_small; lia. Qed.

Lemma wrap32_le (v : Z) : 0 <= v -> wrap32 v <= v.
Proof.
  intros Hv. unfold wrap32.
  pose proof (Z.mod_le (v + 2 ^ 31) (2 ^ 32)). lia.
Qed.

Lemma kernel_steps_le (v n : Z) :
  0 <= n -> v <= 16 * n -> kernel_steps v <= n.
Proof.
  intros Hn Hv. unfold kernel_steps.
  assert ((v + 15) / 16 < n + 1); [|lia].
  apply Z.div_lt_upper_bound; lia.
Qed.

(** ** The segments and their offsets *)


Lemma dxx_loop_nonneg mem layout trans zs : forall st st',
  Forall (fun x => 0 <= x) (data layout) ->
  Forall (fun s => 0 <= s) (dxx_segments st) ->
  dxx_loop mem layout trans zs st = Ok st' ->
  Forall (fun s => 0 <= s) (dxx_segments st').
Proof.
  induction zs as [|z zs IH]; intros st st' Hnn Hst Hrun.
  - by injection Hrun as <-.
  - cbn [dxx_loop] in Hrun.
    destruct (decide (has_nonzero (slice_sizes layout trans z))) as [Hnz | Hno];
      [|by rewrite (dxx_slice_raises _ _ _ _ _ Hno) in Hrun].
    destruct (dxx_slice_returns (mem z) layout trans z st Hnn Hnz)
      as (lb & Hlb & _ & Hslice).
    rewrite Hslice in Hrun. cbn [bind] in Hrun.
    apply IH in Hrun; [done | done |]. cbn [dxx_segments].
    apply Forall_app. split; [done|].
    eapply load_balance_segments_nonneg; [|exact Hlb].
    apply (slice_sizes_nonneg layout trans z Hnn).
Qed.



Lemma dxx_loop_maxid mem layout trans zs : forall st st',
  Forall (fun x => 0 <= x) (data layout) ->
  Forall (fun l => l = 0) (dxx_maxid st) ->
  dxx_loop mem layout trans zs st = Ok st' ->
  Forall (fun l => l = 0) (dxx_maxid st').
Proof.
  induction zs as [|z zs IH]; intros st st' Hnn Hst Hrun.
  - by injection Hrun as <-.
  - cbn [dxx_loop] in Hrun.
    destruct (decide (has_nonzero (slice_sizes layout trans z))) as [Hnz | Hno];
      [|by rewrite (dxx_slice_raises _ _ _ _ _ Hno) in Hrun].
    destruct (dxx_slice_returns (mem z) layout trans z st Hnn Hnz)
      as (lb & Hlb & _ & Hslice).
    rewrite Hslice in Hrun. cbn [bind] in Hrun.
    apply IH in Hrun; [done | done |]. cbn [dxx_maxid].
    apply Forall_app. split; [done|].
    destruct (load_balance_planned (mem z) _
                (slice_sizes_nonneg layout trans z Hnn) Hnz) as (M & _ & _ & Hp).
    unfold slice_sizes in Hlb. rewrite Hp in Hlb. injection Hlb as <-.
    cbn [planned maxid]. by apply Forall_replicate.
Qed.

(** The schedule of a binary layout: what the load-balancing loop leaves
    for the rest of [make_dxx_lut]. *)
Lemma schedule_facts (mem : nat -> heap) (layout : tensor) (trans : bool)
  (nz nh nw : nat) (st : dxx_state) :
  shape layout = [nz; nh; nw] -> binary layout ->
  make_dxx_lut_balance mem layout trans = Ok st ->
  dxx_offsets st = prefix_sums (dxx_segments st)
  /\ tsum (dxx_segments st) = Z.of_nat (length (blocks_of layout trans))
  /\ dxx_common_length st (length (dxx_segments st))
  /\ Forall (fun s => 0 <= s) (dxx_segments st)
  /\ Forall (fun l => l = 0) (dxx_lockid st)
  /\ Forall (fun l => l = 0) (dxx_maxid st).
Proof.
  intros Hshape Hb Hrun.
  pose proof (binary_nonneg layout Hb) as Hnn.
  rewrite (nonzero_count layout trans nz nh nw Hshape Hb).
  unfold make_dxx_lut_balance in Hrun. rewrite Hshape in Hrun.
  pose proof Hrun as Htiles.
  apply dxx_loop_tiles in Htiles as (H1 & H2 & H3 & H4); try done.
  cbn [current_offset] in H3.
  split; [done|]. split; [lia|]. split; [done|].
  split; [by eapply dxx_loop_nonneg; [| |exact Hrun]|].
  split; [by eapply dxx_loop_unlocked; [| | |exact Hrun]|].
  by eapply dxx_loop_maxid; [| |exact Hrun].
Qed.

Lemma map_lookup {A B} (f : A -> B) (l : list A) (k : nat) (x : A) :
  l !! k = Some x -> map f l !! k = Some (f x).
Proof.
  revert k. induction l as [|a l IH]; intros [|k]; try done.
  - by intros [= ->].
  - apply IH.
Qed.

Lemma map_drop {A B} (f : A -> B) (l : list A) (k : nat) :
  drop k (map f l) = map f (drop k l).
Proof. revert k. induction l as [|a l IH]; intros [|k]; try done. apply IH. Qed.

(** ** The rows of the matrices of increments *)

Lemma sub_firsts_rows (v : Z) (x : list (list Z)) : forall y j a rest,
  sub_firsts v x = Ok y -> x !! j = Some (a :: rest) ->
  y !! j = Some ((a - v) :: rest).
Proof.
  induction x as [|row x IH]; intros y j a rest Hrun Hj; [done|].
  cbn [sub_firsts] in Hrun.
  destruct (on_first _ row) as [row'|e] eqn:Hrow; [|done]. cbn [bind] in Hrun.
  destruct (sub_firsts v x) as [x'|e] eqn:Hx; [|done]. cbn [bind] in Hrun.
  injection Hrun as <-. destruct j as [|j].
  - injection Hj as ->. cbn in Hrow. by injection Hrow as <-.
  - cbn. by apply IH.
Qed.

Lemma fill_tails_rows (v : Z) (x : list (list Z)) (j : nat) (a : Z) (rest : list Z) :
  x !! j = Some (a :: rest) ->
  fill_tails v x !! j = Some (a :: replicate (length rest) v).
Proof.
  intros Hj. unfold fill_tails. erewrite map_lookup; [|exact Hj].
  cbv iota. by rewrite map_const_replicate.
Qed.

(** Rows already holding their start keep it while the other starts are
    written. *)
Lemma scatter_firsts_keeps (t : list Z) (sel : list Z) : forall x vals y j a rest,
  length x = length t ->
  gather t sel = Ok vals -> scatter_firsts x sel vals = Ok y ->
  x !! j = Some (a :: rest) ->
  exists a', y !! j = Some (a' :: rest)
    /\ ((t !! j = Some a' /\ exists i, i ∈ sel /\ item_index (length t) i = Ok j)
        \/ (a' = a /\ forall i, i ∈ sel -> item_index (length t) i <> Ok j)).
Proof.
  induction sel as [|i sel IH]; intros x vals y j a rest Hlen Hg Hs Hj.
  - injection Hs as <-. exists a. split; [done|]. right. split; [done|].
    intros i Hi. by apply elem_of_nil in Hi.
  - cbn [gather] in Hg. unfold tuple_item in Hg.
    destruct (item_index (length t) i) as [k|e] eqn:Hk; [|done]. cbn [bind] in Hg.
    destruct (t !! k) as [v|] eqn:Hv; [|done]. cbn [bind] in Hg.
    destruct (gather t sel) as [vs|e] eqn:Hvs; [|done]. cbn [bind] in Hg.
    injection Hg as <-. cbn [scatter_firsts] in Hs. rewrite Hlen, Hk in Hs.
    cbn [bind] in Hs.
    destruct (on_first _ _) as [row'|e] eqn:Hrow; [|done]. cbn [bind] in Hs.
    apply on_first_inv in Hrow as (b & r & Hxk & ->).
    pose proof (item_index_inv _ _ _ Hk) as Hklt.
    destruct (lookup_lt_is_Some_2 x k) as [rowk Hrowk]; [lia|].
    rewrite Hrowk in Hxk. cbn [default from_option id] in Hxk. subst rowk.
    destruct (decide (k = j)) as [-> | Hne].
    + rewrite Hj in Hrowk. injection Hrowk as <- <-.
      destruct (IH (<[j := v :: rest]> x) vs y j v rest) as (a' & Hy & Hcase);
        [by rewrite length_insert | done | done
        | apply list_lookup_insert_eq; lia |].
      exists a'. split; [done|]. left.
      destruct Hcase as [[Ht (i' & Hi' & Hidx)] | [-> _]].
      * split; [done|]. exists i'. split; [by apply list_elem_of_further | done].
      * split; [done|]. exists i. split; [apply list_elem_of_here | done].
    + destruct (IH (<[k := v :: r]> x) vs y j a rest) as (a' & Hy & Hcase);
        [by rewrite length_insert | done | done
        | by rewrite list_lookup_insert_ne |].
      exists a'. split; [done|].
      destruct Hcase as [[Ht (i' & Hi' & Hidx)] | [-> Hnone]].
      * left. split; [done|]. exists i'. split; [by apply list_elem_of_further | done].
      * right. split; [done|]. intros i' [-> | Hi']%elem_of_cons.
        -- rewrite Hk. intros [= ->]. done.
        -- by apply Hnone.
Qed.

Lemma concat_lookup (d : nat) (x : list (list Z)) : forall (j t : nat) (row : list Z),
  Forall (fun r => length r = d) x -> x !! j = Some row -> (t < d)%nat ->
  concat x !! (j * d + t)%nat = row !! t.
Proof.
  induction x as [|r x IH]; intros j t row Hd Hj Ht; [done|].
  apply Forall_cons in Hd as [Hr Hd]. cbn [concat]. destruct j as [|j].
  - injection Hj as ->. cbn [Nat.mul Nat.add]. rewrite lookup_app_l by lia. done.
  - cbn in Hj. rewrite lookup_app_r by lia.
    replace (S j * d + t - length r)%nat with (j * d + t)%nat by lia.
    by apply IH.
Qed.

Lemma stack_pairs_lookup (x y : list Z) : forall (m : nat) (u v : Z),
  x !! m = Some u -> y !! m = Some v ->
  concat (zip_with (fun u v => [u; v]) x y) !! (2 * m)%nat = Some u
  /\ concat (zip_with (fun u v => [u; v]) x y) !! (2 * m + 1)%nat = Some v.
Proof.
  revert y. induction x as [|a x IH]; intros [|b y] m u v Hu Hv; try done.
  destruct m as [|m].
  - injection Hu as ->. injection Hv as ->. done.
  - cbn in Hu, Hv. cbn [zip_with concat app].
    replace (2 * S m)%nat with (S (S (2 * m))) by lia.
    replace (S (S (2 * m)) + 1)%nat with (S (S (2 * m + 1))) by lia.
    cbn [lookup list_lookup]. by apply IH.
Qed.

(** ** The table *)

Lemma deltas_length (idx : list Z) : length (deltas idx) = length idx.
Proof. unfold deltas. rewrite length_zip_with. simpl. lia. Qed.

Lemma widx_loop_length (layout : tensor) (zs : list nat) : forall widx co r,
  widx_loop layout zs widx co = Ok r ->
  Z.of_nat (length r)
  = Z.of_nat (length widx) + tsum (map (slice_total layout) zs).
Proof.
  induction zs as [|z zs IH]; intros widx co r Hrun.
  - injection Hrun as <-. change (tsum (map _ [])) with 0. lia.
  - cbn [widx_loop] in Hrun.
    destruct (Z.eqb_spec (Z.of_nat (length (positive_by_columns layout z)))
                (slice_total layout z)) as [Heq|]; [|done].
    cbn [negb] in Hrun. apply IH in Hrun. rewrite Hrun.
    rewrite length_app, length_map. cbn [map]. rewrite tsum_cons. lia.
Qed.

Lemma widx_loop_ok (layout : tensor) (nz nh nw : nat) (zs : list nat) :
  shape layout = [nz; nh; nw] -> binary layout ->
  forall widx co, exists r, widx_loop layout zs widx co = Ok r.
Proof.
  intros Hshape Hb. induction zs as [|z zs IH]; intros widx co; [by eexists|].
  cbn [widx_loop]. rewrite (positive_count layout z nz nh nw Hshape Hb).
  rewrite Z.eqb_refl. cbn [negb]. apply IH.
Qed.

Lemma increments_rows (t dl : list Z) (d : nat) (tailv subv : Z)
  (sel vals : list Z) (x2 x3 : list (list Z)) :
  length dl = length t ->
  sub_firsts subv (fill_tails tailv (map (fun v => replicate (S d) v) dl)) = Ok x2 ->
  gather t sel = Ok vals -> scatter_firsts x2 sel vals = Ok x3 ->
  increments (S d) t dl tailv subv sel (concat x3).
Proof.
  intros Hlen Hx2 Hvals Hx3 j delta Hj.
  assert (rectangular (length t) (S d) x2) as Hr2.
  { eapply sub_firsts_rectangular; [|exact Hx2]. apply fill_tails_rectangular.
    rewrite <- Hlen. apply repeat_rectangular. }
  assert (rectangular (length t) (S d) x3) as [_ Hr3]
    by (eapply scatter_firsts_rectangular; [|exact Hx3]; done).
  assert (x2 !! j = Some ((delta - subv) :: replicate d tailv)) as Hrow2.
  { eapply sub_firsts_rows; [exact Hx2|].
    rewrite <- (length_replicate d delta) at 1.
    apply fill_tails_rows. by apply (map_lookup (fun v => replicate (S d) v)). }
  destruct (scatter_firsts_keeps t sel x2 vals x3 j _ _ (proj1 Hr2) Hvals Hx3 Hrow2)
    as (a & Hrow3 & Hcase).
  exists a. split; [|split; [|done]].
  - rewrite <- (Nat.add_0_r (j * S d)).
    by rewrite (concat_lookup (S d) x3 j 0 _ Hr3 Hrow3) by lia.
  - intros u Hu. rewrite (concat_lookup (S d) x3 j u _ Hr3 Hrow3) by lia.
    destruct u as [|u]; [lia|]. cbn [lookup list_lookup].
    apply lookup_replicate_2. lia.
Qed.

(** What a returned call says about each step of [make_dxx_lut]. *)
Lemma make_dxx_lut_inv (mem : nat -> heap) (layout : tensor) (block : Z)
  (step : positive) (trans : bool) (lut : list Z) (locks width : Z) :
  make_dxx_lut mem layout block step trans (fun idx => idx)
  = Ok (lut, locks, width) ->
  let num_blocks := Z.of_nat (length (blocks_of layout trans)) in
  let div := block / Z.pos step in
  exists st xincs wincs widx lockmax,
    make_dxx_lut_balance mem layout trans = Ok st
    /\ tmax (dxx_lockid st) = Ok lockmax /\ locks = Z.max 1 lockmax
    /\ width = Z.of_nat (length (dxx_column st))
    /\ 0 < div
    /\ Z.of_nat (length xincs) = num_blocks * div
    /\ length wincs = length xincs
    /\ lut = map wrap32
               (stack_header
                  (map (fun o => o + 6 * width)
                     (map (fun o => o * (2 * div))
                        (map (fun o => Z.min o (num_blocks - 1)) (dxx_offsets st))))
                  (map (fun s => s * div)
                     (map (fun s => s * Z.pos step) (dxx_segments st)))
                  (dxx_column st) (dxx_depth st) (dxx_lockid st) (dxx_maxid st)
                ++ concat (zip_with (fun u v => [u; v]) xincs wincs) ++ [0; 0])
    /\ (if trans then Ok (seqZ 0 num_blocks)
        else match shape layout with
             | nz :: _ => widx_loop layout (seq 0 nz) [] 0
             | [] => Raise IndexError
             end) = Ok widx
    /\ length widx = length (blocks_of layout trans)
    /\ (let idx := map (fun cell : nat * nat * nat => Z.of_nat cell.2 * block)
                      (blocks_of layout trans) in
        let starts :=
          masked (map (fun o => Z.min o (num_blocks - 1)) (dxx_offsets st))
                 (map (fun s => 0 <? s)
                    (map (fun s => s * Z.pos step) (dxx_segments st))) in
        increments (Z.to_nat div) idx (deltas idx) (Z.pos step)
          ((div - 1) * Z.pos step) starts xincs
        /\ increments (Z.to_nat div) widx
             (deltas (map (fun i => i * block * block) widx))
             (if trans then Z.pos step else Z.pos step * block)
             (if trans then (div - 1) * Z.pos step
              else (div - 1) * Z.pos step * block)
             starts wincs).
Proof.
  intros Hrun num_blocks div. unfold make_dxx_lut in Hrun.
  destruct (make_dxx_lut_balance mem layout trans) as [st|e] eqn:Hst; [|done].
  cbn [bind] in Hrun. fold (blocks_of layout trans) in Hrun.
  fold num_blocks in Hrun. fold div in Hrun.
  destruct (view_repeat (deltas _) div) as [x1|e] eqn:Hx1; [|done].
  cbn [bind] in Hrun.
  destruct (sub_first_column _ _ (fill_tails _ x1)) as [x2|e] eqn:Hx2; [|done].
  cbn [bind] in Hrun. apply sub_first_column_inv in Hx2 as [Hd0 Hx2].
  destruct (gather _ _) as [fx|e] eqn:Hfx; [|done]. cbn [bind] in Hrun.
  destruct (scatter_firsts x2 _ fx) as [x3|e] eqn:Hx3; [|done]. cbn [bind] in Hrun.
  match type of Hrun with
  | bind ?c _ = _ => destruct c as [widx|e] eqn:Hwidx; [|done]
  end.
  cbn [bind] in Hrun.
  destruct (view_repeat (deltas _) div) as [w1|e] eqn:Hw1 in Hrun; [|done].
  cbn [bind] in Hrun.
  match type of Hrun with
  | bind ?c _ = _ => destruct c as [w2|e] eqn:Hw2'; [|done]
  end.
  cbn [bind] in Hrun.
  assert ((if trans
           then sub_firsts ((div - 1) * Z.pos step) (fill_tails (Z.pos step) w1)
           else sub_firsts ((div - 1) * Z.pos step * block)
                  (fill_tails (Z.pos step * block) w1)) = Ok w2) as Hw2.
  { destruct trans; by apply sub_first_column_inv in Hw2' as [_ Hw2']. }
  clear Hw2'.
  destruct (gather widx _) as [fw|e] eqn:Hfw; [|done]. cbn [bind] in Hrun.
  destruct (scatter_firsts w2 _ fw) as [w3|e] eqn:Hw3; [|done]. cbn [bind] in Hrun.
  destruct (stack_pairs (concat x3) (concat w3)) as [incs|e] eqn:Hincs; [|done].
  cbn [bind] in Hrun.
  destruct (tmax (dxx_lockid st)) as [lockmax|e] eqn:Hmax; [|done].
  cbn [bind] in Hrun. injection Hrun as <- <- <-.
  exists st, (concat x3), (concat w3), widx, lockmax.
  apply stack_pairs_inv in Hincs as [Hlen ->].
  apply view_repeat_inv in Hx1 as (Hdiv & ->).
  apply view_repeat_inv in Hw1 as (_ & ->).
  set (nb := length (blocks_of layout trans)) in *.
  assert (0 < div) as Hdpos by lia.
  destruct (Z.to_nat div) as [|d] eqn:Hd; [lia|].
  assert (increments (S d)
            (map (fun cell : nat * nat * nat => Z.of_nat cell.2 * block)
               (blocks_of layout trans))
            (deltas (map (fun cell : nat * nat * nat => Z.of_nat cell.2 * block)
                       (blocks_of layout trans)))
            (Z.pos step) ((div - 1) * Z.pos step)
            (masked (map (fun o => Z.min o (num_blocks - 1)) (dxx_offsets st))
               (map (fun s => 0 <? s)
                  (map (fun s => s * Z.pos step) (dxx_segments st))))
            (concat x3)) as Hix.
  { eapply increments_rows; [apply deltas_length | exact Hx2 | exact Hfx | exact Hx3]. }
  assert (increments (S d) widx
            (deltas (map (fun i => i * block * block) widx))
            (if trans then Z.pos step else Z.pos step * block)
            (if trans then (div - 1) * Z.pos step
             else (div - 1) * Z.pos step * block)
            (masked (map (fun o => Z.min o (num_blocks - 1)) (dxx_offsets st))
               (map (fun s => 0 <? s)
                  (map (fun s => s * Z.pos step) (dxx_segments st))))
            (concat w3)) as Hiw.
  { destruct trans;
      (eapply increments_rows;
       [by rewrite deltas_length, length_map | exact Hw2 | exact Hfw | exact Hw3]). }
  assert (rectangular nb (S d) x3) as Hrect.
  { eapply scatter_firsts_rectangular; [|exact Hx3].
    eapply sub_firsts_rectangular; [|exact Hx2].
    apply fill_tails_rectangular.
    pose proof (repeat_rectangular
                  (deltas (map (fun cell : nat * nat * nat => Z.of_nat cell.2 * block)
                             (blocks_of layout trans))) (S d)) as Hr.
    rewrite deltas_length, length_map in Hr. exact Hr. }
  assert (rectangular (length widx) (S d) w3) as Hwrect.
  { eapply scatter_firsts_rectangular; [|exact Hw3].
    pose proof (repeat_rectangular
                  (deltas (map (fun i => i * block * block) widx)) (S d)) as Hr.
    rewrite deltas_length, length_map in Hr.
    destruct trans; (eapply sub_firsts_rectangular; [|exact Hw2]);
      by apply fill_tails_rectangular. }
  pose proof (concat_rectangular _ _ _ Hrect) as Hcx.
  pose proof (concat_rectangular _ _ _ Hwrect) as Hcw.
  split; [done|]. split; [done|]. split; [done|]. split; [done|].
  split; [done|].
  split. { rewrite Hcx, Nat2Z.inj_mul, <- Hd, Z2Nat.id by lia. done. }
  split; [done|]. split; [done|]. split; [done|].
  split; [nia|]. split; done.
Qed.

Lemma tsum_pos (t : list Z) :
  Forall (fun s => 0 <= s) t -> has_nonzero t -> 0 < tsum t.
Proof.
  intros Hnn Hnz. induction Hnn as [|x t Hx Hnn IH].
  - by apply Exists_nil in Hnz.
  - rewrite tsum_cons. pose proof (tsum_nonneg t Hnn).
    apply Exists_cons in Hnz as [Hx0 | Ht]; [lia|]. specialize (IH Ht). lia.
Qed.

Lemma slice_total_nonneg (layout : tensor) (z : nat) :
  Forall (fun x => 0 <= x) (data layout) -> 0 <= slice_total layout z.
Proof.
  intros Hnn. rewrite <- (slice_sizes_total layout true z).
  apply tsum_nonneg, (slice_sizes_nonneg layout true z Hnn).
Qed.

Lemma populated_blocks (layout : tensor) (trans : bool) (nz nh nw : nat) :
  shape layout = [nz; nh; nw] -> binary layout -> populated layout trans ->
  (0 < length (blocks_of layout trans))%nat.
Proof.
  intros Hshape Hb Hpop. unfold populated in Hpop. rewrite Hshape in Hpop.
  destruct Hpop as [Hnz Hpop].
  pose proof (binary_nonneg layout Hb) as Hnn.
  pose proof (nonzero_count layout trans nz nh nw Hshape Hb) as Hcount.
  destruct nz as [|nz]; [lia|]. cbn [seq map] in Hcount. rewrite tsum_cons in Hcount.
  assert (0 < slice_total layout 0).
  { rewrite <- (slice_sizes_total layout trans 0).
    apply tsum_pos; [apply (slice_sizes_nonneg layout trans 0 Hnn) | apply Hpop; lia]. }
  assert (0 <= tsum (map (slice_total layout) (seq 1 nz))).
  { apply tsum_nonneg, Forall_forall. intros x (z & -> & _)%list_elem_of_fmap.
    by apply slice_total_nonneg. }
  lia.
Qed.

(** A schedule that was returned and has a segment comes from a populated
    layout. *)
Lemma returned_schedule_populated (mem : nat -> heap) (layout : tensor)
  (trans : bool) (nz nh nw : nat) (st : dxx_state) :
  shape layout = [nz; nh; nw] -> Forall (fun x => 0 <= x) (data layout) ->
  make_dxx_lut_balance mem layout trans = Ok st -> dxx_lockid st <> [] ->
  populated layout trans.
Proof.
  intros Hshape Hnn Hst Hne. unfold populated. rewrite Hshape.
  unfold make_dxx_lut_balance in Hst. rewrite Hshape in Hst. split.
  - destruct nz; [|lia]. cbn in Hst. by injection Hst as <-.
  - intros z Hz.
    destruct (decide (has_nonzero (slice_sizes layout trans z))) as [|Hno]; [done|].
    rewrite (dxx_loop_raises mem layout trans _ _ Hnn) in Hst; [done|].
    apply Exists_exists. exists z. split; [|done]. apply elem_of_seq. lia.
Qed.

(** The layout of the table of a binary layout: the header records, the
    increments and the two closing zeros. *)
Lemma table_layout (mem : nat -> heap) (layout : tensor) (block : Z)
  (step : positive) (trans : bool) (nz nh nw : nat) (lut : list Z)
  (locks width : Z) :
  shape layout = [nz; nh; nw] -> binary layout ->
  make_dxx_lut mem layout block step trans (fun idx => idx)
  = Ok (lut, locks, width) ->
  let num_blocks := Z.of_nat (length (blocks_of layout trans)) in
  let div := block / Z.pos step in
  exists st,
    make_dxx_lut_balance mem layout trans = Ok st
    /\ locks = 1
    /\ width = Z.of_nat (length (dxx_segments st))
    /\ 0 < num_blocks /\ 0 < div
    /\ Z.of_nat (length lut) = 6 * width + 2 * div * num_blocks + 2
    /\ drop (length lut - 2) lut = [0; 0]
    /\ forall (k : nat) (seg off col dep : Z),
         dxx_segments st !! k = Some seg -> dxx_offsets st !! k = Some off ->
         dxx_column st !! k = Some col -> dxx_depth st !! k = Some dep ->
         take 6 (drop (6 * k) lut)
         = map wrap32 [6 * width + 2 * div * Z.min off (num_blocks - 1);
                       seg * Z.pos step * div; col; dep; 0; 0].
Proof.
  intros Hshape Hb Hrun num_blocks div.
  destruct (make_dxx_lut_inv _ _ _ _ _ _ _ _ Hrun)
    as (st & xincs & wincs & widx & lockmax & Hst & Hmax & -> & -> & Hdiv
        & Hx & Hw & -> & _).
  fold num_blocks div in Hdiv, Hx |- *.
  destruct (schedule_facts mem layout trans nz nh nw st Hshape Hb Hst)
    as (Hoff & Htot & (_ & Hc & Hd & Hl & Hm & Ho) & Hnn & Hlz & Hmz).
  set (n := length (dxx_segments st)) in *.
  exists st. split; [done|].
  assert (dxx_lockid st <> []) as Hne.
  { destruct (dxx_lockid st); [done | done]. }
  assert (0 < num_blocks) as Hnb.
  { pose proof (populated_blocks layout trans nz nh nw Hshape Hb
                  (returned_schedule_populated mem layout trans nz nh nw st
                     Hshape (binary_nonneg layout Hb) Hst Hne)).
    subst num_blocks. lia. }
  split. { rewrite (tmax_zeros _ Hne Hlz) in Hmax. injection Hmax as <-. done. }
  split; [by rewrite Hc|]. split; [done|]. split; [done|].
  set (header := stack_header _ _ _ _ _ _).
  assert (length header = (6 * n)%nat) as Hhl.
  { apply stack_header_length; rewrite ?length_map; done. }
  split.
  { rewrite length_map, !length_app, Hhl, stack_pairs_length by done.
    cbn [length]. rewrite Hc. lia. }
  split.
  { rewrite app_assoc, map_app, length_app. cbn [map length].
    replace (length (map wrap32 (header ++ _)) + 2 - 2)%nat
      with (length (map wrap32 (header ++ concat (zip_with (fun u v => [u; v]) xincs wincs))))
      by lia.
    by rewrite drop_app_length. }
  intros k seg off col dep Hseg Hoffk Hcol Hdep.
  assert (k < n)%nat as Hk by (by eapply lookup_lt_Some).
  destruct (lookup_lt_is_Some_2 (dxx_lockid st) k) as [l Hlk]; [lia|].
  destruct (lookup_lt_is_Some_2 (dxx_maxid st) k) as [m Hmk]; [lia|].
  assert (l = 0) as ->.
  { rewrite Forall_forall in Hlz. apply Hlz. by eapply list_elem_of_lookup_2. }
  assert (m = 0) as ->.
  { rewrite Forall_forall in Hmz. apply Hmz. by eapply list_elem_of_lookup_2. }
  rewrite map_app, drop_app_le by (rewrite length_map; lia).
  rewrite map_drop. subst header.
  erewrite stack_header_drop.
  2: { repeat apply map_lookup. exact Hoffk. }
  2: { repeat apply map_lookup. exact Hseg. }
  2-5: done.
  cbn [map app take]. do 2 f_equal. lia.
Qed.

Lemma record_lookup (lut : list Z) (k j : nat) (fields : list Z) (v : Z) :
  take 6 (drop (6 * k) lut) = fields -> fields !! j = Some v ->
  lut !! (6 * k + j)%nat = Some v.
Proof.
  intros <- Hv. apply lookup_take_Some in Hv as [Hv _].
  by rewrite lookup_drop in Hv.
Qed.

(** X18: the table [make_dxx_lut] returns for a binary layout has one
    header record of six entries per segment, two increments per block and
    step, and two closing zeros; record [k] holds the offset of the
    segment's first increment, the segment's length in elements, its
    column and depth slice, and no lock. [num_locks] is 1 and [width] the
    number of segments. *)
Theorem lut_table_shape (mem : nat -> heap) (layout : tensor) (block : Z)
  (step : positive) (trans : bool) (nz nh nw : nat) (lut : list Z)
  (locks width : Z) :
  shape layout = [nz; nh; nw] -> binary layout ->
  make_dxx_lut mem layout block step trans (fun idx => idx)
  = Ok (lut, locks, width) ->
  let num_blocks := Z.of_nat (length (blocks_of layout trans)) in
  let div := block / Z.pos step in
  exists st,
    make_dxx_lut_balance mem layout trans = Ok st
    /\ locks = 1
    /\ width = Z.of_nat (length (dxx_segments st))
    /\ Z.of_nat (length lut) = 6 * width + 2 * div * num_blocks + 2
    /\ drop (length lut - 2) lut = [0; 0]
    /\ forall (k : nat) (seg off col dep : Z),
         dxx_segments st !! k = Some seg -> dxx_offsets st !! k = Some off ->
         dxx_column st !! k = Some col -> dxx_depth st !! k = Some dep ->
         take 6 (drop (6 * k) lut)
         = map wrap32 [6 * width + 2 * div * Z.min off (num_blocks - 1);
                       seg * Z.pos step * div; col; dep; 0; 0].
Proof.
  intros Hshape Hb Hrun num_blocks div.
  destruct (table_layout _ _ _ _ _ _ _ _ _ _ _ Hshape Hb Hrun)
    as (st & H1 & H2 & H3 & _ & _ & H4 & H5 & H6).
  exists st. done.
Qed.

(** X19: with steps of at most [TILE_K] = 16 and a table that 32-bit
    offsets can address, every entry a task of [_dsd_kernel] or
    [_dds_kernel] loads lies inside the table: the look-ahead load after
    the last block of the last segment hits the two closing zeros. *)
Theorem table_reads_in_bounds (mem : nat -> heap) (layout : tensor) (block : Z)
  (step : positive) (trans : bool) (nz nh nw : nat) (lut : list Z)
  (locks width pid0 : Z) :
  shape layout = [nz; nh; nw] -> binary layout ->
  Z.pos step <= 16 ->
  make_dxx_lut mem layout block step trans (fun idx => idx)
  = Ok (lut, locks, width) ->
  Z.of_nat (length lut) <= 2 ^ 31 ->
  0 <= pid0 < width ->
  Forall (fun p => 0 <= p < Z.of_nat (length lut)) (task_reads lut pid0).
Proof.
  intros Hshape Hb Hstep Hrun Hsmall Hpid.
  destruct (table_layout _ _ _ _ _ _ _ _ _ _ _ Hshape Hb Hrun)
    as (st & Hst & _ & Hw & Hnb & Hdiv & Hlen & _ & Hrec).
  destruct (schedule_facts mem layout trans nz nh nw st Hshape Hb Hst)
    as (Hoff & Htot & (_ & Hc & Hd & _ & _ & Ho) & Hnn & _ & _).
  set (num_blocks := Z.of_nat (length (blocks_of layout trans))) in *.
  set (div := block / Z.pos step) in *.
  set (k := Z.to_nat pid0).
  assert (k < length (dxx_segments st))%nat as Hk by lia.
  destruct (lookup_lt_is_Some_2 (dxx_segments st) k Hk) as [seg Hseg].
  destruct (lookup_lt_is_Some_2 (dxx_column st) k) as [col Hcol]; [lia|].
  destruct (lookup_lt_is_Some_2 (dxx_depth st) k) as [dep Hdep]; [lia|].
  pose proof (prefix_sums_lookup (dxx_segments st) k Hk) as Hoffk.
  rewrite <- Hoff in Hoffk.
  specialize (Hrec k seg _ col dep Hseg Hoffk Hcol Hdep).
  set (off := tsum (take k (dxx_segments st))) in *.
  assert (0 <= seg) as Hseg0.
  { rewrite Forall_forall in Hnn. apply Hnn. by eapply list_elem_of_lookup_2. }
  assert (0 <= off /\ off + seg <= num_blocks) as [Hoff0 Hfit].
  { pose proof (tsum_take_nonneg (dxx_segments st) k Hnn).
    pose proof (tsum_take_nonneg (dxx_segments st) (S k) Hnn) as HS.
    rewrite (tsum_take_S _ _ _ Hseg) in HS. subst off. lia. }
  set (start := 6 * width + 2 * div * Z.min off (num_blocks - 1)) in *.
  assert (0 <= start /\ start + 2 * (seg * div) + 1 < Z.of_nat (length lut))
    as [Hstart0 Hstart].
  { subst start. destruct (Z.eq_dec seg 0) as [-> | Hpos]; nia. }
  unfold task_reads.
  replace (Z.to_nat (pid0 * 6)) with (6 * k + 0)%nat by lia.
  replace (Z.to_nat (pid0 * 6 + 1)) with (6 * k + 1)%nat by lia.
  rewrite (record_lookup lut k 0 _ _ Hrec eq_refl).
  rewrite (record_lookup lut k 1 _ _ Hrec eq_refl).
  cbn [default from_option id].
  rewrite (wrap32_small start) by lia.
  apply Forall_app. split.
  - repeat constructor; lia.
  - apply Forall_forall. intros p (j & Hp & Hj)%list_elem_of_bind.
    apply elem_of_seqZ in Hj.
    assert (kernel_steps (wrap32 (seg * Z.pos step * div)) <= seg * div) as Hsteps.
    { apply kernel_steps_le; [nia|].
      etransitivity; [apply wrap32_le; nia|]. nia. }
    apply elem_of_cons in Hp as [-> | Hp]; [lia|].
    apply elem_of_cons in Hp as [-> | Hp]; [lia|].
    by apply elem_of_nil in Hp.
Qed.

(** ** When the table is built *)

Lemma masked_Forall (P : Z -> Prop) (t : list Z) (mask : list bool) :
  Forall P t -> Forall P (masked t mask).
Proof.
  intros Ht. unfold masked. apply Forall_forall.
  intros x (p & -> & Hp)%list_elem_of_fmap.
  apply list_elem_of_filter in Hp as [_ Hp]. destruct p as [a b].
  apply elem_of_zip_l in Hp. rewrite Forall_forall in Ht. by apply Ht.
Qed.

Lemma nonempty_length {A} (l : list A) : (0 < length l)%nat -> l <> [].
Proof. destruct l; simpl; [lia | done]. Qed.




Lemma make_dxx_lut_returns (mem : nat -> heap) (layout : tensor) (block : Z)
  (step : positive) (trans : bool) (nz nh nw : nat) :
  shape layout = [nz; nh; nw] -> binary layout -> Z.pos step <= block ->
  populated layout trans ->
  exists r, make_dxx_lut mem layout block step trans (fun idx => idx) = Ok r.
Proof.
  intros Hshape Hb Hstep Hpop.
  pose proof (populated_blocks layout trans nz nh nw Hshape Hb Hpop) as Hnb.
  unfold populated in Hpop. rewrite Hshape in Hpop. destruct Hpop as [Hnz Hpop].
  pose proof (binary_nonneg layout Hb) as Hnn.
  destruct (make_dxx_lut_balance_returns mem layout trans nz nh nw Hshape Hnn Hpop)
    as [st Hst].
  destruct (schedule_facts mem layout trans nz nh nw st Hshape Hb Hst)
    as (Hoff & Htot & (_ & Hc & Hdp & Hl & Hm & Ho) & Hsnn & Hlz & Hmz).
  assert (1 <= block / Z.pos step) as Hdniv
    by (apply Z.div_le_lower_bound; lia).
  destruct (make_dxx_lut mem layout block step trans (fun idx => idx))
    as [r|e] eqn:Hrun; [by exists r|exfalso].
  unfold make_dxx_lut in Hrun. rewrite Hst in Hrun. cbn [bind] in Hrun.
  fold (blocks_of layout trans) in Hrun.
  set (nb := length (blocks_of layout trans)) in *.
  set (div := block / Z.pos step) in *.
  destruct (Z.to_nat div) as [|d] eqn:Hdn; [lia|].
  (* xincs *)
  match type of Hrun with
  | bind (view_repeat ?x ?dv) _ = _ =>
      rewrite (view_repeat_ok x dv) in Hrun;
      [ pose proof (repeat_rectangular x (Z.to_nat dv)) as Hr1 | lia ]
  end.
  rewrite deltas_length, length_map, Hdn in Hr1. fold nb in Hr1.
  cbn [bind] in Hrun. rewrite Hdn in Hrun.
  rewrite sub_first_column_ok in Hrun by lia.
  match type of Hrun with
  | bind ?c _ = _ => destruct c as [x2|e'] eqn:Hx2
  end; cbn [bind] in Hrun.
  2: { destruct (sub_firsts_ok ((div - 1) * Z.pos step) _ nb d
                   (fill_tails_rectangular (Z.pos step) _ _ _ Hr1)) as [y Hy].
       congruence. }
  assert (rectangular nb (S d) x2) as Hr2.
  { eapply sub_firsts_rectangular; [|exact Hx2]. by apply fill_tails_rectangular. }
  match type of Hrun with
  | bind (gather ?t ?sel) _ = _ =>
      assert (Forall (fun i => 0 <= i < Z.of_nat nb) sel) as Hsel
  end.
  { apply masked_Forall, Forall_forall. intros i (o & -> & Hin)%list_elem_of_fmap.
    rewrite Hoff in Hin. unfold prefix_sums in Hin.
    apply list_elem_of_fmap in Hin as (k & -> & _).
    pose proof (tsum_take_nonneg (dxx_segments st) k Hsnn). lia. }
  match type of Hrun with
  | bind ?c _ = _ => destruct c as [fx|e'] eqn:Hfx
  end; cbn [bind] in Hrun.
  2: { match type of Hfx with
       | gather ?t ?sel = _ => destruct (gather_ok t sel) as [y Hy]
       end; [by rewrite length_map | congruence]. }
  match type of Hrun with
  | bind ?c _ = _ => destruct c as [x3|e'] eqn:Hx3
  end; cbn [bind] in Hrun.
  2: { match type of Hx3 with
       | scatter_firsts ?x ?sel ?vals = _ =>
           destruct (scatter_firsts_ok sel x vals nb d Hr2 Hsel) as [y Hy]
       end. congruence. }
  assert (rectangular nb (S d) x3) as Hr3
    by (eapply scatter_firsts_rectangular; [|exact Hx3]; done).
  (* wincs *)
  match type of Hrun with
  | bind ?c _ = _ => destruct c as [widx|e'] eqn:Hwidx
  end; cbn [bind] in Hrun.
  2: { destruct trans; [done|]. rewrite Hshape in Hwidx.
       destruct (widx_loop_ok layout nz nh nw (seq 0 nz) Hshape Hb [] 0) as [y Hy].
       congruence. }
  assert (length widx = nb) as Hwl.
  { destruct trans.
    - injection Hwidx as <-. rewrite length_seqZ. lia.
    - rewrite Hshape in Hwidx. apply widx_loop_length in Hwidx.
      pose proof (nonzero_count layout false nz nh nw Hshape Hb) as Hcount.
      fold nb in Hcount. cbn [length] in Hwidx. lia. }
  match type of Hrun with
  | bind (view_repeat ?x ?dv) _ = _ =>
      rewrite (view_repeat_ok x dv) in Hrun;
      [ pose proof (repeat_rectangular x (Z.to_nat dv)) as Hw1 | lia ]
  end.
  rewrite deltas_length, length_map, Hdn, Hwl in Hw1.
  cbn [bind] in Hrun. rewrite Hdn in Hrun.
  rewrite !sub_first_column_ok in Hrun by lia.
  match type of Hrun with
  | bind ?c _ = _ => destruct c as [w2|e'] eqn:Hw2
  end; cbn [bind] in Hrun.
  2: { destruct trans.
       - destruct (sub_firsts_ok ((div - 1) * Z.pos step) _ nb d
                     (fill_tails_rectangular (Z.pos step) _ _ _ Hw1)) as [y Hy].
         congruence.
       - destruct (sub_firsts_ok ((div - 1) * Z.pos step * block) _ nb d
                     (fill_tails_rectangular (Z.pos step * block) _ _ _ Hw1))
           as [y Hy].
         congruence. }
  assert (rectangular nb (S d) w2) as Hwr2.
  { destruct trans; (eapply sub_firsts_rectangular; [|exact Hw2]);
      by apply fill_tails_rectangular. }
  match type of Hrun with
  | bind ?c _ = _ => destruct c as [fw|e'] eqn:Hfw
  end; cbn [bind] in Hrun.
  2: { match type of Hfw with
       | gather ?t ?sel = _ => destruct (gather_ok t sel) as [y Hy]
       end; [by rewrite Hwl | congruence]. }
  match type of Hrun with
  | bind ?c _ = _ => destruct c as [w3|e'] eqn:Hw3
  end; cbn [bind] in Hrun.
  2: { match type of Hw3 with
       | scatter_firsts ?x ?sel ?vals = _ =>
           destruct (scatter_firsts_ok sel x vals nb d Hwr2 Hsel) as [y Hy]
       end. congruence. }
  assert (rectangular nb (S d) w3) as Hwr3
    by (eapply scatter_firsts_rectangular; [|exact Hw3]; done).
  unfold stack_pairs in Hrun.
  rewrite (concat_rectangular _ _ _ Hr3), (concat_rectangular _ _ _ Hwr3),
    Nat.eqb_refl in Hrun.
  cbn [negb bind] in Hrun.
  assert (dxx_lockid st <> []) as Hne.
  { apply nonempty_length. rewrite Hl.
    destruct (dxx_segments st) eqn:Hsegs; [|simpl; lia].
    change (tsum []) with 0 in Htot. lia. }
  rewrite (tmax_zeros _ Hne Hlz) in Hrun. done.
Qed.

Lemma make_dxx_lut_raises (mem : nat -> heap) (layout : tensor) (block : Z)
  (step : positive) (trans : bool) (nz nh nw : nat) :
  shape layout = [nz; nh; nw] -> binary layout -> Z.pos step <= block ->
  ~ populated layout trans ->
  make_dxx_lut mem layout block step trans (fun idx => idx) = Raise RuntimeError.
Proof.
  intros Hshape Hb Hstep Hno.
  pose proof (binary_nonneg layout Hb) as Hnn.
  unfold populated in Hno. rewrite Hshape in Hno.
  destruct nz as [|nz].
  - (* no depth slice: every step works on empty tensors, up to the
       maximum of the lock ids *)
    assert (1 <= block / Z.pos step) as Hdiv
      by (apply Z.div_le_lower_bound; lia).
    unfold make_dxx_lut, make_dxx_lut_balance. rewrite Hshape.
    cbn [seq dxx_loop bind dxx_segments dxx_offsets dxx_lockid map].
    assert ((if trans then nonzero layout else nonzero_transposed layout) = [])
      as ->.
    { unfold nonzero, nonzero_transposed. rewrite Hshape. by destruct trans. }
    cbn [length map]. change (deltas []) with (@nil Z).
    rewrite view_repeat_ok by lia. cbn [bind map fill_tails].
    rewrite sub_first_column_ok by lia. cbn [sub_firsts bind].
    change (masked [] []) with (@nil Z). cbn [gather scatter_firsts bind concat].
    assert ((if trans then Ok (seqZ 0 (Z.of_nat 0))
             else widx_loop layout [] [] 0) = Ok []) as ->
      by (by destruct trans).
    cbn [bind map]. change (deltas []) with (@nil Z).
    rewrite view_repeat_ok by lia. cbn [bind map fill_tails].
    rewrite !sub_first_column_ok by lia. cbn [sub_firsts].
    by destruct trans.
  - destruct (decide (Forall (fun z => has_nonzero (slice_sizes layout trans z))
                        (seq 0 (S nz)))) as [Hall | Hex].
    + exfalso. apply Hno. split; [lia|]. intros z Hz.
      rewrite Forall_forall in Hall. apply Hall, elem_of_seq. lia.
    + apply not_Forall_Exists in Hex; [|apply _].
      unfold make_dxx_lut, make_dxx_lut_balance. rewrite Hshape.
      rewrite (dxx_loop_raises mem layout trans _ _ Hnn); [done|].
      eapply Exists_impl; [exact Hex|]. done.
Qed.

(** A layout without depth slices. With blocks of 16 every step goes
    through on empty tensors and [lockid.max()] raises; with blocks of 8,
    below the step of 16, the matrix of increments has no column and
    [xincs[:, 0] -= ...] raises first. *)
Lemma no_depth_slice_raises (mem : nat -> heap) (trans : bool) :
  make_dxx_lut mem {| shape := [0; 2; 2]%nat; data := [] |} 16 16 trans
    (fun idx => idx) = Raise RuntimeError
  /\ make_dxx_lut mem {| shape := [0; 2; 2]%nat; data := [] |} 8 16 trans
       (fun idx => idx) = Raise IndexError.
Proof. by destruct trans. Qed.

(** X20: for a binary layout and blocks of at least one step, of a size
    within the int32 range of the table, [make_dxx_lut] returns exactly
    when the layout has a depth slice and every depth slice has a populated
    block. Otherwise it raises a [RuntimeError]: that of [load_balance] at
    the first depth slice without a block or, when there is no depth slice
    at all, that of [lockid.max()] on the empty vector of lock ids, once
    every step before it has gone through on empty tensors. *)
Theorem table_built_iff_populated (mem : nat -> heap) (layout : tensor)
  (block : Z) (step : positive) (trans : bool) (nz nh nw : nat) :
  shape layout = [nz; nh; nw] -> binary layout ->
  Z.pos step <= block < 2 ^ 31 ->
  ((exists r, make_dxx_lut mem layout block step trans (fun idx => idx) = Ok r)
   <-> populated layout trans)
  /\ (~ populated layout trans ->
      make_dxx_lut mem layout block step trans (fun idx => idx)
      = Raise RuntimeError).
Proof.
  intros Hshape Hb [Hstep _]. split; [split|].
  - intros [r Hr].
    assert (Decision (populated layout trans)) as [Hpop | Hno].
    { unfold populated. rewrite Hshape.
      destruct (decide (Forall (fun z => has_nonzero (slice_sizes layout trans z))
                          (seq 0 nz))) as [Hall | Hex].
      - destruct (decide (0 < nz)%nat); [left | right; tauto].
        split; [done|]. intros z Hz. rewrite Forall_forall in Hall.
        apply Hall, elem_of_seq. lia.
      - right. intros [_ Hall]. apply Hex, Forall_forall.
        intros z Hz%elem_of_seq. apply Hall. lia. }
    + done.
    + rewrite (make_dxx_lut_raises mem layout block step trans nz nh nw
                 Hshape Hb Hstep Hno) in Hr. done.
  - by apply (make_dxx_lut_returns mem layout block step trans nz nh nw).
  - by apply (make_dxx_lut_raises mem layout block step trans nz nh nw).
Qed.

(** ** The walk of a task along its increments *)

Lemma elem_of_masked (t : list Z) (mask : list bool) (x : Z) :
  x ∈ masked t mask <-> exists k, t !! k = Some x /\ mask !! k = Some true.
Proof.
  unfold masked. split.
  - intros (p & -> & Hp)%list_elem_of_fmap.
    apply list_elem_of_filter in Hp as [Htrue Hp]. destruct p as [a b].
    simpl in Htrue. subst b.
    apply list_elem_of_lookup in Hp as [k Hk].
    apply lookup_zip_with_Some in Hk as (a' & b' & [= <- <-] & Ha & Hb).
    by exists k.
  - intros (k & Hx & Hm). apply list_elem_of_fmap. exists (x, true).
    split; [done|]. apply list_elem_of_filter. split; [done|].
    apply list_elem_of_lookup. exists k.
    apply lookup_zip_with_Some. by exists x, true.
Qed.

Lemma deltas_lookup_0 (idx : list Z) (a : Z) :
  idx !! 0%nat = Some a -> deltas idx !! 0%nat = Some (a - 0).
Proof. destruct idx; [done|]. by intros [= ->]. Qed.

Lemma deltas_lookup_S (idx : list Z) (m : nat) (a b : Z) :
  idx !! m = Some a -> idx !! S m = Some b -> deltas idx !! S m = Some (b - a).
Proof.
  intros Ha Hb. unfold deltas. apply lookup_zip_with_Some. by exists b, a.
Qed.

Lemma tsum_take_mono (t : list Z) (k1 k2 : nat) :
  Forall (fun s => 0 <= s) t -> (k1 <= k2)%nat ->
  tsum (take k1 t) <= tsum (take k2 t).
Proof.
  intros Hnn Hle.
  replace (take k1 t) with (take k1 (take k2 t))
    by (rewrite take_take; f_equal; lia).
  apply tsum_take_nonneg. by apply Forall_take.
Qed.

Lemma blocks_in_range (layout : tensor) (trans : bool) (nz nh nw : nat)
  (cell : nat * nat * nat) :
  shape layout = [nz; nh; nw] -> cell ∈ blocks_of layout trans ->
  (cell.2 < Nat.max nh nw)%nat.
Proof.
  intros Hshape. unfold blocks_of, nonzero, nonzero_transposed. rewrite Hshape.
  destruct trans; intros [_ Hin]%list_elem_of_filter.
  - unfold cells_by_rows in Hin.
    apply list_elem_of_bind in Hin as (z & Hin & _).
    apply list_elem_of_bind in Hin as (h & Hin & _).
    apply list_elem_of_bind in Hin as (w & Hin & Hw%elem_of_seq).
    apply list_elem_of_singleton in Hin as ->. simpl. lia.
  - unfold cells_by_columns in Hin.
    apply list_elem_of_bind in Hin as (z & Hin & _).
    apply list_elem_of_bind in Hin as (w & Hin & _).
    apply list_elem_of_bind in Hin as (h & Hin & Hh%elem_of_seq).
    apply list_elem_of_singleton in Hin as ->. simpl. lia.
Qed.

(** The entries of the increments zone. *)
Lemma increments_zone (header xincs wincs : list Z) (m : nat) (u v : Z) :
  xincs !! m = Some u -> wincs !! m = Some v ->
  map wrap32 (header ++ concat (zip_with (fun u v => [u; v]) xincs wincs) ++ [0; 0])
    !! (length header + 2 * m)%nat = Some (wrap32 u)
  /\ map wrap32 (header ++ concat (zip_with (fun u v => [u; v]) xincs wincs) ++ [0; 0])
       !! (length header + 2 * m + 1)%nat = Some (wrap32 v).
Proof.
  intros Hu Hv. destruct (stack_pairs_lookup xincs wincs m u v Hu Hv) as [H1 H2].
  split; apply map_lookup.
  - rewrite lookup_app_r by lia.
    replace (length header + 2 * m - length header)%nat with (2 * m)%nat by lia.
    by apply lookup_app_l_Some.
  - rewrite lookup_app_r by lia.
    replace (length header + 2 * m + 1 - length header)%nat
      with (2 * m + 1)%nat by lia.
    by apply lookup_app_l_Some.
Qed.

Lemma walk_blocks (start : Z) (inc : nat -> Z) (d seg : nat) (p : nat -> Z)
  (tailv : Z) :
  start = p 0%nat ->
  (forall j u, (j < seg)%nat -> (1 <= u <= d)%nat ->
               inc (j * S d + u)%nat = tailv) ->
  (forall j, (1 <= j < seg)%nat ->
             inc (j * S d)%nat = p j - p (j - 1)%nat - Z.of_nat d * tailv) ->
  forall j u, (j < seg)%nat -> (u <= d)%nat ->
              walk start inc (j * S d + u) = p j + Z.of_nat u * tailv.
Proof.
  intros Hstart Htail Hfirst.
  assert (forall j, (j < seg)%nat -> walk start inc (j * S d) = p j ->
          forall u, (u <= d)%nat ->
                    walk start inc (j * S d + u) = p j + Z.of_nat u * tailv)
    as Hinner.
  { intros j Hj Hbase u. induction u as [|u IH]; intros Hu.
    - rewrite Nat.add_0_r, Hbase. lia.
    - rewrite Nat.add_succ_r. cbn [walk]. rewrite IH by lia.
      rewrite <- Nat.add_succ_r, Htail by lia. lia. }
  assert (forall j, (j < seg)%nat -> walk start inc (j * S d) = p j) as Hbase.
  { induction j as [|j IH]; intros Hj; [done|].
    replace (S j * S d)%nat with (S (j * S d + d)) by lia. cbn [walk].
    rewrite (Hinner j) by (try apply IH; lia).
    replace (S (j * S d + d)) with (S j * S d)%nat by lia.
    rewrite Hfirst by lia. replace (S j - 1)%nat with j by lia. lia. }
  intros j u Hj Hu. apply Hinner; [done | by apply Hbase | done].
Qed.

Lemma map_lookup_inv {A B} (f : A -> B) (l : list A) (k : nat) (y : B) :
  map f l !! k = Some y -> exists x, l !! k = Some x /\ y = f x.
Proof.
  revert k. induction l as [|a l IH]; intros [|k]; try done.
  - intros [= <-]. by exists a.
  - apply IH.
Qed.

(** A segment that is not empty starts at a block of its own, and no
    other such segment starts inside it. *)
Lemma segment_starts (segs : list Z) (step : positive) (nb : Z) (k : nat)
  (seg : Z) :
  Forall (fun s => 0 <= s) segs -> tsum segs = nb ->
  segs !! k = Some seg -> 0 < seg ->
  let off := tsum (take k segs) in
  let starts :=
    masked (map (fun o => Z.min o (nb - 1)) (prefix_sums segs))
           (map (fun s => 0 <? s) (map (fun s => s * Z.pos step) segs)) in
  0 <= off /\ off + seg <= nb
  /\ off ∈ starts
  /\ forall i, i ∈ starts -> 0 <= i < nb /\ (i <= off \/ off + seg <= i).
Proof.
  intros Hnn Htot Hseg Hpos off starts.
  assert (forall k' s', segs !! k' = Some s' ->
            0 <= tsum (take k' segs)
            /\ tsum (take k' segs) + s' <= nb) as Hfit.
  { intros k' s' Hs'.
    pose proof (tsum_take_nonneg segs k' Hnn).
    pose proof (tsum_take_nonneg segs (S k') Hnn) as HS.
    rewrite (tsum_take_S _ _ _ Hs') in HS. lia. }
  destruct (Hfit k seg Hseg) as [Hoff0 Hoff1]. fold off in Hoff0, Hoff1.
  split; [done|]. split; [done|]. split.
  - apply elem_of_masked. exists k. split.
    + pose proof (map_lookup (fun o => Z.min o (nb - 1)) _ k _
                    (prefix_sums_lookup segs k (lookup_lt_Some _ _ _ Hseg))) as Hk.
      fold off in Hk. cbv beta in Hk.
      replace (Z.min off (nb - 1)) with off in Hk by lia. exact Hk.
    + pose proof (map_lookup (fun s => 0 <? s) _ k _
                    (map_lookup (fun s => s * Z.pos step) _ k _ Hseg)) as Hk.
      cbv beta in Hk.
      replace (0 <? seg * Z.pos step) with true in Hk
        by (symmetry; apply Z.ltb_lt; lia).
      exact Hk.
  - intros i (k' & Hi & Hm)%elem_of_masked.
    apply map_lookup_inv in Hi as (off' & Hoff' & ->).
    apply map_lookup_inv in Hm as (s1 & Hs1 & Htrue).
    apply map_lookup_inv in Hs1 as (seg' & Hseg' & ->).
    symmetry in Htrue. apply Z.ltb_lt in Htrue.
    rewrite prefix_sums_lookup in Hoff' by (by eapply lookup_lt_Some).
    injection Hoff' as <-.
    destruct (Hfit k' seg' Hseg') as [H0 H1].
    assert (0 < seg') by lia.
    split; [lia|].
    destruct (Nat.lt_trichotomy k' k) as [Hlt | [-> | Hgt]].
    + left. pose proof (tsum_take_mono segs (S k') k Hnn Hlt) as Hmono.
      rewrite (tsum_take_S _ _ _ Hseg') in Hmono. fold off in Hmono. lia.
    + left. fold off. lia.
    + right. pose proof (tsum_take_mono segs (S k) k' Hnn Hgt) as Hmono.
      rewrite (tsum_take_S _ _ _ Hseg) in Hmono. fold off in Hmono. lia.
Qed.

(** The two columns of the increments zone of a returned table. *)
Lemma table_increments (mem : nat -> heap) (layout : tensor) (block : Z)
  (step : positive) (trans : bool) (nz nh nw : nat) (lut : list Z)
  (locks width : Z) (st : dxx_state) :
  shape layout = [nz; nh; nw] -> binary layout ->
  make_dxx_lut mem layout block step trans (fun idx => idx)
  = Ok (lut, locks, width) ->
  make_dxx_lut_balance mem layout trans = Ok st ->
  let num_blocks := Z.of_nat (length (blocks_of layout trans)) in
  let div := block / Z.pos step in
  let n := length (dxx_segments st) in
  let idx := map (fun cell : nat * nat * nat => Z.of_nat cell.2 * block)
                 (blocks_of layout trans) in
  let starts :=
    masked (map (fun o => Z.min o (num_blocks - 1)) (prefix_sums (dxx_segments st)))
           (map (fun s => 0 <? s)
              (map (fun s => s * Z.pos step) (dxx_segments st))) in
  exists xincs wincs widx d,
    Z.to_nat div = S d /\ 0 < div /\ width = Z.of_nat n
    /\ length wincs = length xincs
    /\ (forall m x, xincs !! m = Some x ->
                    lut !! (6 * n + 2 * m)%nat = Some (wrap32 x))
    /\ (forall m w, wincs !! m = Some w ->
                    lut !! (6 * n + 2 * m + 1)%nat = Some (wrap32 w))
    /\ (if trans then Ok (seqZ 0 num_blocks)
        else widx_loop layout (seq 0 nz) [] 0) = Ok widx
    /\ length widx = length (blocks_of layout trans)
    /\ increments (S d) idx (deltas idx) (Z.pos step)
         ((div - 1) * Z.pos step) starts xincs
    /\ increments (S d) widx
         (deltas (map (fun i => i * block * block) widx))
         (if trans then Z.pos step else Z.pos step * block)
         (if trans then (div - 1) * Z.pos step
          else (div - 1) * Z.pos step * block)
         starts wincs.
Proof.
  intros Hshape Hb Hrun Hst num_blocks div n idx starts.
  destruct (make_dxx_lut_inv _ _ _ _ _ _ _ _ Hrun)
    as (st' & xincs & wincs & widx & lockmax & Hst' & Hmax & -> & -> & Hdiv
        & Hx & Hw & -> & Hwidx & Hwl & Hix & Hiw).
  rewrite Hst in Hst'. injection Hst' as <-.
  destruct (schedule_facts mem layout trans nz nh nw st Hshape Hb Hst)
    as (Hoff & Htot & (_ & Hc & Hd & Hl & Hm & Ho) & Hnn & Hlz & Hmz).
  fold num_blocks div in Hdiv, Hx, Hix, Hiw, Hwidx |- *.
  rewrite Hoff in Hix, Hiw. fold idx starts in Hix, Hiw.
  destruct (Z.to_nat div) as [|d] eqn:Hdn; [lia|].
  exists xincs, wincs, widx, d.
  split; [done|]. split; [done|]. split; [by rewrite Hc|]. split; [done|].
  set (header := stack_header _ _ _ _ _ _).
  assert (length header = (6 * n)%nat) as Hhl.
  { apply stack_header_length; rewrite ?length_map; done. }
  rewrite <- Hhl.
  split.
  { intros m x Hmx.
    destruct (lookup_lt_is_Some_2 wincs m) as [w Hmw];
      [rewrite Hw; by eapply lookup_lt_Some|].
    by destruct (increments_zone header xincs wincs m x w Hmx Hmw). }
  split.
  { intros m w Hmw.
    destruct (lookup_lt_is_Some_2 xincs m) as [x Hmx];
      [rewrite <- Hw; by eapply lookup_lt_Some|].
    by destruct (increments_zone header xincs wincs m x w Hmx Hmw). }
  split; [by rewrite Hshape in Hwidx|]. done.
Qed.

(** The offset field of the header record of a segment that is not
    empty. *)
Lemma header_offset (mem : nat -> heap) (layout : tensor) (block : Z)
  (step : positive) (trans : bool) (nz nh nw : nat) (lut : list Z)
  (locks width : Z) (st : dxx_state) (k : nat) (seg off : Z) :
  shape layout = [nz; nh; nw] -> binary layout ->
  make_dxx_lut mem layout block step trans (fun idx => idx)
  = Ok (lut, locks, width) ->
  make_dxx_lut_balance mem layout trans = Ok st ->
  Z.of_nat (length lut) <= 2 ^ 31 ->
  dxx_segments st !! k = Some seg -> dxx_offsets st !! k = Some off ->
  0 < seg ->
  lut !! (6 * k)%nat = Some (6 * width + 2 * (block / Z.pos step) * off).
Proof.
  intros Hshape Hb Hrun Hst Hsmall Hseg Hoffk Hpos.
  destruct (table_layout _ _ _ _ _ _ _ _ _ _ _ Hshape Hb Hrun)
    as (st' & Hst' & _ & Hw & Hnb & Hdiv & Hlen & _ & Hrec).
  rewrite Hst in Hst'. injection Hst' as <-.
  destruct (schedule_facts mem layout trans nz nh nw st Hshape Hb Hst)
    as (Hoff & Htot & (_ & Hc & Hd & _ & _ & Ho) & Hnn & _ & _).
  pose proof (lookup_lt_Some _ _ _ Hseg) as Hk.
  destruct (lookup_lt_is_Some_2 (dxx_column st) k) as [col Hcol]; [lia|].
  destruct (lookup_lt_is_Some_2 (dxx_depth st) k) as [dep Hdep]; [lia|].
  specialize (Hrec k seg off col dep Hseg Hoffk Hcol Hdep).
  rewrite Hoff, prefix_sums_lookup in Hoffk by done. injection Hoffk as <-.
  destruct (segment_starts (dxx_segments st) step _ k seg Hnn Htot Hseg Hpos)
    as (Ho0 & Ho1 & _ & _).
  rewrite <- (Nat.add_0_r (6 * k)).
  rewrite (record_lookup lut k 0 _ _ Hrec eq_refl).
  rewrite Z.min_l by lia. rewrite wrap32_small by nia. done.
Qed.

(** The entries of the increments of one segment that is not empty. *)
Lemma segment_increments (d : nat) (t dl : list Z) (tailv subv : Z)
  (sel flat : list Z) (o sg : nat) :
  increments (S d) t dl tailv subv sel flat ->
  length dl = length t -> (o + sg <= length t)%nat -> (0 < sg)%nat ->
  Z.of_nat o ∈ sel ->
  (forall i, i ∈ sel ->
             0 <= i < Z.of_nat (length t)
             /\ (i <= Z.of_nat o \/ Z.of_nat (o + sg) <= i)) ->
  (exists a, t !! o = Some a /\ flat !! (o * S d)%nat = Some a)
  /\ (forall jj delta, (1 <= jj < sg)%nat -> dl !! (o + jj)%nat = Some delta ->
        flat !! ((o + jj) * S d)%nat = Some (delta - subv))
  /\ (forall jj uu, (jj < sg)%nat -> (1 <= uu <= d)%nat ->
        flat !! ((o + jj) * S d + uu)%nat = Some tailv).
Proof.
  intros Hinc Hlen Hfit Hsg Hin Hothers.
  split; [|split].
  - destruct (lookup_lt_is_Some_2 dl o) as [delta Hdelta]; [lia|].
    destruct (Hinc o delta Hdelta) as (a & Hfirst & _ & [[Ht _] | [_ Hnone]]).
    + by exists a.
    + exfalso. apply (Hnone (Z.of_nat o) Hin).
      rewrite item_index_ok by lia. by rewrite Nat2Z.id.
  - intros jj delta Hjj Hdelta.
    destruct (Hinc (o + jj)%nat delta Hdelta)
      as (a & Hfirst & _ & [[_ (i & Hi & Hidx)] | [-> _]]); [|done].
    exfalso. destruct (Hothers i Hi) as [Hrange Hcase].
    rewrite item_index_ok in Hidx by lia. injection Hidx as Hidx. lia.
  - intros jj uu Hjj Huu.
    destruct (lookup_lt_is_Some_2 dl (o + jj)) as [delta Hdelta]; [lia|].
    destruct (Hinc (o + jj)%nat delta Hdelta) as (a & _ & Htail & _).
    apply Htail. lia.
Qed.

(** X21: a task that follows the increments of its segment reaches, for
    tile [u] of the segment's block [j], the dense position of that block
    plus [u] steps: the position is [block] times the block's index along
    the reduced dimension. The walk starts at the offset the header record
    of the segment holds. *)
Theorem dense_walk_visits_blocks (mem : nat -> heap) (layout : tensor)
  (block : Z) (step : positive) (trans : bool) (nz nh nw : nat) (lut : list Z)
  (locks width : Z) (st : dxx_state) (k : nat) (seg off j u : Z) :
  shape layout = [nz; nh; nw] -> binary layout ->
  make_dxx_lut mem layout block step trans (fun idx => idx)
  = Ok (lut, locks, width) ->
  make_dxx_lut_balance mem layout trans = Ok st ->
  Z.of_nat (length lut) <= 2 ^ 31 ->
  Z.of_nat (Nat.max nh nw) * block < 2 ^ 31 ->
  dxx_segments st !! k = Some seg -> dxx_offsets st !! k = Some off ->
  0 <= j < seg -> 0 <= u < block / Z.pos step ->
  exists pinc cell,
    lut !! (6 * k)%nat = Some pinc
    /\ blocks_of layout trans !! Z.to_nat (off + j) = Some cell
    /\ dense_position lut pinc (Z.to_nat (j * (block / Z.pos step) + u))
       = Z.of_nat cell.2 * block + u * Z.pos step.
Proof.
  intros Hshape Hb Hrun Hst Hlut Hsmall Hseg Hoffk Hj Hu.
  exists (6 * width + 2 * (block / Z.pos step) * off).
  assert (exists cell,
    blocks_of layout trans !! Z.to_nat (off + j) = Some cell
    /\ dense_position lut (6 * width + 2 * (block / Z.pos step) * off)
         (Z.to_nat (j * (block / Z.pos step) + u))
       = Z.of_nat cell.2 * block + u * Z.pos step) as (cell & Hcell & Hwalk);
    [|exists cell; split; [|done];
      by apply (header_offset mem layout block step trans nz nh nw lut locks
                  width st k seg off); try lia].
  destruct (table_increments _ _ _ _ _ _ _ _ _ _ _ _ Hshape Hb Hrun Hst)
    as (xincs & wincs & widx & d & Hdn & Hdiv & -> & Hwx & Hlx & _ & _ & _
        & Hix & _).
  destruct (schedule_facts mem layout trans nz nh nw st Hshape Hb Hst)
    as (Hoff & Htot & _ & Hnn & _ & _).
  rewrite Hoff, prefix_sums_lookup in Hoffk by (by eapply lookup_lt_Some).
  injection Hoffk as <-.
  destruct (segment_starts (dxx_segments st) step _ k seg Hnn Htot Hseg)
    as (Ho0 & Ho1 & Hin & Hothers); [lia|].
  set (off := tsum (take k (dxx_segments st))) in *.
  set (n := length (dxx_segments st)) in *.
  set (blocks := blocks_of layout trans) in *.
  set (idx := map (fun cell : nat * nat * nat => Z.of_nat cell.2 * block) blocks) in *.
  assert (Z.pos step * (block / Z.pos step) <= block) as Hsteps
    by (apply Z.mul_div_le; lia).
  set (div := block / Z.pos step) in *.
  assert (div = Z.of_nat (S d)) as Hdd by lia. clearbody div. subst div.
  set (o := Z.to_nat off). set (sg := Z.to_nat seg).
  assert (forall m c, idx !! m = Some c ->
            0 <= c <= (Z.of_nat (Nat.max nh nw) - 1) * block) as Hidx.
  { intros m c Hc. apply map_lookup_inv in Hc as (cell & Hcell & ->).
    pose proof (blocks_in_range layout trans nz nh nw cell Hshape
                  (list_elem_of_lookup_2 _ _ _ Hcell)). nia. }
  destruct (segment_increments d idx (deltas idx) (Z.pos step)
              ((Z.of_nat (S d) - 1) * Z.pos step) _ xincs o sg Hix)
    as ((c0 & Hc0 & Hrow0) & Hrows & Htails).
  { apply deltas_length. }
  { subst idx. rewrite length_map. subst o sg. lia. }
  { subst sg. lia. }
  { subst o. by rewrite Z2Nat.id by lia. }
  { intros i Hi. destruct (Hothers i Hi) as [Hr Hc]. subst idx o sg.
    rewrite length_map. lia. }
  assert (0 < block /\ block < 2 ^ 31) as [Hblock Hblock31].
  { pose proof (Hidx _ _ Hc0). nia. }
  destruct (lookup_lt_is_Some_2 blocks (Z.to_nat (off + j))) as [cell Hcell];
    [lia|].
  exists cell. split; [done|].
  set (p := fun jj : nat => default 0 (idx !! (o + jj)%nat)).
  assert (forall jj, (jj < sg)%nat -> idx !! (o + jj)%nat = Some (p jj)) as Hp.
  { intros jj Hjj. subst p. cbv beta.
    destruct (lookup_lt_is_Some_2 idx (o + jj)) as [c Hc];
      [subst idx; rewrite length_map; lia|].
    by rewrite Hc. }
  unfold dense_position.
  replace (Z.to_nat (j * Z.of_nat (S d) + u))
    with (Z.to_nat j * S d + Z.to_nat u)%nat by lia.
  rewrite (walk_blocks _ _ d sg p (Z.pos step)).
  - subst p. cbv beta.
    replace (o + Z.to_nat j)%nat with (Z.to_nat (off + j)) by lia.
    subst idx. rewrite (map_lookup _ _ _ _ Hcell). cbn [default from_option id].
    lia.
  - replace (Z.to_nat (6 * Z.of_nat n + 2 * Z.of_nat (S d) * off))
      with (6 * n + 2 * (o * S d))%nat by lia.
    rewrite (Hlx _ _ Hrow0). cbn [default from_option id].
    pose proof (Hidx _ _ Hc0). rewrite wrap32_small by lia.
    subst p. cbv beta. rewrite Nat.add_0_r, Hc0. done.
  - intros jj uu Hjj Huu.
    replace (Z.to_nat (6 * Z.of_nat n + 2 * Z.of_nat (S d) * off
                       + 2 * Z.of_nat (jj * S d + uu)))
      with (6 * n + 2 * ((o + jj) * S d + uu))%nat by lia.
    rewrite (Hlx _ _ (Htails jj uu Hjj Huu)). cbn [default from_option id].
    apply wrap32_small. lia.
  - intros jj Hjj.
    replace (Z.to_nat (6 * Z.of_nat n + 2 * Z.of_nat (S d) * off
                       + 2 * Z.of_nat (jj * S d)))
      with (6 * n + 2 * ((o + jj) * S d))%nat by lia.
    assert (idx !! (o + jj - 1)%nat = Some (p (jj - 1)%nat)) as Hprev.
    { replace (o + jj - 1)%nat with (o + (jj - 1))%nat by lia. apply Hp. lia. }
    pose proof (Hp jj (proj2 Hjj)) as Hcur.
    replace (o + jj)%nat with (S (o + jj - 1)) in Hcur by lia.
    pose proof (deltas_lookup_S idx _ _ _ Hprev Hcur) as Hdelta.
    replace (S (o + jj - 1)) with (o + jj)%nat in Hdelta by lia.
    rewrite (Hlx _ _ (Hrows jj _ Hjj Hdelta)). cbn [default from_option id].
    pose proof (Hidx _ _ Hprev). pose proof (Hidx _ _ (Hp jj (proj2 Hjj))).
    rewrite wrap32_small by nia. lia.
  - lia.
  - lia.
Qed.

Lemma block_rank_bound (layout : tensor) (z h w nz nh nw : nat) :
  shape layout = [nz; nh; nw] -> binary layout ->
  0 <= block_rank layout z h w <= slice_total layout z.
Proof.
  intros Hshape Hb. unfold block_rank. rewrite Hshape.
  set (cells := h' ← seq 0 nh; w' ← seq 0 nw; [(h', w')]).
  set (P := fun '(h', w') => 0 < at3 layout z h' w').
  assert (Z.of_nat (length (filter P cells)) = slice_total layout z) as <-.
  { unfold slice_total, sum_axis1. rewrite Hshape. subst cells.
    rewrite length_filter_bind. f_equal. apply map_ext. intros h'.
    rewrite length_filter_bind. f_equal. apply map_ext. intros w'.
    rewrite filter_cons, filter_nil. subst P.
    destruct (at3_binary layout z h' w' Hb) as [H0 | H1];
      destruct (decide _) as [Hd | Hd]; cbn in Hd |- *; lia. }
  pose proof (f_equal (fun l => length (filter P l))
                (take_drop (h * nw + w) cells)) as Hsplit.
  cbv beta in Hsplit. rewrite filter_app, length_app in Hsplit. lia.
Qed.

Lemma widx_loop_bounds (layout : tensor) (nz nh nw : nat) (zs : list nat) :
  shape layout = [nz; nh; nw] -> binary layout ->
  forall widx co r,
    widx_loop layout zs widx co = Ok r -> 0 <= co ->
    Forall (fun v => 0 <= v <= co + tsum (map (slice_total layout) zs)) widx ->
    Forall (fun v => 0 <= v <= co + tsum (map (slice_total layout) zs)) r.
Proof.
  intros Hshape Hb.
  pose proof (binary_nonneg layout Hb) as Hnn.
  induction zs as [|z zs IH]; intros widx co r Hrun Hco Hwidx.
  - by injection Hrun as <-.
  - cbn [widx_loop] in Hrun.
    destruct (Z.eqb_spec (Z.of_nat (length (positive_by_columns layout z)))
                (slice_total layout z)) as [Heq|]; [|done].
    cbn [negb] in Hrun. cbn [map] in Hwidx |- *. rewrite tsum_cons in Hwidx |- *.
    pose proof (slice_total_nonneg layout z Hnn) as Hz.
    assert (0 <= tsum (map (slice_total layout) zs)) as Hrest.
    { apply tsum_nonneg, Forall_forall. intros x (z' & -> & _)%list_elem_of_fmap.
      by apply slice_total_nonneg. }
    apply IH in Hrun; [|lia|].
    + eapply Forall_impl; [exact Hrun|]. intros v Hv. cbv beta in Hv. lia.
    + apply Forall_app. split.
      * eapply Forall_impl; [exact Hwidx|]. intros v Hv. cbv beta in Hv. lia.
      * apply Forall_forall. intros v (cell & -> & _)%list_elem_of_fmap.
        destruct cell as [h w].
        pose proof (block_rank_bound layout z h w nz nh nw Hshape Hb). lia.
Qed.

(** X22: along the same walk the pointer into the sparse operand reaches,
    for tile [u] of block [j] of the segment, the start of the block
    numbered [widx[off + j]] plus [u] steps along the reduced dimension of
    the block; when [trans] is set the blocks are numbered in the order
    they are reduced. *)
Theorem sparse_walk_visits_blocks (mem : nat -> heap) (layout : tensor)
  (block : Z) (step : positive) (trans : bool) (nz nh nw : nat) (lut : list Z)
  (locks width : Z) (st : dxx_state) (k : nat) (seg off j u : Z) :
  shape layout = [nz; nh; nw] -> binary layout ->
  make_dxx_lut mem layout block step trans (fun idx => idx)
  = Ok (lut, locks, width) ->
  make_dxx_lut_balance mem layout trans = Ok st ->
  Z.of_nat (length lut) <= 2 ^ 31 ->
  (Z.of_nat (length (blocks_of layout trans)) + 1) * block * block < 2 ^ 31 ->
  dxx_segments st !! k = Some seg -> dxx_offsets st !! k = Some off ->
  0 <= j < seg -> 0 <= u < block / Z.pos step ->
  exists pinc widx w,
    lut !! (6 * k)%nat = Some pinc
    /\ (if trans then Ok (seqZ 0 (Z.of_nat (length (blocks_of layout trans))))
        else widx_loop layout (seq 0 nz) [] 0) = Ok widx
    /\ widx !! Z.to_nat (off + j) = Some w
    /\ (trans = true -> w = off + j)
    /\ sparse_position lut block pinc
         (Z.to_nat (j * (block / Z.pos step) + u))
       = w * block * block
         + u * (if trans then Z.pos step else Z.pos step * block).
Proof.
  intros Hshape Hb Hrun Hst Hlut Hsmall Hseg Hoffk Hj Hu.
  exists (6 * width + 2 * (block / Z.pos step) * off).
  assert (exists widx w,
    (if trans then Ok (seqZ 0 (Z.of_nat (length (blocks_of layout trans))))
     else widx_loop layout (seq 0 nz) [] 0) = Ok widx
    /\ widx !! Z.to_nat (off + j) = Some w
    /\ (trans = true -> w = off + j)
    /\ sparse_position lut block (6 * width + 2 * (block / Z.pos step) * off)
         (Z.to_nat (j * (block / Z.pos step) + u))
       = w * block * block
         + u * (if trans then Z.pos step else Z.pos step * block))
    as (widx & w & H1 & H2 & H3 & H4);
    [|exists widx, w; split; [|done];
      by apply (header_offset mem layout block step trans nz nh nw lut locks
                  width st k seg off); try lia].
  destruct (table_increments _ _ _ _ _ _ _ _ _ _ _ _ Hshape Hb Hrun Hst)
    as (xincs & wincs & widx & d & Hdn & Hdiv & -> & Hwx & _ & Hlw & Hwidx & Hwl
        & _ & Hiw).
  destruct (schedule_facts mem layout trans nz nh nw st Hshape Hb Hst)
    as (Hoff & Htot & _ & Hnn & _ & _).
  rewrite Hoff, prefix_sums_lookup in Hoffk by (by eapply lookup_lt_Some).
  injection Hoffk as <-.
  destruct (segment_starts (dxx_segments st) step _ k seg Hnn Htot Hseg)
    as (Ho0 & Ho1 & Hin & Hothers); [lia|].
  set (off := tsum (take k (dxx_segments st))) in *.
  set (n := length (dxx_segments st)) in *.
  set (nb := length (blocks_of layout trans)) in *.
  assert (Z.pos step * (block / Z.pos step) <= block) as Hsteps
    by (apply Z.mul_div_le; lia).
  set (div := block / Z.pos step) in *.
  assert (div = Z.of_nat (S d)) as Hdd by lia. clearbody div. subst div.
  set (o := Z.to_nat off). set (sg := Z.to_nat seg).
  set (tailv := if trans then Z.pos step else Z.pos step * block) in *.
  assert ((if trans then (Z.of_nat (S d) - 1) * Z.pos step
           else (Z.of_nat (S d) - 1) * Z.pos step * block)
          = Z.of_nat d * tailv) as Hsub by (subst tailv; destruct trans; lia).
  rewrite Hsub in Hiw.
  assert (0 < block) as Hblock by nia.
  assert (0 < tailv /\ Z.of_nat (S d) * tailv <= block * block) as [Htail0 Htail1].
  { subst tailv. destruct trans; nia. }
  assert (forall m w, widx !! m = Some w -> 0 <= w <= Z.of_nat nb) as Hwb.
  { intros m w Hw. apply list_elem_of_lookup_2 in Hw.
    destruct trans.
    - injection Hwidx as <-. apply elem_of_seqZ in Hw. lia.
    - pose proof (widx_loop_bounds layout nz nh nw (seq 0 nz) Hshape Hb [] 0 widx
                    Hwidx ltac:(lia) ltac:(constructor)) as Hall.
      rewrite Forall_forall in Hall. specialize (Hall w Hw).
      pose proof (nonzero_count layout false nz nh nw Hshape Hb) as Hcount.
      fold nb in Hcount. lia. }
  destruct (segment_increments d widx (deltas (map (fun i => i * block * block) widx))
              tailv (Z.of_nat d * tailv) _ wincs o sg Hiw)
    as ((w0 & Hw0 & Hrow0) & Hrows & Htails).
  { by rewrite deltas_length, length_map. }
  { rewrite Hwl. subst o sg. lia. }
  { subst sg. lia. }
  { subst o. by rewrite Z2Nat.id by lia. }
  { intros i Hi. destruct (Hothers i Hi) as [Hr Hc]. subst o sg.
    rewrite Hwl. lia. }
  destruct (lookup_lt_is_Some_2 widx (Z.to_nat (off + j))) as [w Hw];
    [rewrite Hwl; lia|].
  exists widx, w. split; [done|]. split; [done|]. split.
  { intros ->. injection Hwidx as <-.
    apply lookup_seqZ in Hw as [-> _]. lia. }
  set (p := fun jj : nat => default 0 (widx !! (o + jj)%nat) * block * block).
  assert (forall jj, (jj < sg)%nat ->
            exists v, widx !! (o + jj)%nat = Some v /\ p jj = v * block * block)
    as Hp.
  { intros jj Hjj. subst p. cbv beta.
    destruct (lookup_lt_is_Some_2 widx (o + jj)) as [v Hv]; [rewrite Hwl; lia|].
    exists v. by rewrite Hv. }
  unfold sparse_position.
  replace (Z.to_nat (j * Z.of_nat (S d) + u))
    with (Z.to_nat j * S d + Z.to_nat u)%nat by lia.
  rewrite (walk_blocks _ _ d sg p tailv).
  - subst p. cbv beta.
    replace (o + Z.to_nat j)%nat with (Z.to_nat (off + j)) by lia.
    rewrite Hw. cbn [default from_option id]. lia.
  - replace (Z.to_nat (6 * Z.of_nat n + 2 * Z.of_nat (S d) * off + 1))
      with (6 * n + 2 * (o * S d) + 1)%nat by lia.
    rewrite (Hlw _ _ Hrow0). cbn [default from_option id].
    pose proof (Hwb _ _ Hw0). rewrite wrap32_small by nia.
    subst p. cbv beta. rewrite Nat.add_0_r, Hw0. done.
  - intros jj uu Hjj Huu.
    replace (Z.to_nat (6 * Z.of_nat n + 2 * Z.of_nat (S d) * off
                       + 2 * Z.of_nat (jj * S d + uu) + 1))
      with (6 * n + 2 * ((o + jj) * S d + uu) + 1)%nat by lia.
    rewrite (Hlw _ _ (Htails jj uu Hjj Huu)). cbn [default from_option id].
    apply wrap32_small. nia.
  - intros jj Hjj.
    replace (Z.to_nat (6 * Z.of_nat n + 2 * Z.of_nat (S d) * off
                       + 2 * Z.of_nat (jj * S d) + 1))
      with (6 * n + 2 * ((o + jj) * S d) + 1)%nat by lia.
    destruct (Hp (jj - 1)%nat) as (v0 & Hv0 & Hp0); [lia|].
    destruct (Hp jj) as (v1 & Hv1 & Hp1); [lia|].
    replace (o + (jj - 1))%nat with (o + jj - 1)%nat in Hv0 by lia.
    pose proof Hv1 as Hcur.
    replace (o + jj)%nat with (S (o + jj - 1)) in Hcur by lia.
    pose proof (deltas_lookup_S (map (fun i => i * block * block) widx) _ _ _
                  (map_lookup _ _ _ _ Hv0) (map_lookup _ _ _ _ Hcur)) as Hdelta.
    replace (S (o + jj - 1)) with (o + jj)%nat in Hdelta by lia.
    rewrite (Hlw _ _ (Hrows jj _ Hjj Hdelta)). cbn [default from_option id].
    pose proof (Hwb _ _ Hv0). pose proof (Hwb _ _ Hv1).
    rewrite wrap32_small by nia. lia.
  - lia.
  - lia.
Qed.

(** ** The storage index of the blocks *)

Lemma filter_bind {A B} (P : B -> Prop) `{forall x, Decision (P x)}
  (f : A -> list B) (l : list A) :
  filter P (l ≫= f) = l ≫= (fun a => filter P (f a)).
Proof.
  induction l as [|a l IH]; [done|].
  rewrite !bind_cons, filter_app. by rewrite IH.
Qed.

Lemma bind_ext {A B} (f g : A -> list B) (l : list A) :
  (forall a, f a = g a) -> l ≫= f = l ≫= g.
Proof.
  intros Hfg. induction l as [|a l IH]; [done|].
  by rewrite !bind_cons, Hfg, IH.
Qed.

Lemma bind_map {A B C} (g : B -> C) (f : A -> list B) (l : list A) :
  l ≫= (fun a => map g (f a)) = map g (l ≫= f).
Proof.
  induction l as [|a l IH]; [done|].
  by rewrite !bind_cons, map_app, IH.
Qed.

Lemma positive_cell (layout : tensor) (z h w : nat) :
  binary layout -> (at3 layout z h w <> 0 <-> 0 < at3 layout z h w).
Proof. intros Hb. destruct (at3_binary layout z h w Hb); lia. Qed.

Lemma filter_singleton_map {B C} (P : C -> Prop) (Q : B -> Prop)
  `{forall x, Decision (P x)} `{forall x, Decision (Q x)} (g : B -> C) (b : B) :
  (P (g b) <-> Q b) -> filter P [g b] = map g (filter Q [b]).
Proof.
  intros Hpq. rewrite !filter_cons, !filter_nil.
  destruct (decide (P (g b))), (decide (Q b)); try done; tauto.
Qed.

Lemma nonzero_transposed_by_slices (layout : tensor) (nz nh nw : nat) :
  shape layout = [nz; nh; nw] -> binary layout ->
  nonzero_transposed layout
  = seq 0 nz ≫= fun z =>
      map (fun '(h, w) => (z, w, h)) (positive_by_columns layout z).
Proof.
  intros Hshape Hb. unfold nonzero_transposed, positive_by_columns.
  rewrite Hshape. unfold cells_by_columns. rewrite filter_bind.
  apply bind_ext. intros z.
  rewrite !filter_bind, <- (bind_map (fun '(h, w) => (z, w, h))).
  apply bind_ext. intros w.
  rewrite !filter_bind, <- (bind_map (fun '(h, w) => (z, w, h))).
  apply bind_ext. intros h.
  apply (filter_singleton_map _ _ (fun '(h, w) => (z, w, h)) (h, w)).
  by apply positive_cell.
Qed.

Lemma nonzero_by_slices (layout : tensor) (nz nh nw : nat) :
  shape layout = [nz; nh; nw] -> binary layout ->
  nonzero layout
  = seq 0 nz ≫= fun z =>
      map (fun '(h, w) => (z, h, w))
          (filter (fun '(h, w) => 0 < at3 layout z h w)
                  (h ← seq 0 nh; w ← seq 0 nw; [(h, w)])).
Proof.
  intros Hshape Hb. unfold nonzero. rewrite Hshape.
  unfold cells_by_rows. rewrite filter_bind.
  apply bind_ext. intros z.
  rewrite !filter_bind, <- (bind_map (fun '(h, w) => (z, h, w))).
  apply bind_ext. intros h.
  rewrite !filter_bind, <- (bind_map (fun '(h, w) => (z, h, w))).
  apply bind_ext. intros w.
  apply (filter_singleton_map _ _ (fun '(h, w) => (z, h, w)) (h, w)).
  by apply positive_cell.
Qed.

Lemma blocks_before_S (layout : tensor) (z : nat) :
  blocks_before layout (S z) = blocks_before layout z + slice_total layout z.
Proof.
  unfold blocks_before. rewrite seq_S, map_app, tsum_app. cbn [map Nat.add].
  rewrite tsum_cons. change (tsum []) with 0. lia.
Qed.

Lemma Forall2_diag {A B C} (R : B -> C -> Prop) (f : A -> B) (g : A -> C)
  (l : list A) :
  (forall a, R (f a) (g a)) -> Forall2 R (map f l) (map g l).
Proof. intros HR. induction l; constructor; auto. Qed.

Lemma widx_loop_spec (layout : tensor) : forall n a widx r,
  widx_loop layout (seq a n) widx (blocks_before layout a) = Ok r ->
  exists tail,
    r = widx ++ tail
    /\ Forall2 (fun '(z, w, h) i =>
                  i = blocks_before layout z + block_rank layout z h w)
         (seq a n ≫= fun z =>
            map (fun '(h, w) => (z, w, h)) (positive_by_columns layout z))
         tail.
Proof.
  induction n as [|n IH]; intros a widx r Hrun.
  - injection Hrun as <-. exists []. by rewrite app_nil_r.
  - cbn [seq widx_loop] in Hrun.
    destruct (Z.eqb_spec (Z.of_nat (length (positive_by_columns layout a)))
                (slice_total layout a)) as [Heq|]; [|done].
    cbn [negb] in Hrun. rewrite <- blocks_before_S in Hrun.
    apply IH in Hrun as (tail & -> & Htail).
    eexists. split; [by rewrite <- app_assoc|].
    cbn [seq]. rewrite bind_cons. apply Forall2_app; [|done].
    apply Forall2_diag. intros [h w]. lia.
Qed.

Lemma length_bind {A B} (f : A -> list B) (l : list A) :
  Z.of_nat (length (l ≫= f)) = tsum (map (fun a => Z.of_nat (length (f a))) l).
Proof.
  induction l as [|a l IH]; [done|].
  rewrite bind_cons, length_app. cbn [map]. rewrite tsum_cons, <- IH. lia.
Qed.

Lemma bind_seq_lookup {B} (F : nat -> list B) (n z i : nat) (x : B) :
  (z < n)%nat -> F z !! i = Some x ->
  (seq 0 n ≫= F) !! (length (seq 0 z ≫= F) + i)%nat = Some x.
Proof.
  intros Hz Hx. replace n with (z + S (n - S z))%nat by lia.
  rewrite seq_app, bind_app, lookup_app_r by lia.
  replace (length (seq 0 z ≫= F) + i - length (seq 0 z ≫= F))%nat with i by lia.
  cbn [seq Nat.add]. rewrite bind_cons. by apply lookup_app_l_Some.
Qed.

Lemma row_lookup {A} (a : A) (n : nat) : forall b j,
  (j < n)%nat -> (seq b n ≫= fun w => [(a, w)]) !! j = Some (a, (b + j)%nat).
Proof.
  induction n as [|n IH]; intros b j Hj; [lia|].
  cbn [seq]. rewrite bind_cons. destruct j as [|j].
  - cbn. by rewrite Nat.add_0_r.
  - cbn [app lookup list_lookup]. rewrite IH by lia. do 2 f_equal. lia.
Qed.

Lemma row_length {A} (a : A) (n b : nat) :
  length (seq b n ≫= fun w => [(a, w)]) = n.
Proof.
  revert b. induction n as [|n IH]; intros b; [done|].
  cbn [seq]. rewrite bind_cons. cbn [app length]. by rewrite IH.
Qed.

Lemma pairs_lookup (nw : nat) : forall n a i w,
  (i < n)%nat -> (w < nw)%nat ->
  (seq a n ≫= fun h => seq 0 nw ≫= fun w => [(h, w)]) !! (i * nw + w)%nat
  = Some ((a + i)%nat, w).
Proof.
  induction n as [|n IH]; intros a i w Hi Hw; [lia|].
  cbn [seq]. rewrite bind_cons. destruct i as [|i].
  - rewrite lookup_app_l by (rewrite row_length; lia).
    cbn [Nat.mul Nat.add]. rewrite row_lookup by lia. by rewrite Nat.add_0_r.
  - rewrite lookup_app_r by (rewrite row_length; lia).
    rewrite row_length.
    replace (S i * nw + w - nw)%nat with (i * nw + w)%nat by lia.
    rewrite IH by lia. do 2 f_equal. lia.
Qed.

Lemma filter_lookup_rank {A} (Q : A -> Prop) `{forall x, Decision (Q x)}
  (l : list A) (m : nat) (x : A) :
  l !! m = Some x -> Q x ->
  filter Q l !! length (filter Q (take m l)) = Some x.
Proof.
  intros Hx HQ.
  pose proof (f_equal (filter Q) (take_drop_middle l m x Hx)) as Hsplit.
  rewrite filter_app, filter_cons_True in Hsplit by done.
  rewrite <- Hsplit. by apply list_lookup_middle.
Qed.

Lemma rows_count (layout : tensor) (z nz nh nw : nat) :
  shape layout = [nz; nh; nw] -> binary layout ->
  Z.of_nat (length (filter (fun '(h, w) => 0 < at3 layout z h w)
                      (h ← seq 0 nh; w ← seq 0 nw; [(h, w)])))
  = slice_total layout z.
Proof.
  intros Hshape Hb. unfold slice_total, sum_axis1. rewrite Hshape.
  rewrite length_filter_bind. f_equal. apply map_ext. intros h.
  rewrite length_filter_bind. f_equal. apply map_ext. intros w.
  rewrite filter_cons, filter_nil.
  destruct (at3_binary layout z h w Hb) as [H0 | H1];
    destruct (decide _) as [Hd | Hd]; cbn in Hd |- *; lia.
Qed.

(** X23: when [trans] is not set, [widx[m]], the number of the block that
    is reduced [m]-th, is the position of that block in
    [layout.nonzero()], the order in which the sparse operand stores its
    blocks. *)
Theorem widx_is_storage_index (layout : tensor) (nz nh nw : nat)
  (widx : list Z) (m z w h : nat) (i : Z) :
  shape layout = [nz; nh; nw] -> binary layout ->
  widx_loop layout (seq 0 nz) [] 0 = Ok widx ->
  nonzero_transposed layout !! m = Some (z, w, h) ->
  widx !! m = Some i ->
  0 <= i /\ nonzero layout !! Z.to_nat i = Some (z, h, w).
Proof.
  intros Hshape Hb Hrun Hcell Hi.
  assert ((z < nz)%nat /\ (h < nh)%nat /\ (w < nw)%nat /\ 0 < at3 layout z h w)
    as Hin.
  { apply list_elem_of_lookup_2 in Hcell. unfold nonzero_transposed in Hcell.
    rewrite Hshape in Hcell. apply list_elem_of_filter in Hcell as [Hp Hin].
    unfold cells_by_columns in Hin.
    apply list_elem_of_bind in Hin as (z' & Hin & Hz%elem_of_seq).
    apply list_elem_of_bind in Hin as (w' & Hin & Hw%elem_of_seq).
    apply list_elem_of_bind in Hin as (h' & Hin & Hh%elem_of_seq).
    apply list_elem_of_singleton in Hin. injection Hin as Ez Ew Eh.
    subst z' w' h'. cbn in Hp. apply (positive_cell layout z h w Hb) in Hp. lia. }
  destruct Hin as (Hz & Hh & Hw & Hpos).
  change (widx_loop layout (seq 0 nz) [] (blocks_before layout 0) = Ok widx)
    in Hrun.
  apply widx_loop_spec in Hrun as (tail & -> & Hall). cbn [app] in Hi.
  rewrite (nonzero_transposed_by_slices layout nz nh nw Hshape Hb) in Hcell.
  pose proof (Forall2_lookup_lr _ _ _ _ _ _ Hall Hcell Hi) as ->.
  cbv beta.
  pose proof (block_rank_bound layout z h w nz nh nw Hshape Hb) as Hrank.
  assert (0 <= blocks_before layout z) as Hbefore.
  { apply tsum_nonneg, Forall_forall. intros x (z' & -> & _)%list_elem_of_fmap.
    apply slice_total_nonneg. by apply binary_nonneg. }
  split; [lia|].
  rewrite (nonzero_by_slices layout nz nh nw Hshape Hb).
  set (F := fun z : nat =>
              map (fun '(h, w) => (z, h, w))
                  (filter (fun '(h, w) => 0 < at3 layout z h w)
                          (h ← seq 0 nh; w ← seq 0 nw; [(h, w)]))).
  assert (Z.of_nat (length (seq 0 z ≫= F)) = blocks_before layout z) as Hlen.
  { rewrite length_bind. unfold blocks_before. f_equal. apply map_ext.
    intros z'. subst F. cbv beta. rewrite length_map.
    apply (rows_count layout z' nz nh nw Hshape Hb). }
  unfold block_rank in *. rewrite Hshape in *.
  match goal with
  | |- _ !! Z.to_nat (_ + Z.of_nat ?r) = _ =>
      replace (Z.to_nat (blocks_before layout z + Z.of_nat r))
        with (length (seq 0 z ≫= F) + r)%nat by lia
  end.
  apply bind_seq_lookup; [done|]. subst F. cbv beta.
  apply (map_lookup (fun '(h, w) => (z, h, w)) _ _ (h, w)).
  apply (filter_lookup_rank (fun '(h, w) => 0 < at3 layout z h w)); [|done].
  pose proof (pairs_lookup nw nh 0 h w Hh Hw) as Hp. exact Hp.
Qed.

Lemma lut_table_shape_witness :
  exists st,
    make_dxx_lut_balance zero_heaps two_slices false = Ok st
    /\ 1 = 1
    /\ 7 = Z.of_nat (length (dxx_segments st))
    /\ Z.of_nat (length two_slices_lut)
       = 6 * 7 + 2 * (32 / 16) * Z.of_nat (length (blocks_of two_slices false)) + 2
    /\ drop (length two_slices_lut - 2) two_slices_lut = [0; 0]
    /\ forall (k : nat) (seg off col dep : Z),
         dxx_segments st !! k = Some seg -> dxx_offsets st !! k = Some off ->
         dxx_column st !! k = Some col -> dxx_depth st !! k = Some dep ->
         take 6 (drop (6 * k) two_slices_lut)
         = map wrap32
             [6 * 7 + 2 * (32 / 16)
                      * Z.min off (Z.of_nat (length (blocks_of two_slices false)) - 1);
              seg * 16 * (32 / 16); col; dep; 0; 0].
Proof.
  apply (lut_table_shape zero_heaps two_slices 32 16 false 2 2 2
           two_slices_lut 1 7).
  - reflexivity.
  - unfold binary. cbn. repeat (constructor; try lia).
  - vm_compute. reflexivity.
Defined.

Lemma table_reads_in_bounds_witness :
  Forall (fun p => 0 <= p < Z.of_nat (length two_slices_lut))
         (task_reads two_slices_lut 5).
Proof.
  apply (table_reads_in_bounds zero_heaps two_slices 32 16 false 2 2 2
           two_slices_lut 1 7 5).
  - reflexivity.
  - unfold binary. cbn. repeat (constructor; try lia).
  - lia.
  - vm_compute. reflexivity.
  - cbn. lia.
  - lia.
Defined.

Lemma table_built_iff_populated_witness :
  ((exists r, make_dxx_lut zero_heaps empty_slice_layout 32 16 true (fun idx => idx)
              = Ok r)
   <-> populated empty_slice_layout true)
  /\ (~ populated empty_slice_layout true ->
      make_dxx_lut zero_heaps empty_slice_layout 32 16 true (fun idx => idx)
      = Raise RuntimeError).
Proof.
  apply (table_built_iff_populated zero_heaps empty_slice_layout 32 16 true 2 2 2).
  - reflexivity.
  - unfold binary. cbn. repeat (constructor; try lia).
  - lia.
Defined.

Lemma dense_walk_visits_blocks_witness :
  exists pinc cell,
    two_slices_lut !! (6 * 5)%nat = Some pinc
    /\ blocks_of two_slices false !! Z.to_nat (3 + 1) = Some cell
    /\ dense_position two_slices_lut pinc (Z.to_nat (1 * (32 / 16) + 1))
       = Z.of_nat cell.2 * 32 + 1 * 16.
Proof.
  apply (dense_walk_visits_blocks zero_heaps two_slices 32 16 false 2 2 2
           two_slices_lut 1 7 two_slices_schedule 5 2 3 1 1).
  - reflexivity.
  - unfold binary. cbn. repeat (constructor; try lia).
  - vm_compute. reflexivity.
  - vm_compute. reflexivity.
  - cbn. lia.
  - cbn. lia.
  - reflexivity.
  - reflexivity.
  - lia.
  - change (32 / 16) with 2. lia.
Defined.

Lemma sparse_walk_visits_blocks_witness :
  exists pinc widx w,
    two_slices_lut !! (6 * 5)%nat = Some pinc
    /\ widx_loop two_slices (seq 0 2) [] 0 = Ok widx
    /\ widx !! Z.to_nat (3 + 1) = Some w
    /\ (false = true -> w = 3 + 1)
    /\ sparse_position two_slices_lut 32 pinc (Z.to_nat (1 * (32 / 16) + 1))
       = w * 32 * 32 + 1 * (16 * 32).
Proof.
  apply (sparse_walk_visits_blocks zero_heaps two_slices 32 16 false 2 2 2
           two_slices_lut 1 7 two_slices_schedule 5 2 3 1 1).
  - reflexivity.
  - unfold binary. cbn. repeat (constructor; try lia).
  - vm_compute. reflexivity.
  - vm_compute. reflexivity.
  - by vm_compute.
  - by vm_compute.
  - reflexivity.
  - reflexivity.
  - lia.
  - change (32 / 16) with 2. lia.
Defined.

Lemma widx_is_storage_index_witness :
  0 <= 2 /\ nonzero corner_layout !! Z.to_nat 2 = Some (0, 1, 0)%nat.
Proof.
  apply (widx_is_storage_index corner_layout 1 2 2 [0; 2; 1] 1 0 0 1 2).
  - reflexivity.
  - unfold binary. cbn. repeat (constructor; try lia).
  - vm_compute. reflexivity.
  - vm_compute. reflexivity.
  - reflexivity.
Defined.

(** * The blocks of a segment *)

Lemma plan_head (M sm s : Z) :
  0 <= s <= M -> exists zeros,
    column_plan M sm s = s :: zeros /\ Forall (fun x => x = 0) zeros.
Proof.
  intros Hs. unfold column_plan.
  destruct (Z.ltb_spec s M); [by exists []|].
  assert (s = M) as -> by lia.
  destruct (M <? sm); [exists [0] | exists []]; split; repeat constructor.
Qed.

Lemma tsum_zeros (t : list Z) : Forall (fun x => x = 0) t -> tsum t = 0.
Proof. induction 1 as [|x t -> _ IH]; [done|]. by rewrite tsum_cons, IH. Qed.

Lemma plan_segment_span (M sm : Z) (sizes : list Z) :
  Forall (fun s => 0 <= s <= M) sizes ->
  forall (j : Z) (k : nat) (seg col : Z),
    all_plans M sm sizes !! k = Some seg ->
    column_ids M sm j sizes !! k = Some col -> 0 < seg ->
    exists c : nat,
      col = j + Z.of_nat c /\ sizes !! c = Some seg
      /\ tsum (take k (all_plans M sm sizes)) = tsum (take c sizes).
Proof.
  induction 1 as [|s sizes Hs _ IH]; intros j k seg col Hseg Hcol Hpos; [done|].
  unfold all_plans in *. cbn [map concat column_ids] in *.
  destruct (plan_head M sm s Hs) as (zeros & Hplan & Hzeros).
  rewrite Hplan in *. cbn [length replicate app] in *.
  destruct k as [|k].
  - injection Hseg as <-. injection Hcol as <-. exists 0%nat.
    split; [lia|]. done.
  - change ((zeros ++ concat (map (column_plan M sm) sizes)) !! k = Some seg)
      in Hseg.
    change ((replicate (length zeros) j ++ column_ids M sm (j + 1) sizes) !! k
            = Some col) in Hcol.
    destruct (decide (k < length zeros)%nat) as [Hlt | Hge].
    + exfalso. rewrite lookup_app_l in Hseg by done.
      rewrite Forall_forall in Hzeros.
      pose proof (Hzeros seg (list_elem_of_lookup_2 _ _ _ Hseg)). lia.
    + rewrite lookup_app_r in Hseg by lia.
      rewrite lookup_app_r in Hcol by (rewrite length_replicate; lia).
      rewrite length_replicate in Hcol.
      destruct (IH (j + 1) _ seg col Hseg Hcol Hpos) as (c & -> & Hc & Hsum).
      exists (S c). split; [lia|]. split; [done|].
      cbn [take]. rewrite !tsum_cons. rewrite take_app_ge by lia.
      rewrite tsum_app, (tsum_zeros _ Hzeros), Hsum. lia.
Qed.

Lemma load_balance_span (mem : heap) (sizes : list Z) (lb : balanced)
  (k : nat) (seg off col : Z) :
  reduction_lengths sizes -> load_balance mem sizes = Ok lb ->
  segments lb !! k = Some seg -> offsets lb !! k = Some off ->
  column lb !! k = Some col -> 0 < seg ->
  exists c : nat,
    col = Z.of_nat c /\ sizes !! c = Some seg /\ off = tsum (take c sizes).
Proof.
  intros Hnn Hlb Hseg Hoff Hcol Hpos.
  pose proof (load_balance_ok_nonzero mem sizes lb Hlb) as Hnz.
  destruct (load_balance_planned mem sizes Hnn Hnz) as (M & Hmax & HM & Hp).
  rewrite Hp in Hlb. injection Hlb as <-.
  cbn [planned segments offsets column] in *.
  rewrite lb_offsets_prefix_sums, prefix_sums_lookup in Hoff
    by (by eapply lookup_lt_Some).
  injection Hoff as <-.
  destruct (plan_segment_span M (seg_min_of M) sizes
              (in_range_of_max M sizes Hmax Hnn) 0 k seg col Hseg Hcol Hpos)
    as (c & -> & Hc & Hsum).
  exists c. split; [lia|]. done.
Qed.

Lemma dxx_slice_spans mem layout trans z st st' :
  Forall (fun x => 0 <= x) (data layout) ->
  current_offset st = blocks_before layout z ->
  dxx_common_length st (length (dxx_segments st)) ->
  spans layout trans z st ->
  dxx_slice mem layout trans z st = Ok st' ->
  current_offset st' = blocks_before layout (S z)
  /\ dxx_common_length st' (length (dxx_segments st'))
  /\ spans layout trans (S z) st'.
Proof.
  intros Hnn Hco Hlen Hspans Hrun.
  destruct (decide (has_nonzero (slice_sizes layout trans z))) as [Hnz | Hno];
    [|by rewrite (dxx_slice_raises _ _ _ _ _ Hno) in Hrun].
  destruct (dxx_slice_returns mem layout trans z st Hnn Hnz)
    as (lb & Hlb & _ & Hslice).
  rewrite Hslice in Hrun. injection Hrun as <-.
  destruct (load_balance_slice_facts _ _ _
              (slice_sizes_nonneg layout trans z Hnn) Hlb)
    as (_ & _ & _ & Hl2 & Hl3 & Hl4 & Hl5).
  destruct Hlen as (_ & Hc & Hd & Hk & Hm & Ho).
  cbn [current_offset dxx_segments dxx_column dxx_depth dxx_lockid dxx_maxid
       dxx_offsets].
  split; [by rewrite blocks_before_S, Hco|]. split.
  { unfold dxx_common_length.
    cbn [dxx_segments dxx_column dxx_depth dxx_lockid dxx_maxid dxx_offsets].
    rewrite !length_app, !length_map. lia. }
  intros k seg off col dep.
  cbn [dxx_segments dxx_column dxx_depth dxx_offsets].
  intros Hseg Hoff Hcol Hdep Hpos.
  destruct (decide (k < length (dxx_segments st))%nat) as [Hlt | Hge].
  - rewrite lookup_app_l in Hseg, Hoff, Hcol, Hdep by lia.
    destruct (Hspans k seg off col dep Hseg Hoff Hcol Hdep Hpos)
      as (z' & c & Hz' & Hrest).
    exists z', c. split; [lia | done].
  - rewrite lookup_app_r in Hseg, Hoff, Hcol, Hdep by lia.
    rewrite Ho in Hoff. rewrite Hc in Hcol. rewrite Hd in Hdep.
    apply map_lookup_inv in Hoff as (off' & Hoff' & ->).
    apply map_lookup_inv in Hdep as (s' & _ & ->).
    destruct (load_balance_span mem _ lb _ seg off' col
                (slice_sizes_nonneg layout trans z Hnn) Hlb Hseg Hoff' Hcol Hpos)
      as (c & -> & Hsize & ->).
    exists z, c. split; [lia|]. split; [done|]. split; [done|].
    split; [exact Hsize|]. unfold slice_sizes. lia.
Qed.

Lemma dxx_loop_spans mem layout trans (n : nat) : forall (a : nat) st st',
  Forall (fun x => 0 <= x) (data layout) ->
  current_offset st = blocks_before layout a ->
  dxx_common_length st (length (dxx_segments st)) ->
  spans layout trans a st ->
  dxx_loop mem layout trans (seq a n) st = Ok st' ->
  spans layout trans (a + n) st'.
Proof.
  induction n as [|n IH]; intros a st st' Hnn Hco Hlen Hspans Hrun.
  - injection Hrun as <-. by rewrite Nat.add_0_r.
  - cbn [seq dxx_loop] in Hrun.
    destruct (dxx_slice (mem a) layout trans a st) as [st1|e] eqn:Hslice; [|done].
    cbn [bind] in Hrun.
    destruct (dxx_slice_spans _ _ _ _ _ _ Hnn Hco Hlen Hspans Hslice)
      as (Hco1 & Hlen1 & Hspans1).
    replace (a + S n)%nat with (S a + n)%nat by lia.
    by apply (IH (S a) st1 st').
Qed.

Lemma take_map_seq {A} (f : nat -> A) (n c : nat) :
  (c <= n)%nat -> take c (map f (seq 0 n)) = map f (seq 0 c).
Proof.
  intros Hc. replace n with (c + (n - c))%nat by lia.
  rewrite seq_app, map_app, take_app_length'; [done|].
  by rewrite length_map, length_seq.
Qed.

Lemma cell_count {A} (P : A -> Prop) `{forall x, Decision (P x)} (x : A) (v : Z) :
  (v = 0 \/ v = 1) -> (P x <-> v <> 0) ->
  Z.of_nat (length (filter P [x])) = v.
Proof.
  intros Hv HP. rewrite filter_cons, filter_nil.
  destruct (decide (P x)) as [Hd | Hd]; cbn.
  - apply HP in Hd. lia.
  - destruct Hv; [lia|]. exfalso. apply Hd, HP. lia.
Qed.

(** The blocks in reduction order, grouped by depth slice and column. *)
Lemma blocks_of_grouped (layout : tensor) (trans : bool) (nz nh nw : nat) :
  shape layout = [nz; nh; nw] -> binary layout ->
  exists G : nat -> nat -> list (nat * nat * nat),
    blocks_of layout trans
    = (seq 0 nz ≫= fun z =>
         seq 0 (length (slice_sizes layout trans z)) ≫= G z)
    /\ (forall z c x, x ∈ G z c -> exists r, x = (z, c, r))
    /\ (forall z, slice_sizes layout trans z
                  = map (fun c => Z.of_nat (length (G z c)))
                        (seq 0 (length (slice_sizes layout trans z)))).
Proof.
  intros Hshape Hb. destruct trans.
  - exists (fun z h =>
              filter (fun '(z, h, w) => at3 layout z h w <> 0)
                     (seq 0 nw ≫= fun w => [(z, h, w)])).
    unfold blocks_of, nonzero, slice_sizes, sum_axis1. rewrite Hshape.
    split; [|split].
    + unfold cells_by_rows. rewrite filter_bind. apply bind_ext. intros z.
      rewrite length_map, length_seq, filter_bind. done.
    + intros z c x [_ Hin]%list_elem_of_filter.
      apply list_elem_of_bind in Hin as (w & Hin & _).
      apply list_elem_of_singleton in Hin as ->. by exists w.
    + intros z. rewrite length_map, length_seq. apply map_ext. intros h.
      rewrite length_filter_bind. f_equal. apply map_ext. intros w.
      symmetry. by apply cell_count; [apply at3_binary|].
  - exists (fun z w =>
              filter (fun '(z, w, h) => at3 layout z h w <> 0)
                     (seq 0 nh ≫= fun h => [(z, w, h)])).
    unfold blocks_of, nonzero_transposed, slice_sizes, sum_axis0. rewrite Hshape.
    split; [|split].
    + unfold cells_by_columns. rewrite filter_bind. apply bind_ext. intros z.
      rewrite length_map, length_seq, filter_bind. done.
    + intros z c x [_ Hin]%list_elem_of_filter.
      apply list_elem_of_bind in Hin as (h & Hin & _).
      apply list_elem_of_singleton in Hin as ->. by exists h.
    + intros z. rewrite length_map, length_seq. apply map_ext. intros w.
      rewrite length_filter_bind. f_equal. apply map_ext. intros h.
      symmetry. by apply cell_count; [apply at3_binary|].
Qed.

(** X24: a segment that is not empty reduces blocks of its own column and
    depth slice only: block [j] of the segment, the block that is reduced
    [(off + j)]-th, has the segment's depth slice and column as its first
    two indices in the order [make_dxx_lut] enumerates the blocks. *)
Theorem segment_walks_own_column (mem : nat -> heap) (layout : tensor)
  (trans : bool) (nz nh nw : nat) (st : dxx_state) (k : nat)
  (seg off col dep j : Z) :
  shape layout = [nz; nh; nw] -> binary layout ->
  make_dxx_lut_balance mem layout trans = Ok st ->
  dxx_segments st !! k = Some seg -> dxx_offsets st !! k = Some off ->
  dxx_column st !! k = Some col -> dxx_depth st !! k = Some dep ->
  0 <= j < seg ->
  exists r : nat,
    blocks_of layout trans !! Z.to_nat (off + j)
    = Some (Z.to_nat dep, Z.to_nat col, r).
Proof.
  intros Hshape Hb Hst Hseg Hoff Hcol Hdep Hj.
  pose proof (binary_nonneg layout Hb) as Hnn.
  unfold make_dxx_lut_balance in Hst. rewrite Hshape in Hst.
  apply (dxx_loop_spans mem layout trans nz 0) in Hst; cbn [current_offset]; try done.
  cbn [Nat.add] in Hst.
  destruct (Hst k seg off col dep Hseg Hoff Hcol Hdep)
    as (z & c & Hz & -> & -> & Hsize & ->); [lia|].
  rewrite !Nat2Z.id.
  destruct (blocks_of_grouped layout trans nz nh nw Hshape Hb)
    as (G & -> & Hcells & Hsizes).
  set (sizes := slice_sizes layout trans) in *.
  pose proof (lookup_lt_Some _ _ _ Hsize) as Hc.
  assert (Z.of_nat (length (G z c)) = seg) as Hlen.
  { rewrite (Hsizes z) in Hsize.
    apply map_lookup_inv in Hsize as (c' & Hc' & ->).
    apply lookup_seq in Hc' as [-> _]. done. }
  destruct (lookup_lt_is_Some_2 (G z c) (Z.to_nat j)) as [x Hx]; [lia|].
  destruct (Hcells z c x (list_elem_of_lookup_2 _ _ _ Hx)) as [r ->].
  exists r.
  set (F := fun z : nat => seq 0 (length (sizes z)) ≫= G z).
  assert (Z.to_nat (blocks_before layout z + tsum (take c (sizes z)) + j)
          = (length (seq 0 z ≫= F) + (length (seq 0 c ≫= G z) + Z.to_nat j))%nat)
    as ->.
  { assert (Z.of_nat (length (seq 0 z ≫= F)) = blocks_before layout z) as H1.
    { rewrite length_bind. unfold blocks_before. f_equal. apply map_ext.
      intros z'. subst F. cbv beta. rewrite length_bind.
      rewrite <- (slice_sizes_total layout trans z'). fold sizes.
      by rewrite (Hsizes z') at 2. }
    assert (Z.of_nat (length (seq 0 c ≫= G z)) = tsum (take c (sizes z))) as H2.
    { rewrite length_bind.
      pose proof (f_equal (take c) (Hsizes z)) as Ht.
      rewrite take_map_seq in Ht by lia. by rewrite Ht. }
    lia. }
  apply bind_seq_lookup; [done|]. subst F. cbv beta.
  by apply bind_seq_lookup.
Qed.

Lemma segment_walks_own_column_witness :
  exists r : nat,
    blocks_of two_slices false !! Z.to_nat (3 + 1)
    = Some (Z.to_nat 1, Z.to_nat 1, r).
Proof.
  apply (segment_walks_own_column zero_heaps two_slices false 2 2 2
           two_slices_schedule 5 2 3 1 1 1).
  - reflexivity.
  - unfold binary. cbn. repeat (constructor; try lia).
  - vm_compute. reflexivity.
  - reflexivity.
  - reflexivity.
  - reflexivity.
  - reflexivity.
  - lia.
Defined.
